(** * function-download-photos: the archive preparation pipeline

    A shallow embedding of the Appwrite function [prepareDownload], as it
    stands in the first listing of src/main.js (lines 1-256) and in its
    streaming revision (the second listing of src/unnamed/part_000), with the
    properties of the chunked archive assembly pipeline proved over it; and
    of the function [downloadPhotos] (the first listing of
    src/unnamed/part_000), which streams one archive into the response.

    Conventions of the embedding.
    - JavaScript numbers are IEEE 754 doubles.  The chunking loop of
      src/main.js is given over an arbitrary arithmetic ([Chunking]), whose
      instance [binary64] is the one of JavaScript; the properties that
      depend on how the sizes are added are stated there.  In the runs the
      sizes are megabyte counts read as exact rationals ([Q]), and the
      statements about runs do not depend on how they add up.
    - JavaScript strings are [string]s, one [ascii] per code unit.
    - A document attribute that may be missing is an [option]; [None] stands
      for [undefined] and [null] alike wherever the code only tests it with
      [||] or [?.].
    - Appwrite, the archiver, the streams and the clock are an outside
      [world] that answers each call from the history of the run; every call
      is recorded as an [event].  A call may never settle ([Never]), and a
      listener may wait for an event that does not come: the run then stays
      [Pending] at that point.  The only loop that may not end, the paging
      loop, runs on fuel.
    - [context.log] progress lines and the [warning] handlers set on the
      archiver are not part of the model; [context.error] lines are, those of
      the [error] handlers of the archiver included.  Errors that the archiver
      raises between two calls of the function are not modelled. *)

From Stdlib Require Import List String Ascii Bool Arith NArith Lia QArith Qround.
From Stdlib Require Import PrimFloat FloatOps SpecFloat.
From Stdlib Require Import DecimalString DecimalNat DecimalN.
Import ListNotations.

Local Open Scope string_scope.
Local Open Scope list_scope.
Local Open Scope Q_scope.

(** ** Documents of the photo and event collections *)

(** A photo document, with the attributes the functions read. *)
Record photo : Type := mkPhoto {
  dollar_id : string;            (* photo.$id *)
  file_id : string;
  file_type : option string;
  file_name : option string;
  file_size : option Q           (* megabytes *)
}.

(** A value that may be undefined, null or a string. *)
Inductive jsvalue : Type :=
| JsUndefined
| JsNull
| JsString (s : string).

(** An event document: the owner and the display name. *)
Record eventDocument : Type := mkEventDocument {
  user_id : jsvalue;
  event_name : option string
}.

(** ** JavaScript helpers *)

(** [v || d] on a string that may be missing: the empty string is falsy. *)
Definition orElse (v : option string) (d : string) : string :=
  match v with
  | Some (String c s) => String c s
  | _ => d
  end.

(** [!v] on a string that may be missing. *)
Definition falsy (v : option string) : bool :=
  match v with
  | Some (String _ _) => false
  | _ => true
  end.

(** [String(v || '')] *)
Definition String_or_empty (v : jsvalue) : string :=
  match v with
  | JsString s => s
  | _ => ""
  end.

(** [String(v)] *)
Definition String_of (v : jsvalue) : string :=
  match v with
  | JsUndefined => "undefined"
  | JsNull => "null"
  | JsString s => s
  end.

(** White space of [String.prototype.trim], among 8-bit code units. *)
Definition isWhiteSpace (c : ascii) : bool :=
  let n := nat_of_ascii c in
  ((9 <=? n) && (n <=? 13) || (n =? 32) || (n =? 160))%nat.

Fixpoint trimStart (s : string) : string :=
  match s with
  | EmptyString => EmptyString
  | String c s' => if isWhiteSpace c then trimStart s' else s
  end.

Fixpoint trimEnd (s : string) : string :=
  match s with
  | EmptyString => EmptyString
  | String c s' =>
      match trimEnd s' with
      | EmptyString => if isWhiteSpace c then EmptyString else String c EmptyString
      | t => String c t
      end
  end.

Definition trim (s : string) : string := trimEnd (trimStart s).

(** [a !== b] between a string and a header value that may be absent. *)
Definition strictNe (a : string) (b : option string) : bool :=
  match b with
  | Some b' => negb (String.eqb a b')
  | None => true
  end.

(** A number in a template literal. *)
Definition decimal (n : nat) : string := NilEmpty.string_of_uint (Nat.to_uint n).

(** The same for a time in milliseconds. *)
Definition decimalN (n : N) : string := NilEmpty.string_of_uint (N.to_uint n).

(** [parseFloat(x.toFixed(2))]: [x] rounded to two decimals. *)
Definition toFixed2 (x : Q) : Q := Qmake (Qfloor (x * 100 + (1 # 2))) 100.

(** ** The collaborators: Appwrite, the archiver, the clock *)

Definition Buffer : Type := list Byte.byte.

Inductive role : Type :=
| Role_user (id : string).

Inductive permission : Type :=
| Permission_read (r : role)
| Permission_update (r : role)
| Permission_delete (r : role).

Inductive query : Type :=
| Query_equal (attribute value : string)
| Query_limit (n : nat)
| Query_offset (n : nat)
| Query_select (attributes : list string).

(** The value of a field of a document being created.  Counts and ordinals
    are kept as [nat], sizes as [Q], a [Date] as its milliseconds. *)
Inductive field : Type :=
| FString (s : string)
| FNumber (q : Q)
| FCount (n : nat)
| FDate (ms : N).

(** The object handed to [storage.createFile]. *)
Record fileObject : Type := mkFileObject {
  fo_name : string;
  fo_type : string;
  fo_size : nat;
  fo_bytes : Buffer
}.

(** What a run does that can be observed from outside, in order. *)
Inductive event : Type :=
| Databases_getDocument (databaseId collectionId documentId : string)
| Databases_listDocuments (databaseId collectionId : string) (queries : list query)
| Databases_createDocument (databaseId collectionId documentId : string)
    (data : list (string * field)) (permissions : option (list permission))
| Storage_getFileDownload (bucketId fileId : string)
| Storage_createFile (bucketId fileId : string) (file : fileObject)
    (permissions : list permission)
| Archiver_zip
| Archive_append (buffer : Buffer) (name : string)
| Archive_finalize
| ZipStream_on_finish            (* zipStream.on('finish', resolve) *)
| Context_error (args : list string).

(** How an awaited call settles, if it does. *)
Inductive answer (A : Type) : Type :=
| Resolve (a : A)
| Reject (message : string)
| Never.
Arguments Resolve {A} a.
Arguments Reject {A} message.
Arguments Never {A}.

(** The outside world: what each call answers, given everything the run has
    done so far, the call itself included as the last event. *)
Record world : Type := mkWorld {
  on_getDocument : list event -> answer eventDocument;
  on_listDocuments : list event -> answer (list photo);
  on_createDocument : list event -> answer string;      (* the new $id *)
  on_getFileDownload : list event -> answer Buffer;
  on_createFile : list event -> answer string;          (* the new $id *)
  on_append : list event -> answer unit;
  on_finalize : list event -> answer Buffer;
  (* whether the archiver announces the failure of the call with an 'error'
     event, whose handler runs before the error is thrown *)
  emits_error : list event -> bool;
  (* whether 'finish' is emitted by the stream after the listener is set *)
  on_finish : list event -> bool;
  Date_now : list event -> N
}.

(** [process.env] *)
Record environment : Type := mkEnvironment {
  APPWRITE_DATABASE_ID : string;
  APPWRITE_PHOTO_COLLECTION_ID : string;
  APPWRITE_EVENT_COLLECTION_ID : string;
  APPWRITE_DOWNLOAD_COLLECTION_ID : string;
  APPWRITE_BUCKET_ID : string;
  APPWRITE_DOWNLOAD_BUCKET_ID : string
}.

(** [context.req]: the body as [JSON.parse] sees it, and the identity header. *)
Inductive body : Type :=
| Body_empty                              (* bodyRaw is empty *)
| Body_invalid (message : string)         (* JSON.parse throws *)
| Body_null                               (* the JSON text null *)
| Body_object (eventId : option string).  (* any other JSON value *)

Record request : Type := mkRequest {
  bodyRaw : body;
  x_appwrite_user_id : option string
}.

(** ** The monad of a run

    A computation reads the history of the run and returns an outcome with
    the events it added.  A thrown error keeps the events emitted before it. *)

Inductive outcome (A : Type) : Type :=
| Ok (a : A)
| Throw (message : string)
| Pending                        (* an await that does not settle *)
| OutOfFuel.
Arguments Ok {A} a.
Arguments Throw {A} message.
Arguments Pending {A}.
Arguments OutOfFuel {A}.

Definition M (A : Type) : Type := list event -> outcome A * list event.

Definition ret {A : Type} (a : A) : M A := fun _ => (Ok a, []).

Definition throw {A : Type} (message : string) : M A := fun _ => (Throw message, []).

Definition bind {A B : Type} (m : M A) (k : A -> M B) : M B :=
  fun h =>
    match m h with
    | (Ok a, es) => let (r, es') := k a (h ++ es) in (r, es ++ es')
    | (Throw e, es) => (Throw e, es)
    | (Pending, es) => (Pending, es)
    | (OutOfFuel, es) => (OutOfFuel, es)
    end.

Declare Scope run_scope.
Delimit Scope run_scope with run.
Notation "x <- m ;; k" := (bind m (fun x => k))
  (at level 61, m at next level, right associativity) : run_scope.
Notation "m ;; k" := (bind m (fun _ => k))
  (at level 61, right associativity) : run_scope.

(** [try { m } catch (err) { handler err }] *)
Definition try_catch {A : Type} (m : M A) (handler : string -> M A) : M A :=
  fun h =>
    match m h with
    | (Throw e, es) => let (r, es') := handler e (h ++ es) in (r, es ++ es')
    | other => other
    end.

(** An awaited call: the event is recorded, then the world answers. *)
Definition await {A : Type} (e : event) (oracle : list event -> answer A) : M A :=
  fun h =>
    match oracle (h ++ [e]) with
    | Resolve a => (Ok a, [e])
    | Reject message => (Throw message, [e])
    | Never => (Pending, [e])
    end.

(** [await new Promise((resolve) => stream.on(name, resolve))]: the listener
    is set, and the run goes on when the event comes. *)
Definition listen (e : event) (fires : list event -> bool) : M unit :=
  fun h => if fires (h ++ [e]) then (Ok tt, [e]) else (Pending, [e]).

Definition emit (e : event) : M unit := fun _ => (Ok tt, [e]).

Definition context_error (args : list string) : M unit := emit (Context_error args).

(** [for (const x of xs) body] *)
Fixpoint forEach {A : Type} (xs : list A) (body : A -> M unit) : M unit :=
  match xs with
  | [] => ret tt
  | x :: xs' => (body x ;; forEach xs' body)%run
  end.

(** The outcome and the events of a run started from an empty history. *)
Definition run {A : Type} (m : M A) : outcome A * list event := m [].

(** [a > b] on numbers. *)
Definition Qgtb (a b : Q) : bool := negb (Qle_bool a b).

(** [parseFloat(p.file_size || 0)]: a missing (or zero) size counts as 0. *)
Definition parseFloat_file_size (p : photo) : Q :=
  match file_size p with
  | Some q => q
  | None => 0
  end.

(** [xs.length > 0] *)
Definition nonEmpty {A : Type} (xs : list A) : bool :=
  match xs with
  | [] => false
  | _ :: _ => true
  end.

(** ** The numbers of the chunking loop

    The chunking loop of src/main.js (lines 113-130) adds sizes and compares
    a sum with the budget, and does nothing else with them.  [arith] is the
    arithmetic it is run in. *)
Record arith : Type := mkArith {
  number : Type;
  num_zero : number;
  num_add : number -> number -> number;
  num_gt : number -> number -> bool
}.

(** The numbers of JavaScript: IEEE 754 doubles, with [NaN] and the
    infinities. *)
Definition binary64 : arith :=
  {| number := float;
     num_zero := PrimFloat.zero;
     num_add := PrimFloat.add;
     num_gt := fun a b => PrimFloat.ltb b a |}.

(** The rationals: no rounding, no [NaN]. *)
Definition exact : arith :=
  {| number := Q; num_zero := 0; num_add := Qplus; num_gt := Qgtb |}.

(** The rational a double stands for, when it is finite. *)
Definition valueOf (x : float) : option Q :=
  match Prim2SF x with
  | S754_zero _ => Some 0
  | S754_finite negative m e =>
      let magnitude :=
        if (0 <=? e)%Z then inject_Z (Z.pos m * 2 ^ e)
        else Qmake (Z.pos m) (Pos.pow 2 (Z.to_pos (- e))) in
      Some (if negative then - magnitude else magnitude)
  | S754_infinity _ => None
  | S754_nan => None
  end.

(** The loop of lines 113-130 in the arithmetic [N], over documents whose
    size [parseFloat(p.file_size || 0)] is [sizeOf]. *)
Module Chunking.

Section Loop.

Variable N : arith.
Variable document : Type.
Variable sizeOf : document -> number N.
Variable budget : number N.

(** The three variables of the loop. *)
Record chunker : Type := mkChunker {
  chunks : list (list document);
  currentChunk : list document;
  size : number N
}.

Definition chunker_init : chunker :=
  {| chunks := []; currentChunk := []; size := num_zero N |}.

(** [size + s > MAX_CHUNK_MB && currentChunk.length > 0] *)
Definition closes (st : chunker) (p : document) : bool :=
  num_gt N (num_add N (size st) (sizeOf p)) budget && nonEmpty (currentChunk st).

(** One iteration of [for (const p of allPhotos)]. *)
Definition chunkStep (st : chunker) (p : document) : chunker :=
  let s := sizeOf p in
  let st1 :=
    if closes st p
    then {| chunks := chunks st ++ [currentChunk st];
            currentChunk := [];
            size := num_zero N |}
    else st in
  {| chunks := chunks st1;
     currentChunk := currentChunk st1 ++ [p];
     size := num_add N (size st1) s |}.

(** [if (currentChunk.length > 0) chunks.push(currentChunk)] *)
Definition chunkFlush (st : chunker) : list (list document) :=
  if nonEmpty (currentChunk st)
  then chunks st ++ [currentChunk st]
  else chunks st.

Definition chunkPhotos (allPhotos : list document) : list (list document) :=
  chunkFlush (fold_left chunkStep allPhotos chunker_init).

(** The size of a group as the loop adds it up: from 0, member by member. *)
Definition chunkSize (g : list document) : number N :=
  fold_left (fun acc p => num_add N acc (sizeOf p)) g (num_zero N).

End Loop.

Arguments chunks {N document} _.
Arguments currentChunk {N document} _.
Arguments size {N document} _.
Arguments chunker_init {N document}.
Arguments closes N {document} sizeOf budget st p.
Arguments chunkStep N {document} sizeOf budget st p.
Arguments chunkFlush {N document} st.
Arguments chunkPhotos N {document} sizeOf budget allPhotos.
Arguments chunkSize N {document} sizeOf g.

End Chunking.

Module Main.

(** *** Chunking into 2GB groups (src/main.js, lines 113-130), over the
    rationals *)

Definition MAX_CHUNK_MB : Q := 2048.

(** The three variables of the chunking loop. *)
Record chunker : Type := mkChunker {
  chunks : list (list photo);
  currentChunk : list photo;
  size : Q
}.

Definition chunker_init : chunker :=
  {| chunks := []; currentChunk := []; size := 0 |}.

(** The test that closes the open chunk:
    [size + s > MAX_CHUNK_MB && currentChunk.length > 0]. *)
Definition closes (budget : Q) (st : chunker) (p : photo) : bool :=
  Qgtb (size st + parseFloat_file_size p) budget && nonEmpty (currentChunk st).

(** One iteration of [for (const p of allPhotos)]. *)
Definition chunkStep (budget : Q) (st : chunker) (p : photo) : chunker :=
  let s := parseFloat_file_size p in
  let st1 :=
    if closes budget st p
    then {| chunks := chunks st ++ [currentChunk st];
            currentChunk := [];
            size := 0 |}
    else st in
  {| chunks := chunks st1;
     currentChunk := currentChunk st1 ++ [p];
     size := size st1 + s |}.

(** [if (currentChunk.length > 0) chunks.push(currentChunk)] *)
Definition chunkFlush (st : chunker) : list (list photo) :=
  if nonEmpty (currentChunk st)
  then chunks st ++ [currentChunk st]
  else chunks st.

(** The whole chunking block, for a budget [budget]. *)
Definition chunkPhotos (budget : Q) (allPhotos : list photo) : list (list photo) :=
  chunkFlush (fold_left (chunkStep budget) allPhotos chunker_init).

(** The accumulated size of a group, summed the way the loop sums it. *)
Definition chunkSize (g : list photo) : Q :=
  fold_left (fun acc p => acc + parseFloat_file_size p) g 0.

(** *** The response of the function

    [{statusCode, error}] or [{statusCode, message, totalChunks, downloadIds}]. *)

Inductive response : Type :=
| json_error (statusCode : nat) (error : string)
| json_success (statusCode : nat) (message : string) (totalChunks : nat)
    (downloadIds : list string).

Definition statusCode_of (r : response) : nat :=
  match r with
  | json_error c _ => c
  | json_success c _ _ _ => c
  end.

(** *** Archive names (lines 141-144) *)

Definition zipFilename (eventDoc : eventDocument) (total i : nat) : string :=
  if (1 <? total)%nat
  then (orElse (event_name eventDoc) "photos" ++ "_part_" ++ decimal (i + 1) ++ ".zip")%string
  else (orElse (event_name eventDoc) "photos" ++ ".zip")%string.

(** The access grant of the upload (lines 214-217). *)
Definition uploadPermissions (currentUserId : string) : list permission :=
  [ Permission_read (Role_user currentUserId);
    Permission_delete (Role_user currentUserId) ].

(** The data of a download record (lines 229-238). *)
Definition downloadData (currentUserId eventId uploadedFileId zipFilename : string)
    (zipMB : Q) (photo_count chunk_index total_chunks : nat) : list (string * field) :=
  [ ("user_id", FString currentUserId);
    ("event_id", FString eventId);
    ("file_id", FString uploadedFileId);
    ("file_name", FString zipFilename);
    ("size_mb", FNumber zipMB);
    ("photo_count", FCount photo_count);
    ("chunk_index", FCount chunk_index);
    ("total_chunks", FCount total_chunks) ].

Section Run.

Variable w : world.
Variable env : environment.

Definition batchSize : nat := 100.

(** The paging loop (lines 87-102).  [fuel] bounds the number of pages. *)
Fixpoint fetchAllPhotos (fuel : nat) (eventId : string) (allPhotos : list photo)
    (offset : nat) : M (list photo) :=
  match fuel with
  | O => fun _ => (OutOfFuel, [])
  | S fuel' =>
      (documents <- await (Databases_listDocuments (APPWRITE_DATABASE_ID env)
                             (APPWRITE_PHOTO_COLLECTION_ID env)
                             [Query_equal "event_id" eventId;
                              Query_limit batchSize;
                              Query_offset offset])
                          (on_listDocuments w) ;;
       if (List.length documents =? 0)%nat then ret allPhotos
       else
         let allPhotos' := allPhotos ++ documents in
         let offset' := (offset + List.length documents)%nat in
         if (List.length documents <? batchSize)%nat then ret allPhotos'
         else fetchAllPhotos fuel' eventId allPhotos' offset')%run
  end.

(** The body of the member loop, with its try/catch (lines 167-180).  A
    rejected download stands for any failure up to the conversion of the
    answer into a [Buffer]. *)
Definition addPhoto (p : photo) : M unit :=
  try_catch
    (let fileId := file_id p in
     let type := orElse (file_type p) "jpg" in
     let filename := ("photo_" ++ dollar_id p ++ "." ++ type)%string in
     buffer <- await (Storage_getFileDownload (APPWRITE_BUCKET_ID env) fileId)
                     (on_getFileDownload w) ;;
     await (Archive_append buffer filename) (on_append w))%run
    (fun message =>
       context_error [("❌ Failed photo " ++ dollar_id p ++ ": " ++ message)%string]).

(** One iteration of the loop over the chunks (lines 140-242); the result is
    the id of the download record.  The bytes collected from the archive are
    those the archiver answers [finalize] with; the handler set on its
    [error] event only throws the error again. *)
Definition processChunk (eventDoc : eventDocument) (currentUserId eventId : string)
    (total i : nat) (chunk : list photo) : M string :=
  let zipFilename := zipFilename eventDoc total i in
  (emit Archiver_zip ;;
   forEach chunk addPhoto ;;
   zipBuffer <- await Archive_finalize (on_finalize w) ;;
   listen ZipStream_on_finish (on_finish w) ;;
   let zipMB :=
     toFixed2 (inject_Z (Z.of_nat (List.length zipBuffer)) / 1024 / 1024) in
   now <- (fun h => (Ok (Date_now w h), [])) ;;
   let downloadFileId := ("download_" ++ decimalN now ++ "_" ++ decimal i)%string in
   let fileObject :=
     {| fo_name := zipFilename;
        fo_type := "application/zip";
        fo_size := List.length zipBuffer;
        fo_bytes := zipBuffer |} in
   uploadedFile <- await (Storage_createFile (APPWRITE_DOWNLOAD_BUCKET_ID env)
                            downloadFileId fileObject
                            (uploadPermissions currentUserId))
                         (on_createFile w) ;;
   downloadDoc <- await (Databases_createDocument (APPWRITE_DATABASE_ID env)
                           (APPWRITE_DOWNLOAD_COLLECTION_ID env) "unique()"
                           (downloadData currentUserId eventId uploadedFile zipFilename
                              zipMB (List.length chunk) (i + 1) total)
                           None)
                        (on_createDocument w) ;;
   ret downloadDoc)%run.

(** [for (let i = 0; i < chunks.length; i++)], from index [i] on. *)
Fixpoint processChunks (eventDoc : eventDocument) (currentUserId eventId : string)
    (total i : nat) (rest : list (list photo)) (createdDownloads : list string)
    : M (list string) :=
  match rest with
  | [] => ret createdDownloads
  | chunk :: rest' =>
      (downloadDoc <- processChunk eventDoc currentUserId eventId total i chunk ;;
       processChunks eventDoc currentUserId eventId total (S i) rest'
         (createdDownloads ++ [downloadDoc]))%run
  end.

(** The block guarded by the outer try (lines 59-251). *)
Definition prepare (fuel : nat) (eventId : string) (currentUserId : option string)
    : M response :=
  (eventDoc <- await (Databases_getDocument (APPWRITE_DATABASE_ID env)
                        (APPWRITE_EVENT_COLLECTION_ID env) eventId)
                     (on_getDocument w) ;;
   let eventUserId := trim (String_or_empty (user_id eventDoc)) in
   if strictNe eventUserId currentUserId
   then
     (context_error [("❌ Ownership mismatch: " ++ eventUserId ++ " ≠ "
                       ++ match currentUserId with
                          | Some c => c
                          | None => "undefined"
                          end)%string] ;;
      ret (json_error 403 "Forbidden – you do not own this event"))
   else
     (* past the check, currentUserId is the string eventUserId *)
     let currentUserId := eventUserId in
     allPhotos <- fetchAllPhotos fuel eventId [] 0 ;;
     if (List.length allPhotos =? 0)%nat
     then ret (json_error 404 "No photos found")
     else
       let chunks := chunkPhotos MAX_CHUNK_MB allPhotos in
       createdDownloads <- processChunks eventDoc currentUserId eventId
                             (List.length chunks) 0 chunks [] ;;
       ret (json_success 200 "Download prepared successfully"
              (List.length chunks) createdDownloads))%run.

(** The exported function. *)
Definition prepareDownload (fuel : nat) (req : request) : M response :=
  match bodyRaw req with
  | Body_invalid message =>
      (context_error [("❌ Invalid JSON in request body: " ++ message)%string] ;;
       ret (json_error 400 "Invalid JSON in request body"))%run
  | Body_null =>
      throw "TypeError: Cannot destructure property 'eventId' of 'payload' as it is null."
  | Body_empty =>
      (context_error ["❌ Missing eventId in request body"] ;;
       ret (json_error 400 "Missing eventId"))%run
  | Body_object eventId =>
      if falsy eventId
      then
        (context_error ["❌ Missing eventId in request body"] ;;
         ret (json_error 400 "Missing eventId"))%run
      else
        let eventId := orElse eventId "" in
        let currentUserId := x_appwrite_user_id req in
        try_catch (prepare fuel eventId currentUserId)
          (fun message =>
             (context_error ["❌ Error preparing download:"; message] ;;
              ret (json_error 500 message))%run)
  end.

End Run.

End Main.

(** ** The streaming revision (src/unnamed/part_000, second listing)

    Here the archives are cut while the photos are fetched: a photo counts
    towards the open archive only once it has been appended. *)

(** [s.replace(pat, rep)]: the first occurrence only. *)
Fixpoint replace (pat rep s : string) : string :=
  if String.prefix pat s
  then (rep ++ String.substring (String.length pat)
                 (String.length s - String.length pat) s)%string
  else match s with
       | EmptyString => EmptyString
       | String c s' => String c (replace pat rep s')
       end.

(** [s.split(".").pop()], with the segment read so far in [acc]. *)
Fixpoint split_pop (acc s : string) : string :=
  match s with
  | EmptyString => acc
  | String c s' =>
      if Ascii.eqb c "."%char then split_pop EmptyString s'
      else split_pop (acc ++ String c EmptyString)%string s'
  end.

(** The class [a-zA-Z0-9_-]. *)
Definition isSafeChar (c : ascii) : bool :=
  let n := nat_of_ascii c in
  ((97 <=? n) && (n <=? 122) || (65 <=? n) && (n <=? 90)
   || (48 <=? n) && (n <=? 57) || (n =? 95) || (n =? 45))%nat.

(** [s.replace(/[^a-zA-Z0-9_-]/g, "_")] *)
Fixpoint sanitize (s : string) : string :=
  match s with
  | EmptyString => EmptyString
  | String c s' => String (if isSafeChar c then c else "_"%char) (sanitize s')
  end.

Module Streaming.

Definition MAX_MB : Q := 2000.
Definition MIN_FILES_PER_ZIP : nat := 1.

(** An element of [createdDownloads] and one of [failedPhotos]. *)
Record download : Type := mkDownload {
  dl_id : string;
  dl_fileId : string;
  dl_filename : string;
  dl_sizeMB : Q;
  dl_photoCount : nat
}.

Record failure : Type := mkFailure {
  failure_id : string;
  failure_error : string
}.

(** The variables shared by [startZip], [finalizeAndUploadZip] and the loop. *)
Record vars : Type := mkVars {
  currentZipSizeMB : Q;
  currentZipFileCount : nat;
  zipIndex : nat;
  totalProcessed : nat;
  createdDownloads : list download;
  failedPhotos : list failure
}.

Definition vars_init : vars :=
  {| currentZipSizeMB := 0; currentZipFileCount := 0; zipIndex := 1;
     totalProcessed := 0; createdDownloads := []; failedPhotos := [] |}.

(** Computations over those variables: an error thrown half-way leaves the
    assignments made before it in place. *)
Definition SM (A : Type) : Type := vars -> list event -> outcome A * vars * list event.

Definition Sret {A : Type} (a : A) : SM A := fun v _ => (Ok a, v, []).

Definition Sbind {A B : Type} (m : SM A) (k : A -> SM B) : SM B :=
  fun v h =>
    match m v h with
    | (Ok a, v', es) => let '(r, v'', es') := k a v' (h ++ es) in (r, v'', es ++ es')
    | (Throw e, v', es) => (Throw e, v', es)
    | (Pending, v', es) => (Pending, v', es)
    | (OutOfFuel, v', es) => (OutOfFuel, v', es)
    end.

Declare Scope vars_scope.
Delimit Scope vars_scope with vars.
Notation "x <- m ;; k" := (Sbind m (fun x => k))
  (at level 61, m at next level, right associativity) : vars_scope.
Notation "m ;; k" := (Sbind m (fun _ => k))
  (at level 61, right associativity) : vars_scope.

Definition lift {A : Type} (m : M A) : SM A :=
  fun v h => let (r, es) := m h in (r, v, es).

Definition get : SM vars := fun v _ => (Ok v, v, []).

Definition modify (f : vars -> vars) : SM unit := fun v _ => (Ok tt, f v, []).

Definition Stry_catch {A : Type} (m : SM A) (handler : string -> SM A) : SM A :=
  fun v h =>
    match m v h with
    | (Throw e, v', es) =>
        let '(r, v'', es') := handler e v' (h ++ es) in (r, v'', es ++ es')
    | other => other
    end.

Fixpoint SforEach {A : Type} (xs : list A) (body : A -> SM unit) : SM unit :=
  match xs with
  | [] => Sret tt
  | x :: xs' => (body x ;; SforEach xs' body)%vars
  end.

(** Running with the variables initialised, keeping the final values. *)
Definition withVars {A : Type} (m : SM A) (v : vars) : M (A * vars) :=
  fun h =>
    match m v h with
    | (Ok a, v', es) => (Ok (a, v'), es)
    | (Throw e, _, es) => (Throw e, es)
    | (Pending, _, es) => (Pending, es)
    | (OutOfFuel, _, es) => (OutOfFuel, es)
    end.

(** *** The response *)

Record summary : Type := mkSummary {
  totalPhotos : nat;
  processedPhotos : nat;
  failedPhotosCount : nat;      (* summary.failedPhotos *)
  totalChunks : nat;
  totalSizeMB : Q
}.

Inductive response : Type :=
| json_error (statusCode : nat) (error : string)
| json_internal_error (statusCode : nat) (error message : string)
| json_success (statusCode : nat) (message : string) (summary : summary)
    (downloads : list download) (failures : option (list failure)).

Definition statusCode_of (r : response) : nat :=
  match r with
  | json_error c _ => c
  | json_internal_error c _ _ => c
  | json_success c _ _ _ _ => c
  end.

(** *** Archive names (lines 329-335) *)

Definition eventName (eventDoc : eventDocument) : string :=
  String.substring 0 50 (sanitize (orElse (event_name eventDoc) "photos")).

Definition zipFilename (eventDoc : eventDocument) (zipIndex : nat) : string :=
  if (1 <? zipIndex)%nat
  then (eventName eventDoc ++ "_part" ++ decimal zipIndex ++ ".zip")%string
  else (eventName eventDoc ++ ".zip")%string.

(** The access grant of the upload and of the record (lines 358-362, 383-387). *)
Definition ownerGrant (currentUserId : string) : list permission :=
  [ Permission_read (Role_user currentUserId);
    Permission_update (Role_user currentUserId);
    Permission_delete (Role_user currentUserId) ].

(** The data of a download record (lines 372-382). *)
Definition downloadData (currentUserId eventId uploadedId zipFilename : string)
    (zipSizeMB : Q) (currentZipFileCount zipIndex : nat) (created_at : N)
    : list (string * field) :=
  [ ("user_id", FString currentUserId);
    ("event_id", FString eventId);
    ("file_id", FString uploadedId);
    ("file_name", FString zipFilename);
    ("size_mb", FNumber zipSizeMB);
    ("photo_count", FCount currentZipFileCount);
    ("chunk_index", FCount zipIndex);
    ("status", FString "ready");
    ("created_at", FDate created_at) ].

(** The name of a photo inside the archive (lines 436-440). *)
Definition entryName (p : photo) : string :=
  let ext :=
    orElse (option_map (replace "image/" "") (file_type p))
      (orElse (option_map (split_pop "") (file_name p)) "jpg") in
  orElse (file_name p) ("photo_" ++ dollar_id p ++ "." ++ ext)%string.

Section Run.

Variable w : world.
Variable env : environment.

Definition BATCH_SIZE : nat := 100.

(** The paging loop (lines 236-254). *)
Fixpoint fetchAllPhotos (fuel : nat) (eventId : string) (allPhotos : list photo)
    (offset : nat) : M (list photo) :=
  match fuel with
  | O => fun _ => (OutOfFuel, [])
  | S fuel' =>
      (documents <- await (Databases_listDocuments (APPWRITE_DATABASE_ID env)
                             (APPWRITE_PHOTO_COLLECTION_ID env)
                             [Query_equal "event_id" eventId;
                              Query_limit BATCH_SIZE;
                              Query_offset offset;
                              Query_select ["$id"; "file_id"; "file_size";
                                            "file_type"; "file_name"]])
                          (on_listDocuments w) ;;
       if nonEmpty documents
       then
         let allPhotos' := allPhotos ++ documents in
         let offset' := (offset + List.length documents)%nat in
         if (100 * 100 <? offset')%nat then ret allPhotos'
         else fetchAllPhotos fuel' eventId allPhotos' offset'
       else ret allPhotos)%run
  end.

(** A call on the archive that [startZip] made: when the call fails and the
    archiver announces it with an [error] event, the handler set at line
    300 writes its line before the error is thrown. *)
Definition archiverCall {A : Type} (e : event) (oracle : list event -> answer A) : M A :=
  fun h =>
    match oracle (h ++ [e]) with
    | Resolve a => (Ok a, [e])
    | Reject message =>
        if emits_error w (h ++ [e])
        then (Throw message, [e; Context_error [("❌ Archive error: " ++ message)%string]])
        else (Throw message, [e])
    | Never => (Pending, [e])
    end.

(** [startZip] (lines 282-315) *)
Definition startZip : SM unit :=
  (lift (emit Archiver_zip) ;;
   modify (fun v =>
     {| currentZipSizeMB := 0; currentZipFileCount := 0;
        zipIndex := zipIndex v; totalProcessed := totalProcessed v;
        createdDownloads := createdDownloads v; failedPhotos := failedPhotos v |}))%vars.

(** [finalizeAndUploadZip] (lines 320-400) *)
Definition finalizeAndUploadZip (eventDoc : eventDocument)
    (currentUserId eventId : string) : SM unit :=
  (zipBuffer <- lift (archiverCall Archive_finalize (on_finalize w)) ;;
   lift (listen ZipStream_on_finish (on_finish w)) ;;
   let zipSizeMB :=
     toFixed2 (inject_Z (Z.of_nat (List.length zipBuffer)) / 1024 / 1024) in
   v <- get ;;
   let zipFilename := zipFilename eventDoc (zipIndex v) in
   now <- lift (fun h => (Ok (Date_now w h), [])) ;;
   let fileId :=
     ("dl_" ++ eventId ++ "_" ++ decimalN now ++ "_" ++ decimal (zipIndex v))%string in
   let fileObj :=
     {| fo_name := zipFilename;
        fo_type := "application/zip";
        fo_size := List.length zipBuffer;
        fo_bytes := zipBuffer |} in
   uploaded <- lift (await (Storage_createFile (APPWRITE_DOWNLOAD_BUCKET_ID env)
                              fileId fileObj (ownerGrant currentUserId))
                           (on_createFile w)) ;;
   created_at <- lift (fun h => (Ok (Date_now w h), [])) ;;
   dlDoc <- lift (await (Databases_createDocument (APPWRITE_DATABASE_ID env)
                           (APPWRITE_DOWNLOAD_COLLECTION_ID env) "unique()"
                           (downloadData currentUserId eventId uploaded zipFilename
                              zipSizeMB (currentZipFileCount v) (zipIndex v) created_at)
                           (Some (ownerGrant currentUserId)))
                        (on_createDocument w)) ;;
   modify (fun v =>
     {| currentZipSizeMB := currentZipSizeMB v;
        currentZipFileCount := currentZipFileCount v;
        zipIndex := zipIndex v + 1;
        totalProcessed := totalProcessed v;
        createdDownloads :=
          createdDownloads v ++
            [ {| dl_id := dlDoc; dl_fileId := uploaded; dl_filename := zipFilename;
                 dl_sizeMB := zipSizeMB; dl_photoCount := currentZipFileCount v |} ];
        failedPhotos := failedPhotos v |}))%vars.

(** The body of the loop over the photos (lines 413-458).  The progress line
    of every fiftieth photo and the [date] option of the entry are left out. *)
Definition processPhoto (eventDoc : eventDocument) (currentUserId eventId : string)
    (p : photo) : SM unit :=
  (modify (fun v =>
     {| currentZipSizeMB := currentZipSizeMB v;
        currentZipFileCount := currentZipFileCount v;
        zipIndex := zipIndex v;
        totalProcessed := totalProcessed v + 1;
        createdDownloads := createdDownloads v;
        failedPhotos := failedPhotos v |}) ;;
   Stry_catch
     (let fileId := file_id p in
      let sizeMB := parseFloat_file_size p in
      v <- get ;;
      (if Qgtb (currentZipSizeMB v + sizeMB) MAX_MB
          && (MIN_FILES_PER_ZIP <=? currentZipFileCount v)%nat
       then (finalizeAndUploadZip eventDoc currentUserId eventId ;; startZip)
       else Sret tt) ;;
      buffer <- lift (await (Storage_getFileDownload (APPWRITE_BUCKET_ID env) fileId)
                            (on_getFileDownload w)) ;;
      lift (archiverCall (Archive_append buffer (entryName p)) (on_append w)) ;;
      modify (fun v =>
        {| currentZipSizeMB := currentZipSizeMB v + sizeMB;
           currentZipFileCount := currentZipFileCount v + 1;
           zipIndex := zipIndex v;
           totalProcessed := totalProcessed v;
           createdDownloads := createdDownloads v;
           failedPhotos := failedPhotos v |}))
     (fun message =>
        lift (context_error
                [("❌ Failed to process photo " ++ dollar_id p ++ ": " ++ message)%string]) ;;
        modify (fun v =>
          {| currentZipSizeMB := currentZipSizeMB v;
             currentZipFileCount := currentZipFileCount v;
             zipIndex := zipIndex v;
             totalProcessed := totalProcessed v;
             createdDownloads := createdDownloads v;
             failedPhotos :=
               failedPhotos v ++ [ {| failure_id := dollar_id p;
                                      failure_error := message |} ] |})))%vars.

(** The final response (lines 469-488). *)
Definition responseData (allPhotos : list photo) (v : vars) : response :=
  let failed := List.length (failedPhotos v) in
  json_success 200
    (if (0 <? failed)%nat
     then ("Download prepared successfully" ++ " (" ++ decimal failed ++ " photos failed)")%string
     else "Download prepared successfully")
    {| totalPhotos := List.length allPhotos;
       processedPhotos := totalProcessed v - failed;
       failedPhotosCount := failed;
       totalChunks := List.length (createdDownloads v);
       totalSizeMB :=
         toFixed2 (fold_left (fun sum dl => sum + dl_sizeMB dl) (createdDownloads v) 0) |}
    (createdDownloads v)
    (if (0 <? failed)%nat then Some (failedPhotos v) else None).

(** From the first [startZip] to the last [finalizeAndUploadZip]
    (lines 405-464). *)
Definition archiveAll (eventDoc : eventDocument) (currentUserId eventId : string)
    (allPhotos : list photo) : SM unit :=
  (startZip ;;
   SforEach allPhotos (processPhoto eventDoc currentUserId eventId) ;;
   v <- get ;;
   if (0 <? currentZipFileCount v)%nat
   then finalizeAndUploadZip eventDoc currentUserId eventId
   else Sret tt)%vars.

(** The block guarded by the outer try (lines 215-488). *)
Definition prepare (fuel : nat) (eventId currentUserId : string) : M response :=
  (eventDoc <- await (Databases_getDocument (APPWRITE_DATABASE_ID env)
                        (APPWRITE_EVENT_COLLECTION_ID env) eventId)
                     (on_getDocument w) ;;
   if negb (String.eqb (String_of (user_id eventDoc)) currentUserId)
   then ret (json_error 403 "Forbidden — you do not own this event.")
   else
     allPhotos <- fetchAllPhotos fuel eventId [] 0 ;;
     if (List.length allPhotos =? 0)%nat
     then ret (json_error 404 "No photos found for this event")
     else
       r <- withVars (archiveAll eventDoc currentUserId eventId allPhotos) vars_init ;;
       ret (responseData allPhotos (snd r)))%run.

(** The exported function.  Of the outer catch, the second error line (the
    stack trace) and the [details] field of the response are left out. *)
Definition prepareDownload (fuel : nat) (req : request) : M response :=
  match bodyRaw req with
  | Body_invalid _ => ret (json_error 400 "Invalid JSON")
  | Body_null =>
      throw "TypeError: Cannot destructure property 'eventId' of 'payload' as it is null."
  | Body_empty => ret (json_error 400 "Missing eventId")
  | Body_object eventId =>
      if falsy eventId then ret (json_error 400 "Missing eventId")
      else
        let eventId := orElse eventId "" in
        if falsy (x_appwrite_user_id req)
        then ret (json_error 401 "Unauthorized - User not logged in")
        else
          let currentUserId := orElse (x_appwrite_user_id req) "" in
          try_catch (prepare fuel eventId currentUserId)
            (fun message =>
               (context_error [("❌ Critical error: " ++ message)%string] ;;
                ret (json_internal_error 500 "Internal server error" message))%run)
  end.

End Run.

End Streaming.

(** ** The direct download (src/unnamed/part_000, first listing)

    [downloadPhotos] archives the photos named in the request into one ZIP
    piped to the response.  Besides the calls of the other functions it sends
    the response headers, pipes the archive into the response and lists the
    photo documents by id. *)

(** [xs.slice(i, j)] for [i <= j]. *)
Definition slice {A : Type} (i j : nat) (xs : list A) : list A :=
  firstn (j - i) (skipn i xs).

(** The double quote. *)
Definition dquote : string := String (ascii_of_nat 34) EmptyString.

Module DownloadPhotos.

Inductive query : Type :=
| Query_equalAny (attribute : string) (values : list string)
| Query_equalTo (attribute value : string).

(** The calls of a run: those it shares with the other functions, and its
    own. *)
Inductive call : Type :=
| Shared (e : event)
| Res_send (body : string) (statusCode : nat) (headers : list (string * string))
| Archive_pipe
| Databases_listDocuments (databaseId collectionId : string) (queries : list query).

Record world : Type := mkWorld {
  on_getDocument : list call -> answer eventDocument;
  on_pipe : list call -> answer unit;
  on_listDocuments : list call -> answer (list photo);
  on_getFileDownload : list call -> answer Buffer;
  on_append : list call -> answer unit;
  on_finalize : list call -> answer unit;
  (* whether the archiver announces the failure of the call with an 'error'
     event, whose handler runs before the error is thrown *)
  emits_error : list call -> bool
}.

(** [context.req]: the body as [JSON.parse] sees it ([photoIds] when it is
    an array, of strings; [chunkIndex] when it is there, a number), and the
    identity header. *)
Inductive body : Type :=
| Body_empty
| Body_invalid (message : string)
| Body_null
| Body_object (photoIds : option (list string)) (chunkIndex : option nat)
    (eventId : option string).

Record request : Type := mkRequest {
  bodyRaw : body;
  x_appwrite_user_id : option string
}.

(** What the function returns: a JSON response, or nothing. *)
Inductive response : Type :=
| json_error (statusCode : nat) (error : string).

Definition M (A : Type) : Type := list call -> outcome A * list call.

Definition ret {A : Type} (a : A) : M A := fun _ => (Ok a, []).

Definition throw {A : Type} (message : string) : M A := fun _ => (Throw message, []).

Definition bind {A B : Type} (m : M A) (k : A -> M B) : M B :=
  fun h =>
    match m h with
    | (Ok a, es) => let (r, es') := k a (h ++ es) in (r, es ++ es')
    | (Throw e, es) => (Throw e, es)
    | (Pending, es) => (Pending, es)
    | (OutOfFuel, es) => (OutOfFuel, es)
    end.

Declare Scope dl_scope.
Delimit Scope dl_scope with dl.
Notation "x <- m ;; k" := (bind m (fun x => k))
  (at level 61, m at next level, right associativity) : dl_scope.
Notation "m ;; k" := (bind m (fun _ => k))
  (at level 61, right associativity) : dl_scope.

Definition try_catch {A : Type} (m : M A) (handler : string -> M A) : M A :=
  fun h =>
    match m h with
    | (Throw e, es) => let (r, es') := handler e (h ++ es) in (r, es ++ es')
    | other => other
    end.

Definition await {A : Type} (c : call) (oracle : list call -> answer A) : M A :=
  fun h =>
    match oracle (h ++ [c]) with
    | Resolve a => (Ok a, [c])
    | Reject message => (Throw message, [c])
    | Never => (Pending, [c])
    end.

Definition emit (c : call) : M unit := fun _ => (Ok tt, [c]).

Definition context_error (args : list string) : M unit :=
  emit (Shared (Context_error args)).

Fixpoint forEach {A : Type} (xs : list A) (body : A -> M unit) : M unit :=
  match xs with
  | [] => ret tt
  | x :: xs' => (body x ;; forEach xs' body)%dl
  end.

Definition run {A : Type} (m : M A) : outcome A * list call := m [].

(** The name of the archive and the headers sent for it (lines 73-80). *)
Definition zipFilename (chunkIndex : nat) : string :=
  ("photos_part_" ++ decimal (chunkIndex + 1) ++ ".zip")%string.

Definition headers (zipFilename : string) : list (string * string) :=
  [ ("Content-Type", "application/zip");
    ("Content-Disposition",
     ("attachment; filename=" ++ dquote ++ zipFilename ++ dquote)%string);
    ("Cache-Control", "no-cache") ].

Section Run.

Variable w : world.
Variable env : environment.

Definition batchSize : nat := 100.

(** The loop over the batches of ids (lines 108-119), from index [i] on.
    Every turn moves [i] forward, so [fuel] can be the number of ids. *)
Fixpoint fetchBatches (fuel : nat) (photoIds : list string) (eventId : string)
    (i : nat) (photoDocuments : list photo) : M (list photo) :=
  if (i <? List.length photoIds)%nat
  then
    match fuel with
    | O => fun _ => (OutOfFuel, [])
    | S fuel' =>
        let batch := slice i (i + batchSize) photoIds in
        (documents <- await (Databases_listDocuments (APPWRITE_DATABASE_ID env)
                               (APPWRITE_PHOTO_COLLECTION_ID env)
                               [Query_equalAny "$id" batch;
                                Query_equalTo "event_id" eventId])
                            (on_listDocuments w) ;;
         fetchBatches fuel' photoIds eventId (i + batchSize)
           (photoDocuments ++ documents))%dl
    end
  else ret photoDocuments.

(** A call on the archive: when the call fails and the archiver announces it
    with an [error] event, the handler set at line 97 writes its line before
    the error is thrown. *)
Definition archiverCall {A : Type} (c : call) (oracle : list call -> answer A) : M A :=
  fun h =>
    match oracle (h ++ [c]) with
    | Resolve a => (Ok a, [c])
    | Reject message =>
        if emits_error w (h ++ [c])
        then (Throw message, [c; Shared (Context_error ["❌ Archive error:"; message])])
        else (Throw message, [c])
    | Never => (Pending, [c])
    end.

(** The body of the loop over the photo documents, with its try/catch
    (lines 127-153). *)
Definition addPhoto (photoDoc : photo) : M unit :=
  try_catch
    (let fileId := file_id photoDoc in
     let fileType := orElse (file_type photoDoc) "jpg" in
     let photoId := dollar_id photoDoc in
     let filename := ("photo_" ++ photoId ++ "." ++ fileType)%string in
     fileBuffer <- await (Shared (Storage_getFileDownload (APPWRITE_BUCKET_ID env) fileId))
                         (on_getFileDownload w) ;;
     archiverCall (Shared (Archive_append fileBuffer filename)) (on_append w))%dl
    (fun message =>
       context_error
         [("❌ Failed to add photo " ++ dollar_id photoDoc ++ ": " ++ message)%string]).

(** The block guarded by the outer try (lines 54-162); it ends without
    returning a response. *)
Definition download (photoIds : list string) (chunkIndex : nat) (eventId : string)
    (currentUserId : option string) : M (option response) :=
  (eventDoc <- await (Shared (Databases_getDocument (APPWRITE_DATABASE_ID env)
                                (APPWRITE_EVENT_COLLECTION_ID env) eventId))
                     (on_getDocument w) ;;
   let eventUserId := trim (String_or_empty (user_id eventDoc)) in
   if strictNe eventUserId currentUserId
   then
     (context_error [("❌ Ownership mismatch: event.user_id=" ++ eventUserId ++ ", user="
                       ++ match currentUserId with
                          | Some c => c
                          | None => "undefined"
                          end)%string] ;;
      ret (Some (json_error 403 "Forbidden – you do not own this event")))
   else
     let zipFilename := zipFilename chunkIndex in
     emit (Res_send "" 200 (headers zipFilename)) ;;
     emit (Shared Archiver_zip) ;;
     await Archive_pipe (on_pipe w) ;;
     photoDocuments <- fetchBatches (List.length photoIds) photoIds eventId 0 [] ;;
     forEach photoDocuments addPhoto ;;
     archiverCall (Shared Archive_finalize) (on_finalize w) ;;
     ret None)%dl.

(** The exported function.  Of the outer catch, the second error line (the
    stack trace) is left out. *)
Definition downloadPhotos (req : request) : M (option response) :=
  let missingPhotoIds :=
    (context_error ["❌ Missing or invalid photoIds in request body"] ;;
     ret (Some (json_error 400 "Missing or invalid photoIds")))%dl in
  match bodyRaw req with
  | Body_invalid message =>
      (context_error [("❌ Invalid JSON in request body: " ++ message)%string] ;;
       ret (Some (json_error 400 "Invalid JSON in request body")))%dl
  | Body_null =>
      throw "TypeError: Cannot destructure property 'photoIds' of 'payload' as it is null."
  | Body_empty => missingPhotoIds
  | Body_object None _ _ => missingPhotoIds
  | Body_object (Some []) _ _ => missingPhotoIds
  | Body_object (Some photoIds) chunkIndex eventId =>
      if falsy eventId
      then
        (context_error ["❌ Missing eventId in request body"] ;;
         ret (Some (json_error 400 "Missing eventId")))%dl
      else
        let chunkIndex := match chunkIndex with Some n => n | None => 0%nat end in
        let eventId := orElse eventId "" in
        let currentUserId := x_appwrite_user_id req in
        try_catch (download photoIds chunkIndex eventId currentUserId)
          (fun message =>
             (context_error [("❌ Error creating ZIP: " ++ message)%string] ;;
              ret (Some (json_error 500 message)))%dl)
  end.

End Run.

End DownloadPhotos.

(** ** Example data *)

Definition ph (id : string) (mb : Q) : photo :=
  {| dollar_id := id; file_id := ("f_" ++ id)%string; file_type := None;
     file_name := None; file_size := Some mb |}.

Definition exampleEnv : environment :=
  {| APPWRITE_DATABASE_ID := "db";
     APPWRITE_PHOTO_COLLECTION_ID := "photos";
     APPWRITE_EVENT_COLLECTION_ID := "events";
     APPWRITE_DOWNLOAD_COLLECTION_ID := "downloads";
     APPWRITE_BUCKET_ID := "photo-bucket";
     APPWRITE_DOWNLOAD_BUCKET_ID := "download-bucket" |}.

(** The offset asked for by the last call of a history. *)
Definition lastOffset (h : list event) : nat :=
  match last h Archiver_zip with
  | Databases_listDocuments _ _ qs =>
      fold_left (fun acc q => match q with Query_offset n => n | _ => acc end) qs 0%nat
  | _ => 0%nat
  end.

(** The file asked for by the last call of a history. *)
Definition lastFileId (h : list event) : string :=
  match last h Archiver_zip with
  | Storage_getFileDownload _ fileId => fileId
  | _ => ""
  end.

(** The bytes the example archiver answers with. *)
Definition exampleZip : Buffer := [Byte.x50; Byte.x4b; Byte.x05; Byte.x06].

Definition countUploads (h : list event) : nat :=
  List.length
    (filter (fun e => match e with Storage_createFile _ _ _ _ => true | _ => false end) h).

Definition countRecords (h : list event) : nat :=
  List.length
    (filter (fun e => match e with
                      | Databases_createDocument _ _ _ _ _ => true
                      | _ => false
                      end) h).

(** A world holding one event, owned by [owner] and named [name], with the
    photos [photos]; the download of the files chosen by [broken] fails, and
    every other call succeeds.  The stream an archive is piped into has
    finished by the time the function listens for it, as it has under
    Node.js. *)
Definition exampleWorld (owner : string) (name : option string) (photos : list photo)
    (broken : string -> bool) : world :=
  {| on_getDocument := fun _ =>
       Resolve {| user_id := JsString owner; event_name := name |};
     on_listDocuments := fun h => Resolve (firstn 100 (skipn (lastOffset h) photos));
     on_createDocument := fun h => Resolve ("doc_" ++ decimal (countRecords h))%string;
     on_getFileDownload := fun h =>
       if broken (lastFileId h) then Reject "File not found"
       else Resolve [Byte.x01; Byte.x02; Byte.x03];
     on_createFile := fun h => Resolve ("zip_" ++ decimal (countUploads h))%string;
     on_append := fun _ => Resolve tt;
     on_finalize := fun _ => Resolve exampleZip;
     emits_error := fun _ => false;
     on_finish := fun _ => false;
     Date_now := fun _ => 1700000000000%N |}.

Definition exampleRequest (caller : option string) : request :=
  {| bodyRaw := Body_object (Some "event-1"); x_appwrite_user_id := caller |}.

(** A world whose photo collection never runs dry. *)
Definition endlessWorld : world :=
  {| on_getDocument := fun _ =>
       Resolve {| user_id := JsString "alice"; event_name := None |};
     on_listDocuments := fun _ => Resolve (repeat (ph "1" 1) 100);
     on_createDocument := fun _ => Resolve "doc";
     on_getFileDownload := fun _ => Resolve [Byte.x01];
     on_createFile := fun _ => Resolve "zip";
     on_append := fun _ => Resolve tt;
     on_finalize := fun _ => Resolve exampleZip;
     emits_error := fun _ => false;
     on_finish := fun _ => false;
     Date_now := fun _ => 1700000000000%N |}.

(** The example world without the event asked for. *)
Definition unknownEventWorld : world :=
  {| on_getDocument := fun _ =>
       Reject "Document with the requested ID could not be found.";
     on_listDocuments := fun _ => Resolve [];
     on_createDocument := fun _ => Resolve "doc";
     on_getFileDownload := fun _ => Resolve [Byte.x01];
     on_createFile := fun _ => Resolve "zip";
     on_append := fun _ => Resolve tt;
     on_finalize := fun _ => Resolve exampleZip;
     emits_error := fun _ => false;
     on_finish := fun _ => false;
     Date_now := fun _ => 1700000000000%N |}.

Definition aliceDoc : eventDocument :=
  {| user_id := JsString "alice"; event_name := None |}.

Definition threePhotos : list photo := [ph "1" 1000; ph "2" 1200; ph "3" 100].

(** The example world with an archiver that fails to finalize. *)
Definition brokenArchiverWorld (owner : string) (photos : list photo) : world :=
  {| on_getDocument := on_getDocument (exampleWorld owner None photos (fun _ => false));
     on_listDocuments := on_listDocuments (exampleWorld owner None photos (fun _ => false));
     on_createDocument := on_createDocument (exampleWorld owner None photos (fun _ => false));
     on_getFileDownload := on_getFileDownload (exampleWorld owner None photos (fun _ => false));
     on_createFile := on_createFile (exampleWorld owner None photos (fun _ => false));
     on_append := fun _ => Resolve tt;
     on_finalize := fun _ => Reject "queue closed";
     emits_error := fun _ => false;
     on_finish := fun _ => false;
     Date_now := fun _ => 1700000000000%N |}.

(** The variables with an open archive of one photo of 1500 MB. *)
Definition oneInside : Streaming.vars :=
  {| Streaming.currentZipSizeMB := 1500;
     Streaming.currentZipFileCount := 1;
     Streaming.zipIndex := 1;
     Streaming.totalProcessed := 1;
     Streaming.createdDownloads := [];
     Streaming.failedPhotos := [] |}.

(** A world whose event has no owner. *)
Definition orphanWorld : world :=
  {| on_getDocument := fun _ => Resolve {| user_id := JsNull; event_name := None |};
     on_listDocuments := fun _ => Resolve [];
     on_createDocument := fun _ => Resolve "doc";
     on_getFileDownload := fun _ => Resolve [Byte.x01];
     on_createFile := fun _ => Resolve "zip";
     on_append := fun _ => Resolve tt;
     on_finalize := fun _ => Resolve exampleZip;
     emits_error := fun _ => false;
     on_finish := fun _ => false;
     Date_now := fun _ => 1700000000000%N |}.

(** ** Vocabulary of the statements *)

(** What the loop maintains on a group, in any arithmetic: it has a member,
    and from its second member on the size the loop has added up for it was
    not found greater than the budget. *)
Definition withinBudget (N : arith) {document : Type} (sizeOf : document -> number N)
    (budget : number N) (g : list document) : Prop :=
  g <> []
  /\ ((2 <= List.length g)%nat -> num_gt N (Chunking.chunkSize N sizeOf g) budget = false).

Definition chunkerSound (N : arith) {document : Type} (sizeOf : document -> number N)
    (budget : number N) (st : Chunking.chunker N document) : Prop :=
  Forall (withinBudget N sizeOf budget) (Chunking.chunks st)
  /\ Chunking.size st = Chunking.chunkSize N sizeOf (Chunking.currentChunk st)
  /\ ((2 <= List.length (Chunking.currentChunk st))%nat ->
      num_gt N (Chunking.size st) budget = false).

(** The variables of the loop over the rationals and of the loop in the
    arithmetic [exact] hold the same values. *)
Definition sameChunker (st : Main.chunker) (st' : Chunking.chunker exact photo) : Prop :=
  Main.chunks st = Chunking.chunks st'
  /\ Main.currentChunk st = Chunking.currentChunk st'
  /\ Main.size st = Chunking.size st'.

(** The sum of the rationals that a list of doubles stands for. *)
Definition exactSum (xs : list float) : option Q :=
  fold_left (fun acc x =>
               match acc, valueOf x with
               | Some a, Some b => Some (a + b)
               | _, _ => None
               end) xs (Some 0).

Definition nonNegative (p : photo) : Prop := 0 <= parseFloat_file_size p.

(** With non-negative sizes the running size is non-negative, and it is 0
    while the open chunk is empty. *)
Definition chunkerNonNeg (st : Main.chunker) : Prop :=
  0 <= Main.size st /\ (Main.currentChunk st = [] -> Main.size st = 0).

(** The ownership lookup, the only call of a refused run. *)
Definition ownershipLookup (env : environment) (eventId : string) : event :=
  Databases_getDocument (APPWRITE_DATABASE_ID env) (APPWRITE_EVENT_COLLECTION_ID env)
    eventId.

(** The calls and the error line of one member of a group in src/main.js. *)
Definition downloadCall (env : environment) (p : photo) : event :=
  Storage_getFileDownload (APPWRITE_BUCKET_ID env) (file_id p).

Definition entryCall (p : photo) (buffer : Buffer) : event :=
  Archive_append buffer
    ("photo_" ++ dollar_id p ++ "." ++ orElse (file_type p) "jpg")%string.

Definition failureLine (p : photo) (message : string) : event :=
  Context_error [("❌ Failed photo " ++ dollar_id p ++ ": " ++ message)%string].

(** A member fails, after the history [h], when its download is rejected or
    when appending the downloaded bytes throws. *)
Definition memberFails (w : world) (env : environment) (p : photo) (h : list event)
    (message : string) : Prop :=
  on_getFileDownload w (h ++ [downloadCall env p]) = Reject message
  \/ exists buffer,
       on_getFileDownload w (h ++ [downloadCall env p]) = Resolve buffer
       /\ on_append w ((h ++ [downloadCall env p]) ++ [entryCall p buffer])
          = Reject message.

Definition isDownload (e : event) : bool :=
  match e with Storage_getFileDownload _ _ => true | _ => false end.

Definition isUpload (e : event) : bool :=
  match e with Storage_createFile _ _ _ _ => true | _ => false end.

Definition isRecord (e : event) : bool :=
  match e with Databases_createDocument _ _ _ _ _ => true | _ => false end.

Definition isAppend (e : event) : bool :=
  match e with Archive_append _ _ => true | _ => false end.

Definition isFinalize (e : event) : bool :=
  match e with Archive_finalize => true | _ => false end.

Definition isErrorLine (e : event) : bool :=
  match e with Context_error _ => true | _ => false end.

(** The events of the member loop: downloads, entries, failure lines. *)
Definition isMemberEvent (e : event) : bool :=
  isDownload e || isAppend e || isErrorLine e.

(** The object uploaded for an archive, and its size in megabytes as it is
    recorded. *)
Definition zipObject (name : string) (zipBuffer : Buffer) : fileObject :=
  {| fo_name := name;
     fo_type := "application/zip";
     fo_size := List.length zipBuffer;
     fo_bytes := zipBuffer |}.

Definition zipMB (zipBuffer : Buffer) : Q :=
  toFixed2 (inject_Z (Z.of_nat (List.length zipBuffer)) / 1024 / 1024).

(** The upload and the record of the group of index [i] in src/main.js. *)
Definition mainUpload (env : environment) (currentUserId : string) (i : nat)
    (name : string) (now : N) (zipBuffer : Buffer) : event :=
  Storage_createFile (APPWRITE_DOWNLOAD_BUCKET_ID env)
    ("download_" ++ decimalN now ++ "_" ++ decimal i)%string
    (zipObject name zipBuffer)
    (Main.uploadPermissions currentUserId).

Definition mainRecord (env : environment) (currentUserId eventId uploadedId : string)
    (name : string) (zipBuffer : Buffer) (photo_count i total : nat) : event :=
  Databases_createDocument (APPWRITE_DATABASE_ID env)
    (APPWRITE_DOWNLOAD_COLLECTION_ID env) "unique()"
    (Main.downloadData currentUserId eventId uploadedId name (zipMB zipBuffer)
       photo_count (i + 1) total)
    None.

(** The calls of the processing of a group in src/main.js: those of its
    members, those that make and close the archive, the upload and the
    record. *)
Definition groupCall (env : environment) (currentUserId eventId name : string)
    (photo_count i total : nat) (e : event) : Prop :=
  isMemberEvent e = true
  \/ (e = Archiver_zip \/ e = Archive_finalize \/ e = ZipStream_on_finish)
  \/ (exists now zipBuffer, e = mainUpload env currentUserId i name now zipBuffer)
  \/ (exists uploadedId zipBuffer,
        e = mainRecord env currentUserId eventId uploadedId name zipBuffer
              photo_count i total).



(** A world in which the download and the append of a member settle. *)
Definition membersSettle (w : world) : Prop :=
  forall h, on_getFileDownload w h <> Never /\ on_append w h <> Never.

(** The timing of the streams of Node.js: by the time [archive.finalize()]
    has settled and the function goes on, the stream the archive is piped
    into has finished, and the listener set after it (src/main.js line 185,
    part_000 line 324) is not called. *)
Definition finishUnheard (w : world) : Prop := forall h, on_finish w h = false.



(** The upload and the record of the archive of ordinal [zipIndex] in the
    streaming revision. *)
Definition streamUpload (env : environment) (currentUserId eventId : string)
    (zipIndex : nat) (name : string) (now : N) (zipBuffer : Buffer) : event :=
  Storage_createFile (APPWRITE_DOWNLOAD_BUCKET_ID env)
    ("dl_" ++ eventId ++ "_" ++ decimalN now ++ "_" ++ decimal zipIndex)%string
    (zipObject name zipBuffer)
    (Streaming.ownerGrant currentUserId).

Definition streamRecord (env : environment) (currentUserId eventId uploadedId : string)
    (name : string) (zipBuffer : Buffer) (photo_count zipIndex : nat) (created_at : N)
    : event :=
  Databases_createDocument (APPWRITE_DATABASE_ID env)
    (APPWRITE_DOWNLOAD_COLLECTION_ID env) "unique()"
    (Streaming.downloadData currentUserId eventId uploadedId name (zipMB zipBuffer)
       photo_count zipIndex created_at)
    (Some (Streaming.ownerGrant currentUserId)).

(** The variables after a successful [finalizeAndUploadZip]. *)
Definition afterUpload (v : Streaming.vars) (dlDoc uploadedId name : string)
    (zipBuffer : Buffer) : Streaming.vars :=
  {| Streaming.currentZipSizeMB := Streaming.currentZipSizeMB v;
     Streaming.currentZipFileCount := Streaming.currentZipFileCount v;
     Streaming.zipIndex := Streaming.zipIndex v + 1;
     Streaming.totalProcessed := Streaming.totalProcessed v;
     Streaming.createdDownloads :=
       Streaming.createdDownloads v ++
         [ {| Streaming.dl_id := dlDoc;
              Streaming.dl_fileId := uploadedId;
              Streaming.dl_filename := name;
              Streaming.dl_sizeMB := zipMB zipBuffer;
              Streaming.dl_photoCount := Streaming.currentZipFileCount v |} ];
     Streaming.failedPhotos := Streaming.failedPhotos v |}.

(** The error line of a failed photo in the streaming revision. *)
Definition streamFailureLine (f : Streaming.failure) : event :=
  Context_error [("❌ Failed to process photo " ++ Streaming.failure_id f ++ ": "
                   ++ Streaming.failure_error f)%string].

(** The error lines that report a failed photo in the streaming revision. *)
Definition isFailureLine (e : event) : bool :=
  match e with
  | Context_error [line] => String.prefix "❌ Failed to process photo " line
  | _ => false
  end.

(** The line of the handler set on the [error] event of an archive of the
    streaming revision, and what a failed call on the archive adds to the
    run after the call itself. *)
Definition archiveErrorLine (message : string) : event :=
  Context_error [("❌ Archive error: " ++ message)%string].

Definition announcement (w : world) (h : list event) (message : string) : list event :=
  if emits_error w h then [archiveErrorLine message] else [].

(** The failures a success payload enumerates. *)
Definition reported (failures : option (list Streaming.failure)) : list Streaming.failure :=
  match failures with
  | Some fl => fl
  | None => []
  end.

(** The archives made so far carry the names of the ordinals 1, 2, ... *)
Definition named (eventDoc : eventDocument) (v : Streaming.vars) : Prop :=
  Streaming.zipIndex v = S (List.length (Streaming.createdDownloads v))
  /\ map Streaming.dl_filename (Streaming.createdDownloads v)
     = map (Streaming.zipFilename eventDoc)
         (seq 1 (List.length (Streaming.createdDownloads v))).

(** A computation that reports at most [nf] failures, each both as an error
    line and in [failedPhotos], counts [np] more photos when it ends normally
    (and no more than that when it throws), stops, and keeps the archives
    named. *)
Definition tracks {A : Type} (eventDoc : eventDocument) (nf np : nat)
    (m : Streaming.SM A) : Prop :=
  forall v h, exists fl,
    filter isFailureLine (snd (m v h)) = map streamFailureLine fl
    /\ Streaming.failedPhotos (snd (fst (m v h))) = Streaming.failedPhotos v ++ fl
    /\ (List.length fl <= nf)%nat
    /\ (forall a, fst (fst (m v h)) = Ok a ->
        Streaming.totalProcessed (snd (fst (m v h)))
        = (Streaming.totalProcessed v + np)%nat)
    /\ (Streaming.totalProcessed v <= Streaming.totalProcessed (snd (fst (m v h)))
        <= Streaming.totalProcessed v + np)%nat
    /\ fst (fst (m v h)) <> OutOfFuel
    /\ (named eventDoc v -> named eventDoc (snd (fst (m v h)))).

(** The photos held by the archives made so far and by the open archive. *)
Definition accounted (v : Streaming.vars) : nat :=
  list_sum (map Streaming.dl_photoCount (Streaming.createdDownloads v))
  + Streaming.currentZipFileCount v.

(** Every photo counted so far is in an archive or in the failure list. *)
Definition balanced (v : Streaming.vars) : Prop :=
  (accounted v + List.length (Streaming.failedPhotos v))%nat
  = Streaming.totalProcessed v.

(** A computation that puts [d] more photos into the archives when it ends
    normally, and none when it throws; it leaves the counter and the failure
    list alone and does not run out of fuel. *)
Definition moves {A : Type} (d : nat) (m : Streaming.SM A) : Prop :=
  forall v h,
    (forall a, fst (fst (m v h)) = Ok a ->
       accounted (snd (fst (m v h))) = (accounted v + d)%nat)
    /\ (forall e, fst (fst (m v h)) = Throw e ->
          accounted (snd (fst (m v h))) = accounted v)
    /\ fst (fst (m v h)) <> OutOfFuel
    /\ Streaming.failedPhotos (snd (fst (m v h))) = Streaming.failedPhotos v
    /\ Streaming.totalProcessed (snd (fst (m v h))) = Streaming.totalProcessed v.

(** The uploads and the records, and with them the calls that close an
    archive. *)
Definition isDelivery (e : event) : bool := isUpload e || isRecord e.

Definition isArchiving (e : event) : bool := isFinalize e || isUpload e || isRecord e.

(** A computation that keeps the property [I] of the variables, however it
    ends, and makes no call of the class [f]. *)
Definition preserves {A : Type} (I : Streaming.vars -> Prop) (f : event -> bool)
    (m : Streaming.SM A) : Prop :=
  forall v h, I v ->
    I (snd (fst (m v h))) /\ filter f (snd (m v h)) = [].

(** A world in which no photo can be fetched and appended: every download
    is rejected, or every append throws. *)
Definition noneAppended (w : world) : Prop :=
  (forall h, exists message, on_getFileDownload w h = Reject message)
  \/ (forall h, exists message, on_append w h = Reject message).

(** Every character of a string is in the class [a-zA-Z0-9_-]. *)
Fixpoint allSafe (s : string) : bool :=
  match s with
  | EmptyString => true
  | String c s' => isSafeChar c && allSafe s'
  end.

(** The first document of the group [g2] was found not to fit into [g1]. *)
Definition overflows (N : arith) {document : Type} (sizeOf : document -> number N)
    (budget : number N) (g1 g2 : list document) : Prop :=
  match g2 with
  | q :: _ => num_gt N (num_add N (Chunking.chunkSize N sizeOf g1) (sizeOf q)) budget = true
  | [] => True
  end.

(** The first document of each group was found not to fit into the group
    before it. *)
Fixpoint tight (N : arith) {document : Type} (sizeOf : document -> number N)
    (budget : number N) (gs : list (list document)) : Prop :=
  match gs with
  | [] => True
  | g1 :: rest =>
      match rest with
      | [] => True
      | g2 :: _ => overflows N sizeOf budget g1 g2
      end
      /\ tight N sizeOf budget rest
  end.

(** What the chunking loop maintains for [tight]: the open chunk is counted
    as the last group, and it is empty only before the first document. *)
Definition chunkerTight (N : arith) {document : Type} (sizeOf : document -> number N)
    (budget : number N) (st : Chunking.chunker N document) : Prop :=
  tight N sizeOf budget (Chunking.chunks st ++ [Chunking.currentChunk st])
  /\ Chunking.size st = Chunking.chunkSize N sizeOf (Chunking.currentChunk st)
  /\ (Chunking.currentChunk st = [] -> Chunking.chunks st = []).

(** The listing call of src/main.js for the page starting at [offset]. *)
Definition listingCall (env : environment) (eventId : string) (offset : nat) : event :=
  Databases_listDocuments (APPWRITE_DATABASE_ID env) (APPWRITE_PHOTO_COLLECTION_ID env)
    [Query_equal "event_id" eventId; Query_limit Main.batchSize; Query_offset offset].

(** A world whose photo collection holds [photos] for the event and serves
    them by offset, a page of at most 100 at a time. *)
Definition servesPhotos (w : world) (env : environment) (eventId : string)
    (photos : list photo) : Prop :=
  forall h offset,
    on_listDocuments w (h ++ [listingCall env eventId offset])
    = Resolve (firstn Main.batchSize (skipn offset photos)).

(** A world whose listing always answers a full page. *)
Definition everFull (w : world) : Prop :=
  forall h, exists page,
    on_listDocuments w h = Resolve page /\ (Main.batchSize <= List.length page)%nat.

(** The offsets [offset], [offset + 100], ... of [n] successive pages. *)
Definition pageOffsets (offset n : nat) : list nat :=
  map (fun j => (offset + Main.batchSize * j)%nat) (seq 0 n).

(** A request that names no event. *)
Definition namesNoEvent (req : request) : Prop :=
  match bodyRaw req with
  | Body_empty => True
  | Body_invalid _ => True
  | Body_null => False
  | Body_object eventId => falsy eventId = true
  end.

Definition isListing (e : event) : bool :=
  match e with Databases_listDocuments _ _ _ => true | _ => false end.

(** The error line and the answer of the outer catch of src/main.js. *)
Definition outerErrorLine (message : string) : event :=
  Context_error ["❌ Error preparing download:"; message].

(** The statuses src/main.js can answer with. *)
Definition mainStatuses : list nat := [200; 400; 403; 404; 500]%nat.

(** The pages asked for when the collection holds [n] photos. *)
Definition pagesOf (env : environment) (eventId : string) (n : nat) : list event :=
  map (listingCall env eventId) (pageOffsets 0 (S (n / Main.batchSize))).

(** The listing call of the streaming revision for the page starting at
    [offset]. *)
Definition selectCall (env : environment) (eventId : string) (offset : nat) : event :=
  Databases_listDocuments (APPWRITE_DATABASE_ID env) (APPWRITE_PHOTO_COLLECTION_ID env)
    [Query_equal "event_id" eventId; Query_limit Streaming.BATCH_SIZE;
     Query_offset offset;
     Query_select ["$id"; "file_id"; "file_size"; "file_type"; "file_name"]].

(** A world that serves [photos] by offset to the streaming revision. *)
Definition servesSelected (w : world) (env : environment) (eventId : string)
    (photos : list photo) : Prop :=
  forall h offset,
    on_listDocuments w (h ++ [selectCall env eventId offset])
    = Resolve (firstn Streaming.BATCH_SIZE (skipn offset photos)).

(** The bound of the paging loop of the streaming revision, and what it
    lets through. *)
Definition photoLimit : nat := 100 * 100.
Definition photoCap : nat := photoLimit + Streaming.BATCH_SIZE.

(** The statuses the streaming revision can answer with. *)
Definition streamingStatuses : list nat := [200; 400; 401; 403; 404; 500]%nat.

(** The variables of the streaming revision after a photo was counted, and
    after a failure was booked for it. *)
Definition counted (v : Streaming.vars) : Streaming.vars :=
  {| Streaming.currentZipSizeMB := Streaming.currentZipSizeMB v;
     Streaming.currentZipFileCount := Streaming.currentZipFileCount v;
     Streaming.zipIndex := Streaming.zipIndex v;
     Streaming.totalProcessed := Streaming.totalProcessed v + 1;
     Streaming.createdDownloads := Streaming.createdDownloads v;
     Streaming.failedPhotos := Streaming.failedPhotos v |}.

Definition failureOf (p : photo) (message : string) : Streaming.failure :=
  {| Streaming.failure_id := dollar_id p; Streaming.failure_error := message |}.

Definition blamed (v : Streaming.vars) (p : photo) (message : string) : Streaming.vars :=
  {| Streaming.currentZipSizeMB := Streaming.currentZipSizeMB v;
     Streaming.currentZipFileCount := Streaming.currentZipFileCount v;
     Streaming.zipIndex := Streaming.zipIndex v;
     Streaming.totalProcessed := Streaming.totalProcessed v;
     Streaming.createdDownloads := Streaming.createdDownloads v;
     Streaming.failedPhotos := Streaming.failedPhotos v ++ [failureOf p message] |}.

(** The test that closes the open archive before the photo [p]. *)
Definition cuts (v : Streaming.vars) (p : photo) : bool :=
  Qgtb (Streaming.currentZipSizeMB v + parseFloat_file_size p) Streaming.MAX_MB
  && (Streaming.MIN_FILES_PER_ZIP <=? Streaming.currentZipFileCount v)%nat.

(** The calls that open an archive, put a photo into it and close it. *)
Definition isArchiveCall (e : event) : bool :=
  match e with
  | Archiver_zip | Archive_append _ _ | Archive_finalize => true
  | _ => false
  end.

(** The number of photos in the open archive once the event [e] has followed
    the history [h], when there were [n] before it: a new archive is empty,
    and an append counts when the world has resolved it. *)
Definition countAfter (w : world) (h : list event) (e : event) (n : nat) : nat :=
  match e with
  | Archiver_zip => 0
  | Archive_append _ _ =>
      match on_append w (h ++ [e]) with
      | Resolve _ => S n
      | _ => n
      end
  | _ => n
  end.

Fixpoint openCount (w : world) (h es : list event) (n : nat) : nat :=
  match es with
  | [] => n
  | e :: es' => openCount w (h ++ [e]) es' (countAfter w h e n)
  end.

(** Among the events [es], which follow the history [h] with [n] photos in
    the open archive, every finalization closes an archive that holds a
    photo. *)
Fixpoint closesNonEmpty (w : world) (h es : list event) (n : nat) : Prop :=
  match es with
  | [] => True
  | e :: es' =>
      (e = Archive_finalize -> (1 <= n)%nat)
      /\ closesNonEmpty w (h ++ [e]) es' (countAfter w h e n)
  end.

(** Run from the variables [v] after the history [h], the computation [m]
    closes no empty archive, and [currentZipFileCount] goes on counting the
    photos of the open archive. *)
Definition countsAt (w : world) {A : Type} (m : Streaming.SM A) (v : Streaming.vars)
    (h : list event) : Prop :=
  closesNonEmpty w h (snd (m v h)) (Streaming.currentZipFileCount v)
  /\ Streaming.currentZipFileCount (snd (fst (m v h)))
     = openCount w h (snd (m v h)) (Streaming.currentZipFileCount v).

Definition counts (w : world) {A : Type} (m : Streaming.SM A) : Prop :=
  forall v h, countsAt w m v h.

(** The calls of the direct download. *)
Definition dlLookup (env : environment) (eventId : string) : DownloadPhotos.call :=
  DownloadPhotos.Shared (ownershipLookup env eventId).

Definition dlSend (chunkIndex : nat) : DownloadPhotos.call :=
  DownloadPhotos.Res_send "" 200
    (DownloadPhotos.headers (DownloadPhotos.zipFilename chunkIndex)).

Definition dlListing (env : environment) (eventId : string) (batch : list string)
    : DownloadPhotos.call :=
  DownloadPhotos.Databases_listDocuments (APPWRITE_DATABASE_ID env)
    (APPWRITE_PHOTO_COLLECTION_ID env)
    [DownloadPhotos.Query_equalAny "$id" batch;
     DownloadPhotos.Query_equalTo "event_id" eventId].

Definition dlErrorLine (message : string) : DownloadPhotos.call :=
  DownloadPhotos.Shared (Context_error [("❌ Error creating ZIP: " ++ message)%string]).

(** The ids asked for by a listing, and the batches of ids asked for during
    a run, in order. *)
Definition batchOf (c : DownloadPhotos.call) : option (list string) :=
  match c with
  | DownloadPhotos.Databases_listDocuments _ _
      (DownloadPhotos.Query_equalAny _ values :: _) => Some values
  | _ => None
  end.

Fixpoint batchesOf (es : list DownloadPhotos.call) : list (list string) :=
  match es with
  | [] => []
  | c :: es' =>
      match batchOf c with
      | Some batch => batch :: batchesOf es'
      | None => batchesOf es'
      end
  end.

Definition batchSized (batch : list string) : Prop :=
  (1 <= List.length batch <= DownloadPhotos.batchSize)%nat.

(** The statuses of the JSON responses of the direct download. *)
Definition downloadStatuses : list nat := [400; 403; 500]%nat.

(** The line the handler of the archiver's [error] event writes (line 97). *)
Definition dlArchiveErrorLine (message : string) : DownloadPhotos.call :=
  DownloadPhotos.Shared (Context_error ["❌ Archive error:"; message]).

(** The fetches of the files and the appends all settle, one way or the
    other. *)
Definition dlMembersSettle (w : DownloadPhotos.world) : Prop :=
  (forall h, DownloadPhotos.on_getFileDownload w h <> Never)
  /\ (forall h, DownloadPhotos.on_append w h <> Never).

(** Every call of the direct download settles, one way or the other. *)
Definition dlSettles (w : DownloadPhotos.world) : Prop :=
  (forall h, DownloadPhotos.on_getDocument w h <> Never)
  /\ (forall h, DownloadPhotos.on_pipe w h <> Never)
  /\ (forall h, DownloadPhotos.on_listDocuments w h <> Never)
  /\ dlMembersSettle w
  /\ (forall h, DownloadPhotos.on_finalize w h <> Never).

(** A world of the direct download in which every call answers: the pipe,
    the listings and the finalization succeed, and the fetches of the files
    and the appends settle. *)
Definition dlAllAnswer (w : DownloadPhotos.world) : Prop :=
  (forall h, DownloadPhotos.on_pipe w h = Resolve tt)
  /\ (forall h, exists documents, DownloadPhotos.on_listDocuments w h = Resolve documents)
  /\ dlMembersSettle w
  /\ (forall h, DownloadPhotos.on_finalize w h = Resolve tt).

(** An example world of the direct download: the event of [owner], a photo
    collection that knows the photos [photos], a listing that fails when
    [listingFails]. *)
Definition exampleDownloadWorld (owner : string) (photos : list photo)
    (listingFails : bool) : DownloadPhotos.world :=
  {| DownloadPhotos.on_getDocument := fun _ =>
       Resolve {| user_id := JsString owner; event_name := None |};
     DownloadPhotos.on_pipe := fun _ => Resolve tt;
     DownloadPhotos.on_listDocuments := fun h =>
       if listingFails then Reject "Server Error"
       else
         match batchOf (last h DownloadPhotos.Archive_pipe) with
         | Some batch =>
             Resolve (filter (fun p => existsb (String.eqb (dollar_id p)) batch) photos)
         | None => Resolve []
         end;
     DownloadPhotos.on_getFileDownload := fun _ => Resolve [Byte.x01];
     DownloadPhotos.on_append := fun _ => Resolve tt;
     DownloadPhotos.on_finalize := fun _ => Resolve tt;
     DownloadPhotos.emits_error := fun _ => false |}.

(** The same event in a world whose listings of photo documents never
    settle. *)
Definition silentListingWorld : DownloadPhotos.world :=
  {| DownloadPhotos.on_getDocument := fun _ =>
       Resolve {| user_id := JsString "alice"; event_name := None |};
     DownloadPhotos.on_pipe := fun _ => Resolve tt;
     DownloadPhotos.on_listDocuments := fun _ => Never;
     DownloadPhotos.on_getFileDownload := fun _ => Resolve [Byte.x01];
     DownloadPhotos.on_append := fun _ => Resolve tt;
     DownloadPhotos.on_finalize := fun _ => Resolve tt;
     DownloadPhotos.emits_error := fun _ => false |}.

Definition exampleDownloadRequest (photoIds : list string) (caller : option string)
    : DownloadPhotos.request :=
  {| DownloadPhotos.bodyRaw :=
       DownloadPhotos.Body_object (Some photoIds) (Some 2%nat) (Some "event-1");
     DownloadPhotos.x_appwrite_user_id := caller |}.

(** ** The partitioner *)

Lemma Qgtb_true (a b : Q) : Qgtb a b = true <-> b < a.
Proof.
  unfold Qgtb. rewrite negb_true_iff.
  split; intro H.
  - apply Qnot_le_lt. intro Hle. apply Qle_bool_iff in Hle. congruence.
  - destruct (Qle_bool a b) eqn:E; [|reflexivity].
    apply Qle_bool_iff in E. exfalso. exact (Qlt_not_le _ _ H E).
Qed.

Lemma Qgtb_false (a b : Q) : Qgtb a b = false <-> a <= b.
Proof.
  unfold Qgtb. rewrite negb_false_iff. apply Qle_bool_iff.
Qed.

Lemma nonEmpty_true {A : Type} (xs : list A) : nonEmpty xs = true <-> xs <> [].
Proof. destruct xs; simpl; split; congruence. Qed.

Lemma nonEmpty_false {A : Type} (xs : list A) : nonEmpty xs = false <-> xs = [].
Proof. destruct xs; simpl; split; congruence. Qed.

Section Partitioner.

Variable budget : Q.

Lemma chunkLoop_concat (l : list photo) : forall st,
  List.concat (Main.chunks (fold_left (Main.chunkStep budget) l st))
    ++ Main.currentChunk (fold_left (Main.chunkStep budget) l st)
  = List.concat (Main.chunks st) ++ Main.currentChunk st ++ l.
Proof.
  induction l as [|p l IH]; intro st; simpl.
  - now rewrite app_nil_r.
  - rewrite IH. unfold Main.chunkStep.
    destruct (Main.closes budget st p); simpl.
    + rewrite List.concat_app. simpl. now rewrite app_nil_r, <- app_assoc.
    + now rewrite <- !app_assoc.
Qed.

Lemma chunkFlush_concat (st : Main.chunker) :
  List.concat (Main.chunkFlush st) = List.concat (Main.chunks st) ++ Main.currentChunk st.
Proof.
  unfold Main.chunkFlush. destruct (Main.currentChunk st) eqn:E; simpl.
  - now rewrite app_nil_r.
  - rewrite List.concat_app. simpl. now rewrite app_nil_r.
Qed.

(** C1. The groups emitted by the chunking block, concatenated in group
    order, are exactly the input list, for every budget and every list of
    photos (whatever their declared sizes, so in particular for non-negative
    ones): nothing is lost, duplicated or reordered. *)
Theorem chunkPhotos_concat (allPhotos : list photo) :
  List.concat (Main.chunkPhotos budget allPhotos) = allPhotos.
Proof.
  unfold Main.chunkPhotos.
  rewrite chunkFlush_concat, chunkLoop_concat. reflexivity.
Qed.

(** *** Oversized photos *)

Lemma chunkStep_nonNeg (st : Main.chunker) (p : photo) :
  nonNegative p -> chunkerNonNeg st -> chunkerNonNeg (Main.chunkStep budget st p).
Proof.
  intros Hp [H0 He]. unfold Main.chunkStep, chunkerNonNeg.
  destruct (Main.closes budget st p);
    cbn [Main.size Main.currentChunk Main.chunks]; split.
  - setoid_rewrite Qplus_0_l. exact Hp.
  - intro H. discriminate H.
  - setoid_rewrite <- (Qplus_0_l 0) at 1. now apply Qplus_le_compat.
  - intro H. now apply app_eq_nil in H as [_ H].
Qed.

Lemma chunkLoop_nonNeg (l : list photo) : forall st,
  Forall nonNegative l -> chunkerNonNeg st ->
  chunkerNonNeg (fold_left (Main.chunkStep budget) l st).
Proof.
  induction l as [|p l IH]; intros st Hl H; simpl; auto.
  inversion Hl; subst. apply IH; auto using chunkStep_nonNeg.
Qed.

(** The groups already closed are carried along unchanged. *)
Lemma chunkLoop_closed_prefix (l : list photo) : forall cs cur sz,
  Main.chunkFlush (fold_left (Main.chunkStep budget) l
                     {| Main.chunks := cs; Main.currentChunk := cur; Main.size := sz |})
  = cs ++ Main.chunkFlush (fold_left (Main.chunkStep budget) l
                     {| Main.chunks := []; Main.currentChunk := cur; Main.size := sz |}).
Proof.
  induction l as [|p l IH]; intros cs cur sz; simpl.
  - unfold Main.chunkFlush; simpl. destruct (nonEmpty cur); simpl; auto.
    now rewrite app_nil_r.
  - unfold Main.chunkStep, Main.closes; simpl.
    destruct (_ && _); simpl.
    + rewrite IH. rewrite (IH [cur]). now rewrite app_assoc.
    + apply IH.
Qed.

(** The rule of the loop: the open group is closed exactly when it is
    non-empty and the running size plus the new size exceeds the budget. *)
Lemma chunkStep_closes_iff (st : Main.chunker) (p : photo) :
  (Main.chunks (Main.chunkStep budget st p) = Main.chunks st ++ [Main.currentChunk st]
   /\ Main.currentChunk (Main.chunkStep budget st p) = [p])
  <-> (Main.currentChunk st <> [] /\ budget < Main.size st + parseFloat_file_size p).
Proof.
  unfold Main.chunkStep. destruct (Main.closes budget st p) eqn:Hc; simpl.
  - unfold Main.closes in Hc. apply andb_prop in Hc as [Hgt Hne].
    apply Qgtb_true in Hgt. apply nonEmpty_true in Hne. tauto.
  - split.
    + intros [H _]. exfalso.
      apply (f_equal (@List.length _)) in H. rewrite length_app in H. simpl in H. lia.
    + intros [Hne Hgt]. apply Qgtb_true in Hgt. apply nonEmpty_true in Hne.
      unfold Main.closes in Hc. rewrite Hgt, Hne in Hc. discriminate.
Qed.

Lemma oversized_closes (sz : Q) (p q : photo) :
  0 <= sz -> nonNegative q -> budget < parseFloat_file_size p ->
  Qgtb (sz + parseFloat_file_size p + parseFloat_file_size q) budget = true.
Proof.
  intros Hsz Hq Hp. apply Qgtb_true.
  apply Qlt_le_trans with (1 := Hp).
  setoid_rewrite <- (Qplus_0_r (parseFloat_file_size p)) at 1.
  apply Qplus_le_compat; [|exact Hq].
  setoid_rewrite <- (Qplus_0_l (parseFloat_file_size p)) at 1.
  apply Qplus_le_compat; [exact Hsz|apply Qle_refl].
Qed.

(** Once an oversized photo sits alone in the open chunk, the next photo
    closes that chunk, and the rest is chunked as if from scratch. *)
Lemma chunkLoop_after_oversized (p : photo) (post : list photo) (cs : list (list photo)) :
  Forall nonNegative post -> budget < parseFloat_file_size p ->
  Main.chunkFlush (fold_left (Main.chunkStep budget) post
     {| Main.chunks := cs; Main.currentChunk := [p];
        Main.size := 0 + parseFloat_file_size p |})
  = cs ++ [p] :: Main.chunkPhotos budget post.
Proof.
  intros Hpost Hp. destruct post as [|q post]; [reflexivity|].
  inversion Hpost as [|? ? Hq Hpost']; subst.
  unfold Main.chunkPhotos. simpl.
  unfold Main.chunkStep at 2 4, Main.closes; simpl.
  rewrite (oversized_closes 0 p q (Qle_refl 0) Hq Hp), andb_false_r. simpl.
  rewrite chunkLoop_closed_prefix. now rewrite <- app_assoc.
Qed.

(** C3. With non-negative declared sizes, a photo whose size strictly exceeds
    the budget ends up alone in its group wherever it stands in the input:
    the photos before it and the photos after it are chunked on their own, and
    the oversized photo is the singleton group between them.  The loop follows
    the stated rule: a step closes the open group exactly when that group is
    non-empty and the running size plus the new size exceeds the budget. *)
Theorem oversized_is_singleton (pre post : list photo) (p : photo) :
  Forall nonNegative (pre ++ p :: post) ->
  budget < parseFloat_file_size p ->
  Main.chunkPhotos budget (pre ++ p :: post)
  = Main.chunkPhotos budget pre ++ [p] :: Main.chunkPhotos budget post
  /\ forall st q,
       (Main.chunks (Main.chunkStep budget st q)
          = Main.chunks st ++ [Main.currentChunk st]
        /\ Main.currentChunk (Main.chunkStep budget st q) = [q])
       <-> (Main.currentChunk st <> []
            /\ budget < Main.size st + parseFloat_file_size q).
Proof.
  intros Hall Hp. split; [|apply chunkStep_closes_iff].
  apply Forall_app in Hall as [Hpre Hrest].
  inversion Hrest as [|? ? Hp0 Hpost]; subst.
  unfold Main.chunkPhotos at 1 2. rewrite fold_left_app. simpl.
  assert (Hnn : chunkerNonNeg (fold_left (Main.chunkStep budget) pre Main.chunker_init)).
  { apply chunkLoop_nonNeg; [exact Hpre|]. split; simpl; [apply Qle_refl|reflexivity]. }
  destruct (fold_left (Main.chunkStep budget) pre Main.chunker_init) as [cs cur sz].
  destruct Hnn as [H0 He]. simpl in H0, He.
  unfold Main.chunkStep, Main.closes, Main.chunkFlush at 2; simpl.
  destruct cur as [|c cur]; simpl.
  - rewrite andb_false_r, (He eq_refl).
    now apply chunkLoop_after_oversized.
  - assert (Hgt : Qgtb (sz + parseFloat_file_size p) budget = true).
    { apply Qgtb_true. apply Qlt_le_trans with (1 := Hp).
      setoid_rewrite <- (Qplus_0_l (parseFloat_file_size p)) at 1.
      apply Qplus_le_compat; [exact H0|apply Qle_refl]. }
    rewrite Hgt. simpl.
    now apply chunkLoop_after_oversized.
Qed.

End Partitioner.

(** ** The chunking loop in the arithmetic of JavaScript *)

Section ChunkingLoop.

Variable N : arith.
Variable document : Type.
Variable sizeOf : document -> number N.
Variable budget : number N.

Lemma chunkSize_snoc (g : list document) (p : document) :
  Chunking.chunkSize N sizeOf (g ++ [p])
  = num_add N (Chunking.chunkSize N sizeOf g) (sizeOf p).
Proof. unfold Chunking.chunkSize. now rewrite fold_left_app. Qed.

Lemma chunkStep_sound (st : Chunking.chunker N document) (p : document) :
  chunkerSound N sizeOf budget st ->
  chunkerSound N sizeOf budget (Chunking.chunkStep N sizeOf budget st p).
Proof.
  destruct st as [cs cur sz].
  unfold chunkerSound, Chunking.chunkStep, Chunking.closes.
  cbn [Chunking.chunks Chunking.currentChunk Chunking.size].
  intros (Hcs & Hsz & Hle). subst sz.
  destruct cur as [|q cur].
  - rewrite andb_false_r. cbn [Chunking.chunks Chunking.currentChunk Chunking.size app].
    repeat split; auto. simpl. lia.
  - cbn [nonEmpty]. rewrite andb_true_r.
    destruct (num_gt N (num_add N (Chunking.chunkSize N sizeOf (q :: cur)) (sizeOf p))
                budget) eqn:Hgt;
      cbn [Chunking.chunks Chunking.currentChunk Chunking.size app].
    + repeat split.
      * apply Forall_app. split; [exact Hcs|].
        constructor; [|constructor]. split; [discriminate|exact Hle].
      * simpl. lia.
    + change (q :: cur ++ [p]) with ((q :: cur) ++ [p]).
      repeat split; auto.
      * now rewrite chunkSize_snoc.
Qed.

Lemma chunkLoop_sound (l : list document) : forall st,
  chunkerSound N sizeOf budget st ->
  chunkerSound N sizeOf budget (fold_left (Chunking.chunkStep N sizeOf budget) l st).
Proof.
  induction l as [|p l IH]; intros st H; simpl; auto using chunkStep_sound.
Qed.

Lemma chunker_init_sound : chunkerSound N sizeOf budget Chunking.chunker_init.
Proof.
  repeat split; simpl; auto. lia.
Qed.

Lemma chunkPhotos_sound (allPhotos : list document) :
  Forall (withinBudget N sizeOf budget) (Chunking.chunkPhotos N sizeOf budget allPhotos).
Proof.
  unfold Chunking.chunkPhotos, Chunking.chunkFlush.
  destruct (chunkLoop_sound allPhotos _ chunker_init_sound) as (Hcs & Hsz & Hle).
  destruct (Chunking.currentChunk _) as [|q cur] eqn:Hcur; cbn [nonEmpty].
  - exact Hcs.
  - apply Forall_app. split; [exact Hcs|].
    constructor; [|constructor]. split; [discriminate|].
    intro H2. rewrite <- Hsz. now apply Hle.
Qed.

(** C2. In whatever arithmetic the loop is run, that of JavaScript included,
    every group the chunking block emits has at least one member, and for
    every emitted group with two or more members the size the loop has added
    up for it, member by member from 0, is not greater than the budget: the
    test of line 119 was false when its last member was added.  This holds for
    every budget and every input list (non-negative sizes included). *)
Theorem chunkPhotos_within_budget_as_added (allPhotos : list document)
    (g : list document) :
  In g (Chunking.chunkPhotos N sizeOf budget allPhotos) ->
  g <> [] /\
  ((2 <= List.length g)%nat ->
   num_gt N (Chunking.chunkSize N sizeOf g) budget = false).
Proof.
  intro Hin.
  pose proof (chunkPhotos_sound allPhotos) as H.
  rewrite Forall_forall in H. exact (H g Hin).
Qed.

(** *** A closed group is followed by a document that did not fit *)

Lemma tight_snoc (gs : list (list document)) (g g' : list document) :
  tight N sizeOf budget (gs ++ [g]) -> overflows N sizeOf budget g g' ->
  tight N sizeOf budget (gs ++ [g; g']).
Proof.
  induction gs as [|a gs IH]; intros Ht Hp.
  - simpl. auto.
  - destruct Ht as [Ha Ht]. split; [|now apply IH].
    destruct gs; exact Ha.
Qed.

(** Growing the last group at its end keeps the list tight. *)
Lemma tight_grow (gs : list (list document)) (q : document) (g : list document)
    (p : document) :
  tight N sizeOf budget (gs ++ [q :: g]) -> tight N sizeOf budget (gs ++ [(q :: g) ++ [p]]).
Proof.
  induction gs as [|a gs IH]; intro Ht.
  - simpl. auto.
  - destruct Ht as [Ha Ht]. split; [|now apply IH].
    destruct gs; exact Ha.
Qed.

Lemma chunkStep_tight (st : Chunking.chunker N document) (p : document) :
  chunkerTight N sizeOf budget st ->
  chunkerTight N sizeOf budget (Chunking.chunkStep N sizeOf budget st p).
Proof.
  destruct st as [cs cur sz].
  unfold chunkerTight, Chunking.chunkStep, Chunking.closes.
  cbn [Chunking.chunks Chunking.currentChunk Chunking.size].
  intros (Ht & Hsz & Hempty). subst sz.
  destruct cur as [|q cur].
  - rewrite (Hempty eq_refl), andb_false_r.
    cbn [Chunking.chunks Chunking.currentChunk Chunking.size app].
    split; [simpl; auto|]. split; [reflexivity|discriminate].
  - cbn [nonEmpty]. rewrite andb_true_r.
    destruct (num_gt N (num_add N (Chunking.chunkSize N sizeOf (q :: cur)) (sizeOf p))
                budget) eqn:Hgt;
      cbn [Chunking.chunks Chunking.currentChunk Chunking.size app].
    + split; [|split; [reflexivity|discriminate]].
      rewrite <- app_assoc. apply tight_snoc; [exact Ht|exact Hgt].
    + change (q :: cur ++ [p]) with ((q :: cur) ++ [p]).
      split; [now apply tight_grow|].
      split; [now rewrite chunkSize_snoc|].
      intro H. now apply app_eq_nil in H as [H _].
Qed.

Lemma chunkLoop_tight (l : list document) : forall st,
  chunkerTight N sizeOf budget st ->
  chunkerTight N sizeOf budget (fold_left (Chunking.chunkStep N sizeOf budget) l st).
Proof.
  induction l as [|p l IH]; intros st H; simpl; auto using chunkStep_tight.
Qed.

Lemma chunkPhotos_tight (allPhotos : list document) :
  tight N sizeOf budget (Chunking.chunkPhotos N sizeOf budget allPhotos).
Proof.
  unfold Chunking.chunkPhotos, Chunking.chunkFlush.
  assert (H0 : chunkerTight N sizeOf budget Chunking.chunker_init).
  { repeat split; simpl; auto. }
  destruct (chunkLoop_tight allPhotos _ H0) as (Ht & _ & Hempty).
  destruct (Chunking.currentChunk _) as [|q cur]; cbn [nonEmpty].
  - rewrite (Hempty eq_refl). exact I.
  - exact Ht.
Qed.

Lemma tight_adjacent (gs1 : list (list document)) : forall g1 q g2 gs2,
  tight N sizeOf budget (gs1 ++ g1 :: (q :: g2) :: gs2) ->
  num_gt N (num_add N (Chunking.chunkSize N sizeOf g1) (sizeOf q)) budget = true.
Proof.
  induction gs1 as [|a gs1 IH]; intros g1 q g2 gs2 Ht.
  - destruct Ht as [Ha _]. exact Ha.
  - destruct Ht as [_ Ht]. now apply (IH g1 q g2 gs2).
Qed.

(** X1. The chunking is greedy, in whatever arithmetic the loop is run: a
    group is closed only when the next document is found not to fit.  For
    any two consecutive groups, the size added up for the first plus the size
    of the first document of the second was found greater than the budget. *)
Theorem chunkPhotos_greedy (allPhotos : list document) (gs1 gs2 : list (list document))
    (g1 g2 : list document) (q : document) :
  Chunking.chunkPhotos N sizeOf budget allPhotos = gs1 ++ g1 :: (q :: g2) :: gs2 ->
  num_gt N (num_add N (Chunking.chunkSize N sizeOf g1) (sizeOf q)) budget = true.
Proof.
  intro H. apply (tight_adjacent gs1 g1 q g2 gs2).
  rewrite <- H. apply chunkPhotos_tight.
Qed.

End ChunkingLoop.

(** The loop over the rationals is the loop in the arithmetic [exact]. *)
Lemma chunkStep_exact (budget : Q) (st : Main.chunker)
    (st' : Chunking.chunker exact photo) (p : photo) :
  sameChunker st st' ->
  sameChunker (Main.chunkStep budget st p)
    (Chunking.chunkStep exact parseFloat_file_size budget st' p).
Proof.
  destruct st as [cs cur sz], st' as [cs' cur' sz'].
  unfold sameChunker, Main.chunkStep, Chunking.chunkStep, Main.closes, Chunking.closes.
  cbn [Main.chunks Main.currentChunk Main.size
       Chunking.chunks Chunking.currentChunk Chunking.size exact num_gt num_add num_zero].
  intros (-> & -> & ->).
  destruct (Qgtb (sz' + parseFloat_file_size p) budget && nonEmpty cur');
    cbn [Main.chunks Main.currentChunk Main.size
         Chunking.chunks Chunking.currentChunk Chunking.size]; auto.
Qed.

Lemma chunkPhotos_exact (budget : Q) (allPhotos : list photo) :
  Main.chunkPhotos budget allPhotos
  = Chunking.chunkPhotos exact parseFloat_file_size budget allPhotos.
Proof.
  unfold Main.chunkPhotos, Chunking.chunkPhotos.
  assert (H : forall l st st', sameChunker st st' ->
            sameChunker (fold_left (Main.chunkStep budget) l st)
              (fold_left (Chunking.chunkStep exact parseFloat_file_size budget) l st')).
  { induction l as [|p l IH]; intros st st' Hs; simpl; auto using chunkStep_exact. }
  destruct (H allPhotos Main.chunker_init Chunking.chunker_init) as (Hc & Hcur & _).
  { repeat split. }
  unfold Main.chunkFlush, Chunking.chunkFlush. now rewrite Hc, Hcur.
Qed.

(** In double precision the sizes 2048 and 2^-50 add up to 2048: the two
    photos make one group, whose sizes add up to more than the budget. *)
Lemma chunkPhotos_rounding_counterexample :
  Chunking.chunkPhotos binary64 (fun s : float => s) 2048%float
    [2048%float; 0x1p-50%float]
  = [[2048%float; 0x1p-50%float]]
  /\ match exactSum [2048%float; 0x1p-50%float] with
     | Some total => 2048 < total
     | None => False
     end.
Proof. split; vm_compute; reflexivity. Qed.

Lemma chunkPhotos_within_budget_as_added_witness :
  [1200%float; 100%float] <> []
  /\ ((2 <= List.length [1200%float; 100%float])%nat ->
      num_gt binary64
        (Chunking.chunkSize binary64 (fun s : float => s) [1200%float; 100%float])
        2048%float = false).
Proof.
  apply (chunkPhotos_within_budget_as_added binary64 float (fun s => s) 2048%float
           [1000%float; 1200%float; 100%float]).
  vm_compute. right. left. reflexivity.
Defined.

Lemma chunkPhotos_greedy_witness :
  num_gt binary64
    (num_add binary64 (Chunking.chunkSize binary64 (fun s : float => s) [1000%float])
       1200%float)
    2048%float = true.
Proof.
  apply (chunkPhotos_greedy binary64 float (fun s => s) 2048%float
           [1000%float; 1200%float; 100%float] [] [] [1000%float] [100%float]
           1200%float).
  vm_compute. reflexivity.
Defined.

(** ** Stepping through a run *)

Lemma bind_ok {A B : Type} (m : M A) (k : A -> M B) (h es : list event) (a : A) :
  m h = (Ok a, es) ->
  bind m k h = (fst (k a (h ++ es)), es ++ snd (k a (h ++ es))).
Proof. unfold bind. intros ->. now destruct (k a (h ++ es)). Qed.

Lemma bind_throw {A B : Type} (m : M A) (k : A -> M B) (h es : list event)
    (message : string) :
  m h = (Throw message, es) -> bind m k h = (Throw message, es).
Proof. unfold bind. now intros ->. Qed.

Lemma bind_emit {B : Type} (e : event) (k : unit -> M B) (h : list event) :
  bind (emit e) k h = (fst (k tt (h ++ [e])), e :: snd (k tt (h ++ [e]))).
Proof. now rewrite (bind_ok _ _ h [e] tt). Qed.

Lemma bind_await {A B : Type} (e : event) (oracle : list event -> answer A)
    (k : A -> M B) (h : list event) :
  bind (await e oracle) k h
  = match oracle (h ++ [e]) with
    | Resolve a => (fst (k a (h ++ [e])), e :: snd (k a (h ++ [e])))
    | Reject message => (Throw message, [e])
    | Never => (Pending, [e])
    end.
Proof.
  unfold bind, await. destruct (oracle (h ++ [e])); [|reflexivity|reflexivity].
  now destruct (k a (h ++ [e])).
Qed.

Lemma bind_pending {A B : Type} (m : M A) (k : A -> M B) (h es : list event) :
  m h = (Pending, es) -> bind m k h = (Pending, es).
Proof. unfold bind. now intros ->. Qed.

Lemma bind_listen {B : Type} (e : event) (fires : list event -> bool)
    (k : unit -> M B) (h : list event) :
  bind (listen e fires) k h
  = if fires (h ++ [e])
    then (fst (k tt (h ++ [e])), e :: snd (k tt (h ++ [e])))
    else (Pending, [e]).
Proof.
  unfold bind, listen. destruct (fires (h ++ [e])); [|reflexivity].
  now destruct (k tt (h ++ [e])).
Qed.

Lemma bind_pure {A B : Type} (f : list event -> A) (k : A -> M B) (h : list event) :
  bind (fun h => (Ok (f h), [])) k h = k (f h) h.
Proof. unfold bind. rewrite app_nil_r. now destruct (k (f h) h). Qed.

Lemma await_ret {A : Type} (e : event) (oracle : list event -> answer A)
    (h : list event) :
  bind (await e oracle) (fun a => ret a) h
  = match oracle (h ++ [e]) with
    | Resolve a => (Ok a, [e])
    | Reject message => (Throw message, [e])
    | Never => (Pending, [e])
    end.
Proof. rewrite bind_await. now destruct (oracle (h ++ [e])). Qed.

(** ** The ownership check *)

Lemma strictNe_true (a : string) (b : option string) :
  strictNe a b = true <-> b <> Some a.
Proof.
  destruct b as [b|]; simpl.
  - rewrite negb_true_iff. split; intro H.
    + intro E. injection E as ->. now rewrite String.eqb_refl in H.
    + apply String.eqb_neq. congruence.
  - split; [discriminate|reflexivity].
Qed.

Lemma falsy_false (v : option string) :
  falsy v = false <-> exists s, v = Some s /\ s <> "".
Proof.
  destruct v as [[|c s]|]; simpl; split; try discriminate.
  - intros (s & [= <-] & H). now elim H.
  - intros _. eexists; split; [reflexivity|discriminate].
  - reflexivity.
  - now intros (s & [=] & _).
Qed.

Section Ownership.

Variable w : world.
Variable env : environment.

(** The guarded block of a refused run: the lookup, the error line, the 403. *)
Lemma prepare_mismatch (fuel : nat) (eventId : string) (currentUserId : option string)
    (eventDoc : eventDocument) :
  on_getDocument w [ownershipLookup env eventId] = Resolve eventDoc ->
  strictNe (trim (String_or_empty (user_id eventDoc))) currentUserId = true ->
  exists line,
    Main.prepare w env fuel eventId currentUserId []
    = (Ok (Main.json_error 403 "Forbidden – you do not own this event"),
       [ownershipLookup env eventId; Context_error [line]]).
Proof.
  intros Hdoc Hne. unfold Main.prepare. rewrite bind_await.
  unfold ownershipLookup in Hdoc. simpl app. rewrite Hdoc, Hne.
  unfold context_error. rewrite bind_emit. simpl.
  eexists. reflexivity.
Qed.

(** C8. When the request names an event, the lookup of that event answers, and
    the caller identity is not the owner recorded on it (the [user_id],
    defaulted to the empty string and trimmed, as the code compares it), the
    function answers 403 and the run consists of the ownership lookup and the
    error line alone: no listing, no download, no upload, no record. *)
Theorem ownership_mismatch_is_forbidden (fuel : nat) (req : request)
    (eventId : string) (eventDoc : eventDocument) :
  bodyRaw req = Body_object (Some eventId) ->
  eventId <> "" ->
  on_getDocument w [ownershipLookup env eventId] = Resolve eventDoc ->
  x_appwrite_user_id req <> Some (trim (String_or_empty (user_id eventDoc))) ->
  exists line,
    run (Main.prepareDownload w env fuel req)
    = (Ok (Main.json_error 403 "Forbidden – you do not own this event"),
       [ownershipLookup env eventId; Context_error [line]]).
Proof.
  intros Hbody Hid Hdoc Hne.
  apply strictNe_true in Hne.
  unfold run, Main.prepareDownload. rewrite Hbody.
  destruct eventId as [|c eventId]; [now elim Hid|].
  cbn [falsy orElse]. unfold try_catch.
  destruct (prepare_mismatch fuel (String c eventId) (x_appwrite_user_id req)
              eventDoc Hdoc Hne) as [line ->].
  exists line. reflexivity.
Qed.

(** C10. When the identity header is absent, the function never answers 200:
    whatever the world does, its answer is 400 (no event named), 403 or 500,
    never 200 and never a 401 of its own; and as soon as the request names an
    event whose lookup answers, the answer is the 403 of the ownership
    check. *)
Theorem absent_identity_is_forbidden (fuel : nat) (req : request) :
  x_appwrite_user_id req = None ->
  (forall r es,
     run (Main.prepareDownload w env fuel req) = (Ok r, es) ->
     In (Main.statusCode_of r) [400; 403; 500]%nat)
  /\ (forall eventId eventDoc,
        bodyRaw req = Body_object (Some eventId) ->
        eventId <> "" ->
        on_getDocument w [ownershipLookup env eventId] = Resolve eventDoc ->
        fst (run (Main.prepareDownload w env fuel req))
        = Ok (Main.json_error 403 "Forbidden – you do not own this event")).
Proof.
  intro Hnone. split.
  - intros r es. unfold run, Main.prepareDownload.
    destruct (bodyRaw req) as [| m | | eventId]; simpl.
    + intros [= <- _]. simpl. auto.
    + intros [= <- _]. simpl. auto.
    + discriminate.
    + destruct (falsy eventId); simpl.
      * intros [= <- _]. simpl. auto.
      * rewrite Hnone. unfold try_catch, Main.prepare, bind, await. simpl.
        destruct (on_getDocument w _) as [doc | m |]; simpl.
        -- intros [= <- _]. simpl. auto.
        -- intros [= <- _]. simpl. auto.
        -- discriminate.
  - intros eventId eventDoc Hbody Hid Hdoc.
    unfold run, Main.prepareDownload. rewrite Hbody, Hnone.
    destruct eventId as [|c eventId]; [now elim Hid|].
    cbn [falsy orElse]. unfold try_catch.
    destruct (prepare_mismatch fuel (String c eventId) None eventDoc Hdoc eq_refl)
      as [line ->].
    reflexivity.
Qed.

End Ownership.

Lemma ownership_mismatch_is_forbidden_witness :
  exists line,
    run (Main.prepareDownload (exampleWorld "alice" None [ph "1" 1000] (fun _ => false))
           exampleEnv 5 (exampleRequest (Some "bob")))
    = (Ok (Main.json_error 403 "Forbidden – you do not own this event"),
       [ownershipLookup exampleEnv "event-1"; Context_error [line]]).
Proof.
  apply (ownership_mismatch_is_forbidden
           (exampleWorld "alice" None [ph "1" 1000] (fun _ => false))
           exampleEnv 5 (exampleRequest (Some "bob")) "event-1"
           {| user_id := JsString "alice"; event_name := None |}).
  - reflexivity.
  - discriminate.
  - reflexivity.
  - simpl. discriminate.
Defined.

Lemma absent_identity_is_forbidden_witness :
  fst (run (Main.prepareDownload (exampleWorld "alice" None [ph "1" 1000] (fun _ => false))
              exampleEnv 5 (exampleRequest None)))
  = Ok (Main.json_error 403 "Forbidden – you do not own this event").
Proof.
  apply (absent_identity_is_forbidden
           (exampleWorld "alice" None [ph "1" 1000] (fun _ => false))
           exampleEnv 5 (exampleRequest None) eq_refl) with (eventId := "event-1")
           (eventDoc := {| user_id := JsString "alice"; event_name := None |}).
  - reflexivity.
  - discriminate.
  - reflexivity.
Defined.

(** C8 as stated fails on src/main.js.  The owner recorded on the event is
    "alice " (with a trailing space) and the caller is "alice": the two
    differ, and the request is let through to the listing, which finds no
    photo.  Likewise an event on which no owner is recorded (its [user_id] is
    null) lets the empty identity through. *)
Lemma ownership_mismatch_counterexample :
  (on_getDocument (exampleWorld "alice " None [] (fun _ => false))
     [ownershipLookup exampleEnv "event-1"]
   = Resolve {| user_id := JsString "alice "; event_name := None |}
   /\ JsString "alice " <> JsString "alice"
   /\ run (Main.prepareDownload (exampleWorld "alice " None [] (fun _ => false))
             exampleEnv 5 (exampleRequest (Some "alice")))
      = (Ok (Main.json_error 404 "No photos found"),
         [ownershipLookup exampleEnv "event-1"; listingCall exampleEnv "event-1" 0]))
  /\ (on_getDocument orphanWorld [ownershipLookup exampleEnv "event-1"]
      = Resolve {| user_id := JsNull; event_name := None |}
      /\ JsNull <> JsString ""
      /\ run (Main.prepareDownload orphanWorld exampleEnv 5 (exampleRequest (Some "")))
         = (Ok (Main.json_error 404 "No photos found"),
            [ownershipLookup exampleEnv "event-1"; listingCall exampleEnv "event-1" 0])).
Proof.
  split; (split; [reflexivity|]); (split; [discriminate|]); vm_compute; reflexivity.
Qed.

(** ** The members of a group (src/main.js) *)

Lemma forEach_app {A : Type} (body : A -> M unit) (xs ys : list A) : forall h,
  forEach (xs ++ ys) body h
  = match forEach xs body h with
    | (Ok _, es) => let (r, es') := forEach ys body (h ++ es) in (r, es ++ es')
    | other => other
    end.
Proof.
  induction xs as [|x xs IH]; intro h; simpl.
  - unfold ret. rewrite app_nil_r. now destruct (forEach ys body h).
  - unfold bind. destruct (body x h) as [[[] | e | |] es]; try reflexivity.
    rewrite IH.
    destruct (forEach xs body (h ++ es)) as [[[] | e | |] es1]; try reflexivity.
    rewrite <- app_assoc.
    destruct (forEach ys body (h ++ es ++ es1)) as [r es2].
    now rewrite app_assoc.
Qed.

Section Members.

Variable w : world.
Variable env : environment.

(** What one member adds to the run: its download call, the entry when the
    download answered, and the failure line when either step failed; when a
    step does not settle the loop waits there. *)
Lemma addPhoto_cases (p : photo) (h : list event) :
  (exists buffer,
     on_getFileDownload w (h ++ [downloadCall env p]) = Resolve buffer
     /\ on_append w ((h ++ [downloadCall env p]) ++ [entryCall p buffer]) = Resolve tt
     /\ Main.addPhoto w env p h = (Ok tt, [downloadCall env p; entryCall p buffer]))
  \/ (exists message attempt,
        memberFails w env p h message
        /\ (attempt = [] \/ exists buffer, attempt = [entryCall p buffer])
        /\ Main.addPhoto w env p h
           = (Ok tt, downloadCall env p :: attempt ++ [failureLine p message]))
  \/ (exists attempt,
        (attempt = [] \/ exists buffer, attempt = [entryCall p buffer])
        /\ ~ membersSettle w
        /\ Main.addPhoto w env p h = (Pending, downloadCall env p :: attempt)).
Proof.
  unfold Main.addPhoto, try_catch, bind, await, memberFails, context_error, emit.
  fold (downloadCall env p).
  destruct (on_getFileDownload w (h ++ [downloadCall env p])) as [buffer | m |] eqn:Hd.
  - fold (entryCall p buffer).
    destruct (on_append w ((h ++ [downloadCall env p]) ++ [entryCall p buffer]))
      as [[] | m |] eqn:Ha.
    + left. exists buffer. auto.
    + right. left. exists m, [entryCall p buffer]. repeat split; eauto.
    + right. right. exists [entryCall p buffer]. repeat split; eauto.
      intro Hs. now destruct (Hs ((h ++ [downloadCall env p]) ++ [entryCall p buffer])).
  - right. left. exists m, []. repeat split; auto.
  - right. right. exists []. repeat split; auto.
    intro Hs. now destruct (Hs (h ++ [downloadCall env p])).
Qed.

Lemma addPhoto_fails (p : photo) (h : list event) (message : string) :
  memberFails w env p h message ->
  exists attempt,
    filter isDownload attempt = []
    /\ Main.addPhoto w env p h
       = (Ok tt, downloadCall env p :: attempt ++ [failureLine p message]).
Proof.
  intro Hf.
  destruct (addPhoto_cases p h)
    as [(b & Hd & Ha & _) | [(m & attempt & Hm & Hat & E) | (attempt & Hat & _ & E)]].
  - exfalso. destruct Hf as [Hf | (b' & Hd' & Ha')]; congruence.
  - assert (m = message) as ->.
    { destruct Hf as [Hf | (b & Hd & Ha)]; destruct Hm as [Hm | (b' & Hd' & Ha')];
        congruence. }
    exists attempt. split; [|exact E].
    destruct Hat as [-> | (b & ->)]; reflexivity.
  - exfalso. revert E.
    unfold Main.addPhoto, try_catch, bind, await, context_error, emit.
    fold (downloadCall env p).
    destruct Hf as [-> | (b & -> & Ha)]; [discriminate|].
    fold (entryCall p b). rewrite Ha. discriminate.
Qed.

(** The member loop never throws: it ends normally, having asked for every
    member in order, or waits for a call that does not settle; and it does
    nothing but download, append and report. *)
Lemma forEach_addPhoto (chunk : list photo) : forall h,
  exists es,
    forallb isMemberEvent es = true
    /\ ((forEach chunk (Main.addPhoto w env) h = (Ok tt, es)
         /\ filter isDownload es = map (downloadCall env) chunk)
        \/ (forEach chunk (Main.addPhoto w env) h = (Pending, es)
            /\ ~ membersSettle w)).
Proof.
  induction chunk as [|p chunk IH]; intro h; simpl.
  - exists []. auto.
  - unfold bind.
    assert (Hp : exists es0,
               filter isDownload es0 = [] /\ forallb isMemberEvent es0 = true
               /\ (Main.addPhoto w env p h = (Ok tt, downloadCall env p :: es0)
                   \/ (Main.addPhoto w env p h = (Pending, downloadCall env p :: es0)
                       /\ ~ membersSettle w))).
    { destruct (addPhoto_cases p h)
        as [(b & _ & _ & E) | [(m & attempt & _ & Hat & E) | (attempt & Hat & Hn & E)]];
        rewrite E; eexists; (split; [|split; [|eauto]]).
      - reflexivity.
      - reflexivity.
      - destruct Hat as [-> | (b & ->)]; reflexivity.
      - destruct Hat as [-> | (b & ->)]; reflexivity.
      - destruct Hat as [-> | (b & ->)]; reflexivity.
      - destruct Hat as [-> | (b & ->)]; reflexivity. }
    destruct Hp as (es0 & Hnd & Hall & [-> | [-> Hn]]).
    + destruct (IH (h ++ downloadCall env p :: es0))
        as (es & Hall' & [[-> Hes] | [-> Hn]]);
        exists (downloadCall env p :: es0 ++ es);
        (split; [simpl; now rewrite forallb_app, Hall, Hall'|]).
      * left. split; [reflexivity|]. simpl. now rewrite filter_app, Hnd, Hes.
      * right. split; [reflexivity|exact Hn].
    + exists (downloadCall env p :: es0). split; [exact Hall|right; auto].
Qed.

Lemma forEach_addPhoto_settled (chunk : list photo) (h : list event) :
  membersSettle w ->
  exists es,
    forEach chunk (Main.addPhoto w env) h = (Ok tt, es)
    /\ filter isDownload es = map (downloadCall env) chunk
    /\ forallb isMemberEvent es = true.
Proof.
  intro Hs.
  destruct (forEach_addPhoto chunk h) as (es & Hall & [[E Hd] | [_ Hn]]);
    [eauto | now elim Hn].
Qed.

(** C6. In the member loop of src/main.js, when the download or the append
    of a member fails, the failure is written as an error line carrying the
    member's id and the error message, and the loop goes on: provided the
    calls made for the members settle, the members after it are all
    downloaded, in order, and the loop ends normally, so that neither the
    group's archive nor the run is aborted.  The error line is all that is
    kept of the failure: the loop returns nothing. *)
Theorem member_failure_is_logged_and_skipped (pre post : list photo) (p : photo)
    (h : list event) (message : string) :
  membersSettle w ->
  memberFails w env p (h ++ snd (forEach pre (Main.addPhoto w env) h)) message ->
  exists attempt rest,
    forEach (pre ++ p :: post) (Main.addPhoto w env) h
    = (Ok tt,
       snd (forEach pre (Main.addPhoto w env) h)
       ++ (downloadCall env p :: attempt ++ [failureLine p message])
       ++ rest)
    /\ filter isDownload attempt = []
    /\ filter isDownload rest = map (downloadCall env) post.
Proof.
  intros Hs Hf. rewrite forEach_app.
  destruct (forEach_addPhoto_settled pre h Hs) as (es1 & E1 & _ & _).
  rewrite E1 in *. simpl in Hf. simpl forEach. unfold bind.
  destruct (addPhoto_fails p (h ++ es1) message Hf) as (attempt & Hnd & ->).
  destruct (forEach_addPhoto_settled post
              ((h ++ es1) ++ downloadCall env p :: attempt ++ [failureLine p message]) Hs)
    as (rest & -> & Hrest & _).
  exists attempt, rest. auto.
Qed.

End Members.

Lemma member_failure_is_logged_and_skipped_witness :
  exists attempt rest,
    forEach ([ph "1" 1000] ++ ph "2" 1200 :: [ph "3" 100])
      (Main.addPhoto (exampleWorld "alice" None [] (String.eqb "f_2")) exampleEnv) []
    = (Ok tt,
       snd (forEach [ph "1" 1000]
              (Main.addPhoto (exampleWorld "alice" None [] (String.eqb "f_2")) exampleEnv) [])
       ++ (downloadCall exampleEnv (ph "2" 1200)
             :: attempt ++ [failureLine (ph "2" 1200) "File not found"])
       ++ rest)
    /\ filter isDownload attempt = []
    /\ filter isDownload rest = map (downloadCall exampleEnv) [ph "3" 100].
Proof.
  apply (member_failure_is_logged_and_skipped
           (exampleWorld "alice" None [] (String.eqb "f_2")) exampleEnv
           [ph "1" 1000] [ph "3" 100] (ph "2" 1200) [] "File not found").
  - intro h. unfold exampleWorld. cbn [on_getFileDownload on_append].
    split; [destruct (String.eqb "f_2" (lastFileId h))|]; discriminate.
  - left. reflexivity.
Defined.

(** The member loop hands nothing on: whether its member was fetched or
    failed, what the rest of the run is given is the same, and what differs
    is the error line. *)
Lemma member_failure_leaves_no_record :
  fst (forEach [ph "2" 1200]
         (Main.addPhoto (exampleWorld "alice" None [] (String.eqb "f_2")) exampleEnv) [])
  = fst (forEach [ph "2" 1200]
           (Main.addPhoto (exampleWorld "alice" None [] (fun _ => false)) exampleEnv) [])
  /\ snd (forEach [ph "2" 1200]
            (Main.addPhoto (exampleWorld "alice" None [] (String.eqb "f_2")) exampleEnv) [])
     = [downloadCall exampleEnv (ph "2" 1200);
        failureLine (ph "2" 1200) "File not found"].
Proof. split; reflexivity. Qed.

(** ** The groups (src/main.js) *)

Lemma filter_members (f : event -> bool) (es : list event) :
  forallb isMemberEvent es = true ->
  (forall e, isMemberEvent e = true -> f e = false) ->
  filter f es = [].
Proof.
  intros Hall Hf. induction es as [|e es IH]; simpl in *; auto.
  apply andb_prop in Hall as [He Hes]. now rewrite (Hf e He), IH.
Qed.

Lemma members_no_upload (es : list event) :
  forallb isMemberEvent es = true -> filter isUpload es = [].
Proof. intro H. apply filter_members; auto. now intros []. Qed.

Lemma members_no_record (es : list event) :
  forallb isMemberEvent es = true -> filter isRecord es = [].
Proof. intro H. apply filter_members; auto. now intros []. Qed.

Lemma members_no_finalize (es : list event) :
  forallb isMemberEvent es = true -> filter isFinalize es = [].
Proof. intro H. apply filter_members; auto. now intros []. Qed.

Section Groups.

Variable w : world.
Variable env : environment.
Variable eventDoc : eventDocument.
Variables currentUserId eventId : string.
Variable total : nat.

(** What the processing of one group does, call by call. *)
Lemma processChunk_cases (i : nat) (chunk : list photo) (h : list event) :
  exists members,
    forallb isMemberEvent members = true
    /\ ((forEach chunk (Main.addPhoto w env) (h ++ [Archiver_zip]) = (Pending, members)
         /\ ~ membersSettle w
         /\ Main.processChunk w env eventDoc currentUserId eventId total i chunk h
            = (Pending, Archiver_zip :: members))
        \/ (forEach chunk (Main.addPhoto w env) (h ++ [Archiver_zip]) = (Ok tt, members)
            /\ filter isDownload members = map (downloadCall env) chunk
            /\ let name := Main.zipFilename eventDoc total i in
               let h1 := h ++ Archiver_zip :: members ++ [Archive_finalize] in
               let h2 := h1 ++ [ZipStream_on_finish] in
               match on_finalize w h1 with
               | Reject m =>
                   Main.processChunk w env eventDoc currentUserId eventId total i chunk h
                   = (Throw m, Archiver_zip :: members ++ [Archive_finalize])
               | Never =>
                   Main.processChunk w env eventDoc currentUserId eventId total i chunk h
                   = (Pending, Archiver_zip :: members ++ [Archive_finalize])
               | Resolve zipBuffer =>
                   if on_finish w h2
                   then
                     let up := mainUpload env currentUserId i name (Date_now w h2)
                                 zipBuffer in
                     match on_createFile w (h2 ++ [up]) with
                     | Reject m =>
                         Main.processChunk w env eventDoc currentUserId eventId total i
                           chunk h
                         = (Throw m,
                            Archiver_zip :: members
                            ++ [Archive_finalize; ZipStream_on_finish; up])
                     | Never =>
                         Main.processChunk w env eventDoc currentUserId eventId total i
                           chunk h
                         = (Pending,
                            Archiver_zip :: members
                            ++ [Archive_finalize; ZipStream_on_finish; up])
                     | Resolve uploadedId =>
                         let rc := mainRecord env currentUserId eventId uploadedId name
                                     zipBuffer (List.length chunk) i total in
                         Main.processChunk w env eventDoc currentUserId eventId total i
                           chunk h
                         = (match on_createDocument w ((h2 ++ [up]) ++ [rc]) with
                            | Reject m => Throw m
                            | Never => Pending
                            | Resolve downloadDoc => Ok downloadDoc
                            end,
                            Archiver_zip :: members
                            ++ [Archive_finalize; ZipStream_on_finish; up; rc])
                     end
                   else
                     Main.processChunk w env eventDoc currentUserId eventId total i chunk h
                     = (Pending,
                        Archiver_zip :: members ++ [Archive_finalize; ZipStream_on_finish])
               end)).
Proof.
  destruct (forEach_addPhoto w env chunk (h ++ [Archiver_zip]))
    as (members & Hall & [[Hm Hd] | [Hm Hn]]);
    exists members; (split; [exact Hall|]).
  - right. split; [exact Hm|]. split; [exact Hd|].
    cbv zeta. unfold Main.processChunk.
    rewrite bind_emit, (bind_ok _ _ _ _ _ Hm), bind_await.
    replace (((h ++ [Archiver_zip]) ++ members) ++ [Archive_finalize])
      with (h ++ Archiver_zip :: members ++ [Archive_finalize])
      by (now rewrite <- !app_assoc).
    destruct (on_finalize w _) as [zipBuffer | m |]; [|reflexivity|reflexivity].
    rewrite bind_listen.
    destruct (on_finish w _); [|reflexivity].
    rewrite bind_pure, bind_await.
    fold (zipObject (Main.zipFilename eventDoc total i) zipBuffer).
    fold (zipMB zipBuffer).
    fold (mainUpload env currentUserId i (Main.zipFilename eventDoc total i)
            (Date_now w ((h ++ Archiver_zip :: members ++ [Archive_finalize])
                         ++ [ZipStream_on_finish])) zipBuffer).
    destruct (on_createFile w _) as [uploadedId | m |]; [|reflexivity|reflexivity].
    rewrite await_ret.
    fold (mainRecord env currentUserId eventId uploadedId
            (Main.zipFilename eventDoc total i) zipBuffer (List.length chunk) i total).
    destruct (on_createDocument w _) as [downloadDoc | m |]; reflexivity.
  - left. split; [exact Hm|]. split; [exact Hn|].
    unfold Main.processChunk.
    rewrite bind_emit, (bind_pending _ _ _ _ Hm). reflexivity.
Qed.

(** The calls of the processing of a group: those of its members, the
    archive, and the upload and the record of lines 210-239. *)
Lemma processChunk_calls (i : nat) (chunk : list photo) (h : list event) :
  Forall (groupCall env currentUserId eventId (Main.zipFilename eventDoc total i)
            (List.length chunk) i total)
    (snd (Main.processChunk w env eventDoc currentUserId eventId total i chunk h)).
Proof.
  assert (Hmem : forall es, forallb isMemberEvent es = true ->
            Forall (groupCall env currentUserId eventId
                      (Main.zipFilename eventDoc total i) (List.length chunk) i total) es).
  { intros es Hes. apply Forall_forall. intros e He. left.
    rewrite forallb_forall in Hes. auto. }
  assert (Hzip : forall e, e = Archiver_zip \/ e = Archive_finalize
                           \/ e = ZipStream_on_finish ->
            groupCall env currentUserId eventId
              (Main.zipFilename eventDoc total i) (List.length chunk) i total e).
  { intros e He. right. left. exact He. }
  assert (Hup : forall now zipBuffer,
            groupCall env currentUserId eventId
              (Main.zipFilename eventDoc total i) (List.length chunk) i total
              (mainUpload env currentUserId i (Main.zipFilename eventDoc total i)
                 now zipBuffer)).
  { intros now zipBuffer. right. right. left. eauto. }
  assert (Hrc : forall uploadedId zipBuffer,
            groupCall env currentUserId eventId
              (Main.zipFilename eventDoc total i) (List.length chunk) i total
              (mainRecord env currentUserId eventId uploadedId
                 (Main.zipFilename eventDoc total i) zipBuffer (List.length chunk)
                 i total)).
  { intros uploadedId zipBuffer. right. right. right. eauto. }
  destruct (processChunk_cases i chunk h)
    as (members & Hall & [(_ & _ & E) | (_ & _ & Hcases)]).
  - rewrite E. cbn [snd]. apply Forall_cons; auto.
  - cbv zeta in Hcases.
    destruct (on_finalize w _) as [zipBuffer | m |];
      [destruct (on_finish w _);
       [destruct (on_createFile w _) as [uploadedId | m |]|]| |];
      rewrite Hcases; cbn [snd]; (apply Forall_cons; [auto|]);
      apply Forall_app; (split; [auto|]);
      repeat first [apply Forall_nil
                   | apply Forall_cons; [first [apply Hup | apply Hrc | auto]|]].
Qed.

(** When the event [finish] is not heard, the processing of a group stops
    after the archive is finalized, at the latest: nothing is uploaded and
    nothing recorded. *)
Lemma processChunk_unheard (i : nat) (chunk : list photo) (h : list event) :
  finishUnheard w ->
  (forall downloadDoc,
     fst (Main.processChunk w env eventDoc currentUserId eventId total i chunk h)
     <> Ok downloadDoc)
  /\ filter isUpload
       (snd (Main.processChunk w env eventDoc currentUserId eventId total i chunk h)) = []
  /\ filter isRecord
       (snd (Main.processChunk w env eventDoc currentUserId eventId total i chunk h)) = [].
Proof.
  intro Hu.
  destruct (processChunk_cases i chunk h)
    as (members & Hall & [(_ & _ & E) | (_ & _ & Hcases)]).
  - rewrite E. cbn [fst snd].
    change (filter isUpload (Archiver_zip :: members)) with (filter isUpload members).
    change (filter isRecord (Archiver_zip :: members)) with (filter isRecord members).
    rewrite (members_no_upload _ Hall), (members_no_record _ Hall).
    repeat split. discriminate.
  - cbv zeta in Hcases. rewrite Hu in Hcases.
    destruct (on_finalize w _) as [zipBuffer | m |]; rewrite Hcases; cbn [fst snd];
      change (filter isUpload (Archiver_zip :: ?l)) with (filter isUpload l);
      change (filter isRecord (Archiver_zip :: ?l)) with (filter isRecord l);
      rewrite !filter_app, (members_no_upload _ Hall), (members_no_record _ Hall);
      repeat split; discriminate.
Qed.

Lemma processChunks_unheard (chunks : list (list photo)) (i : nat)
    (createdDownloads : list string) (h : list event) :
  finishUnheard w ->
  (chunks <> [] ->
   forall downloadIds,
     fst (Main.processChunks w env eventDoc currentUserId eventId total i chunks
            createdDownloads h) <> Ok downloadIds)
  /\ filter isUpload
       (snd (Main.processChunks w env eventDoc currentUserId eventId total i chunks
               createdDownloads h)) = []
  /\ filter isRecord
       (snd (Main.processChunks w env eventDoc currentUserId eventId total i chunks
               createdDownloads h)) = [].
Proof.
  intro Hu. destruct chunks as [|chunk chunks].
  - split; [intro H; now elim H|]. split; reflexivity.
  - destruct (processChunk_unheard i chunk h Hu) as (Hno & Hup & Hrec).
    cbn [Main.processChunks]. unfold bind.
    destruct (Main.processChunk w env eventDoc currentUserId eventId total i chunk h)
      as [[d | m | |] es]; cbn [fst snd] in *.
    + now elim (Hno d).
    + repeat split; auto. discriminate.
    + repeat split; auto. discriminate.
    + repeat split; auto. discriminate.
Qed.

End Groups.

(** The scenario of the specification: sizes 1000, 1200, 100 under a budget
    of 2048 give the groups [[1]; [2; 3]]. *)
Example chunkPhotos_scenario :
  Main.chunkPhotos Main.MAX_CHUNK_MB [ph "1" 1000; ph "2" 1200; ph "3" 100]
  = [[ph "1" 1000]; [ph "2" 1200; ph "3" 100]].
Proof. reflexivity. Qed.

Lemma oversized_is_singleton_witness :
  Main.chunkPhotos Main.MAX_CHUNK_MB ([ph "1" 1000] ++ ph "2" 5000 :: [ph "3" 100])
  = Main.chunkPhotos Main.MAX_CHUNK_MB [ph "1" 1000]
    ++ [ph "2" 5000] :: Main.chunkPhotos Main.MAX_CHUNK_MB [ph "3" 100].
Proof.
  apply (oversized_is_singleton Main.MAX_CHUNK_MB [ph "1" 1000] [ph "3" 100]
           (ph "2" 5000)).
  - repeat constructor; unfold nonNegative, Qle; simpl; lia.
  - reflexivity.
Defined.

(** ** Stepping through the streaming revision *)

Lemma Sbind_ok {A B : Type} (m : Streaming.SM A) (k : A -> Streaming.SM B)
    (v v' : Streaming.vars) (h es : list event) (a : A) :
  m v h = (Ok a, v', es) ->
  Streaming.Sbind m k v h
  = (fst (k a v' (h ++ es)), es ++ snd (k a v' (h ++ es))).
Proof.
  unfold Streaming.Sbind. intros ->.
  now destruct (k a v' (h ++ es)) as [[r v''] es'].
Qed.

Lemma Sbind_throw {A B : Type} (m : Streaming.SM A) (k : A -> Streaming.SM B)
    (v v' : Streaming.vars) (h es : list event) (message : string) :
  m v h = (Throw message, v', es) ->
  Streaming.Sbind m k v h = (Throw message, v', es).
Proof. unfold Streaming.Sbind. now intros ->. Qed.

Lemma Sbind_pending {A B : Type} (m : Streaming.SM A) (k : A -> Streaming.SM B)
    (v v' : Streaming.vars) (h es : list event) :
  m v h = (Pending, v', es) ->
  Streaming.Sbind m k v h = (Pending, v', es).
Proof. unfold Streaming.Sbind. now intros ->. Qed.

Lemma Sbind_await {A B : Type} (e : event) (oracle : list event -> answer A)
    (k : A -> Streaming.SM B) (v : Streaming.vars) (h : list event) :
  Streaming.Sbind (Streaming.lift (await e oracle)) k v h
  = match oracle (h ++ [e]) with
    | Resolve a => (fst (k a v (h ++ [e])), e :: snd (k a v (h ++ [e])))
    | Reject message => (Throw message, v, [e])
    | Never => (Pending, v, [e])
    end.
Proof.
  unfold Streaming.Sbind, Streaming.lift, await.
  destruct (oracle (h ++ [e])); [|reflexivity|reflexivity].
  now destruct (k a v (h ++ [e])) as [[r v''] es'].
Qed.

Lemma Sbind_archiverCall {A B : Type} (w : world) (e : event)
    (oracle : list event -> answer A) (k : A -> Streaming.SM B)
    (v : Streaming.vars) (h : list event) :
  Streaming.Sbind (Streaming.lift (Streaming.archiverCall w e oracle)) k v h
  = match oracle (h ++ [e]) with
    | Resolve a => (fst (k a v (h ++ [e])), e :: snd (k a v (h ++ [e])))
    | Reject message => (Throw message, v, e :: announcement w (h ++ [e]) message)
    | Never => (Pending, v, [e])
    end.
Proof.
  unfold Streaming.Sbind, Streaming.lift, Streaming.archiverCall, announcement.
  destruct (oracle (h ++ [e])); [| |reflexivity].
  - now destruct (k a v (h ++ [e])) as [[r v''] es'].
  - now destruct (emits_error w (h ++ [e])).
Qed.

Lemma Sbind_listen {B : Type} (e : event) (fires : list event -> bool)
    (k : unit -> Streaming.SM B) (v : Streaming.vars) (h : list event) :
  Streaming.Sbind (Streaming.lift (listen e fires)) k v h
  = if fires (h ++ [e])
    then (fst (k tt v (h ++ [e])), e :: snd (k tt v (h ++ [e])))
    else (Pending, v, [e]).
Proof.
  unfold Streaming.Sbind, Streaming.lift, listen.
  destruct (fires (h ++ [e])); [|reflexivity].
  now destruct (k tt v (h ++ [e])) as [[r v''] es'].
Qed.

Lemma Sbind_emit {B : Type} (e : event) (k : unit -> Streaming.SM B)
    (v : Streaming.vars) (h : list event) :
  Streaming.Sbind (Streaming.lift (emit e)) k v h
  = (fst (k tt v (h ++ [e])), e :: snd (k tt v (h ++ [e]))).
Proof. now rewrite (Sbind_ok _ _ v v h [e] tt). Qed.

Lemma Sbind_pure {A B : Type} (f : list event -> A) (k : A -> Streaming.SM B)
    (v : Streaming.vars) (h : list event) :
  Streaming.Sbind (Streaming.lift (fun h => (Ok (f h), []))) k v h = k (f h) v h.
Proof.
  unfold Streaming.Sbind, Streaming.lift. rewrite app_nil_r.
  now destruct (k (f h) v h) as [[r v''] es'].
Qed.

Lemma Sbind_get {B : Type} (k : Streaming.vars -> Streaming.SM B)
    (v : Streaming.vars) (h : list event) :
  Streaming.Sbind Streaming.get k v h = k v v h.
Proof.
  unfold Streaming.Sbind, Streaming.get. rewrite app_nil_r.
  now destruct (k v v h) as [[r v''] es'].
Qed.

Lemma Sbind_modify {B : Type} (f : Streaming.vars -> Streaming.vars)
    (k : unit -> Streaming.SM B) (v : Streaming.vars) (h : list event) :
  Streaming.Sbind (Streaming.modify f) k v h = k tt (f v) h.
Proof.
  unfold Streaming.Sbind, Streaming.modify. rewrite app_nil_r.
  now destruct (k tt (f v) h) as [[r v''] es'].
Qed.

Lemma prefix_app (s x : string) : String.prefix s (s ++ x) = true.
Proof.
  induction s as [|c s IH]; simpl.
  - now destruct x.
  - destruct (ascii_dec c c) as [_ | Hne]; [exact IH|now elim Hne].
Qed.

Lemma failureLine_kept (f : Streaming.failure) :
  filter isFailureLine [streamFailureLine f] = [streamFailureLine f].
Proof.
  unfold streamFailureLine. cbn [filter isFailureLine]. now rewrite prefix_app.
Qed.

Lemma announcement_quiet (w : world) (h : list event) (message : string) :
  filter isFailureLine (announcement w h message) = []
  /\ filter isUpload (announcement w h message) = []
  /\ filter isRecord (announcement w h message) = []
  /\ filter isFinalize (announcement w h message) = []
  /\ filter isDownload (announcement w h message) = [].
Proof. unfold announcement. destruct (emits_error w h); repeat split. Qed.

Section Archives.

Variable w : world.
Variable env : environment.
Variable eventDoc : eventDocument.
Variables currentUserId eventId : string.

(** What [finalizeAndUploadZip] does, call by call. *)
Lemma finalizeAndUploadZip_cases (v : Streaming.vars) (h : list event) :
  let name := Streaming.zipFilename eventDoc (Streaming.zipIndex v) in
  let h1 := h ++ [Archive_finalize] in
  let h2 := h1 ++ [ZipStream_on_finish] in
  match on_finalize w h1 with
  | Reject m =>
      Streaming.finalizeAndUploadZip w env eventDoc currentUserId eventId v h
      = (Throw m, v, Archive_finalize :: announcement w h1 m)
  | Never =>
      Streaming.finalizeAndUploadZip w env eventDoc currentUserId eventId v h
      = (Pending, v, [Archive_finalize])
  | Resolve zipBuffer =>
      if on_finish w h2
      then
        let up := streamUpload env currentUserId eventId (Streaming.zipIndex v) name
                    (Date_now w h2) zipBuffer in
        match on_createFile w (h2 ++ [up]) with
        | Reject m =>
            Streaming.finalizeAndUploadZip w env eventDoc currentUserId eventId v h
            = (Throw m, v, [Archive_finalize; ZipStream_on_finish; up])
        | Never =>
            Streaming.finalizeAndUploadZip w env eventDoc currentUserId eventId v h
            = (Pending, v, [Archive_finalize; ZipStream_on_finish; up])
        | Resolve uploadedId =>
            let rc := streamRecord env currentUserId eventId uploadedId name zipBuffer
                        (Streaming.currentZipFileCount v) (Streaming.zipIndex v)
                        (Date_now w (h2 ++ [up])) in
            match on_createDocument w ((h2 ++ [up]) ++ [rc]) with
            | Reject m =>
                Streaming.finalizeAndUploadZip w env eventDoc currentUserId eventId v h
                = (Throw m, v, [Archive_finalize; ZipStream_on_finish; up; rc])
            | Never =>
                Streaming.finalizeAndUploadZip w env eventDoc currentUserId eventId v h
                = (Pending, v, [Archive_finalize; ZipStream_on_finish; up; rc])
            | Resolve dlDoc =>
                Streaming.finalizeAndUploadZip w env eventDoc currentUserId eventId v h
                = (Ok tt, afterUpload v dlDoc uploadedId name zipBuffer,
                   [Archive_finalize; ZipStream_on_finish; up; rc])
            end
        end
      else
        Streaming.finalizeAndUploadZip w env eventDoc currentUserId eventId v h
        = (Pending, v, [Archive_finalize; ZipStream_on_finish])
  end.
Proof.
  cbv zeta. unfold Streaming.finalizeAndUploadZip.
  rewrite Sbind_archiverCall.
  destruct (on_finalize w _) as [zipBuffer | m |]; [|reflexivity|reflexivity].
  rewrite Sbind_listen.
  destruct (on_finish w _); [|reflexivity].
  rewrite Sbind_get, Sbind_pure, Sbind_await.
  fold (zipObject (Streaming.zipFilename eventDoc (Streaming.zipIndex v)) zipBuffer).
  fold (zipMB zipBuffer).
  fold (streamUpload env currentUserId eventId (Streaming.zipIndex v)
          (Streaming.zipFilename eventDoc (Streaming.zipIndex v))
          (Date_now w ((h ++ [Archive_finalize]) ++ [ZipStream_on_finish])) zipBuffer).
  destruct (on_createFile w _) as [uploadedId | m |]; [|reflexivity|reflexivity].
  rewrite Sbind_pure, Sbind_await.
  match goal with
  | |- context [Databases_createDocument ?a ?b ?c ?d ?e] =>
      change (Databases_createDocument a b c d e)
        with (streamRecord env currentUserId eventId uploadedId
                (Streaming.zipFilename eventDoc (Streaming.zipIndex v)) zipBuffer
                (Streaming.currentZipFileCount v) (Streaming.zipIndex v)
                (Date_now w (((h ++ [Archive_finalize]) ++ [ZipStream_on_finish]) ++
                   [streamUpload env currentUserId eventId (Streaming.zipIndex v)
                      (Streaming.zipFilename eventDoc (Streaming.zipIndex v))
                      (Date_now w ((h ++ [Archive_finalize]) ++ [ZipStream_on_finish]))
                      zipBuffer])))
  end.
  destruct (on_createDocument w _) as [dlDoc | m |]; reflexivity.
Qed.

(** The outcomes of [finalizeAndUploadZip], without the calls. *)
Lemma finalizeAndUploadZip_outcomes (v : Streaming.vars) (h : list event) :
  (exists dlDoc uploadedId zipBuffer es,
     Streaming.finalizeAndUploadZip w env eventDoc currentUserId eventId v h
     = (Ok tt,
        afterUpload v dlDoc uploadedId
          (Streaming.zipFilename eventDoc (Streaming.zipIndex v)) zipBuffer, es)
     /\ filter isFailureLine es = []
     /\ exists h', on_finish w h' = true)
  \/ (exists r es,
        Streaming.finalizeAndUploadZip w env eventDoc currentUserId eventId v h
        = (r, v, es)
        /\ (forall a, r <> Ok a) /\ r <> OutOfFuel
        /\ filter isFailureLine es = []).
Proof.
  pose proof (finalizeAndUploadZip_cases v h) as Hc. cbv zeta in Hc.
  destruct (on_finalize w _) as [zipBuffer | m |];
    [destruct (on_finish w _) eqn:Hf;
     [destruct (on_createFile w _) as [uploadedId | m |];
      [destruct (on_createDocument w _) as [dlDoc | m |]| |]|]| |];
    rewrite Hc;
    try (left; do 4 eexists; split; [reflexivity|]; split; [reflexivity|eauto]);
    right; do 2 eexists; (split; [reflexivity|]);
    (split; [discriminate|]); (split; [discriminate|]);
    try reflexivity.
  cbn [filter isFailureLine]. apply announcement_quiet.
Qed.

(** *** Bookkeeping of the failures *)

Ltac tracks_done :=
  (split; [|split; [|split; [|split; [|split; [|split]]]]]);
  intros; eauto; try lia; try discriminate; try congruence.

Lemma tracks_ret {A : Type} (a : A) : tracks eventDoc 0 0 (Streaming.Sret a).
Proof.
  intros v h. exists []. simpl. rewrite app_nil_r, Nat.add_0_r.
  tracks_done.
Qed.

Lemma tracks_get : tracks eventDoc 0 0 Streaming.get.
Proof.
  intros v h. exists []. simpl. rewrite app_nil_r, Nat.add_0_r.
  tracks_done.
Qed.

Lemma tracks_modify (f : Streaming.vars -> Streaming.vars) (np : nat) :
  (forall v, Streaming.failedPhotos (f v) = Streaming.failedPhotos v) ->
  (forall v, Streaming.totalProcessed (f v) = (Streaming.totalProcessed v + np)%nat) ->
  (forall v, named eventDoc v -> named eventDoc (f v)) ->
  tracks eventDoc 0 np (Streaming.modify f).
Proof.
  intros Hf Hp Hn v h. exists []. simpl. rewrite app_nil_r.
  pose proof (Hp v). tracks_done.
Qed.

Lemma tracks_await {A : Type} (e : event) (oracle : list event -> answer A) :
  isFailureLine e = false -> tracks eventDoc 0 0 (Streaming.lift (await e oracle)).
Proof.
  intros He v h. exists []. unfold Streaming.lift, await.
  destruct (oracle (h ++ [e])); simpl; rewrite He, app_nil_r, Nat.add_0_r;
    tracks_done.
Qed.

Lemma tracks_archiverCall {A : Type} (e : event) (oracle : list event -> answer A) :
  isFailureLine e = false ->
  tracks eventDoc 0 0 (Streaming.lift (Streaming.archiverCall w e oracle)).
Proof.
  intros He v h. exists []. unfold Streaming.lift, Streaming.archiverCall.
  destruct (oracle (h ++ [e])); [| destruct (emits_error w (h ++ [e])) |];
    simpl; rewrite He, app_nil_r, Nat.add_0_r; tracks_done.
Qed.

Lemma tracks_emit (e : event) :
  isFailureLine e = false -> tracks eventDoc 0 0 (Streaming.lift (emit e)).
Proof.
  intros He v h. exists []. simpl. rewrite He, app_nil_r, Nat.add_0_r.
  tracks_done.
Qed.

Lemma tracks_bind {A B : Type} (nf nf' np np' : nat) (m : Streaming.SM A)
    (k : A -> Streaming.SM B) :
  tracks eventDoc nf np m ->
  (forall a, tracks eventDoc nf' np' (k a)) ->
  tracks eventDoc (nf + nf') (np + np') (Streaming.Sbind m k).
Proof.
  intros Hm Hk v h.
  destruct (Hm v h) as (fl & Herr & Hfail & Hlen & Hcount & Hbound & Hfuel & Hnamed).
  destruct (m v h) as [[r v'] es] eqn:E. simpl in *.
  destruct r as [a | e | |]; [| | |now elim Hfuel].
  - rewrite (Sbind_ok _ _ _ _ _ _ _ E).
    destruct (Hk a v' (h ++ es))
      as (fl' & Herr' & Hfail' & Hlen' & Hcount' & Hbound' & Hfuel' & Hnamed').
    pose proof (Hcount a eq_refl) as Hca.
    exists (fl ++ fl'). simpl.
    rewrite filter_app, Herr, Herr', map_app, Hfail', Hfail, app_assoc, length_app.
    tracks_done.
    match goal with Hb : _ = Ok _ |- _ => rewrite (Hcount' _ Hb) end.
    lia.
  - rewrite (Sbind_throw _ _ _ _ _ _ _ E). exists fl. simpl.
    tracks_done.
  - rewrite (Sbind_pending _ _ _ _ _ _ E). exists fl. simpl.
    tracks_done.
Qed.

Lemma tracks_then {A B : Type} (nf np : nat) (m : Streaming.SM A)
    (k : A -> Streaming.SM B) :
  tracks eventDoc nf np m ->
  (forall a, tracks eventDoc 0 0 (k a)) ->
  tracks eventDoc nf np (Streaming.Sbind m k).
Proof.
  intros Hm Hk.
  pose proof (tracks_bind nf 0 np 0 m k Hm Hk) as H.
  now rewrite !Nat.add_0_r in H.
Qed.

Lemma named_afterUpload (v : Streaming.vars) (dlDoc uploadedId : string)
    (zipBuffer : Buffer) :
  named eventDoc v ->
  named eventDoc
    (afterUpload v dlDoc uploadedId
       (Streaming.zipFilename eventDoc (Streaming.zipIndex v)) zipBuffer).
Proof.
  intros [Hidx Hnames]. unfold named, afterUpload. simpl.
  rewrite length_app, map_app, Hnames, seq_app, map_app, Hidx. simpl.
  split; [lia|]. reflexivity.
Qed.

Lemma tracks_finalizeAndUploadZip :
  tracks eventDoc 0 0
    (Streaming.finalizeAndUploadZip w env eventDoc currentUserId eventId).
Proof.
  intros v h. exists [].
  destruct (finalizeAndUploadZip_outcomes v h)
    as [(dlDoc & uploadedId & zipBuffer & es & E & Hq & _)
       | (r & es & E & Hno & Hfuel & Hq)];
    rewrite E; cbn [fst snd]; rewrite Hq, app_nil_r, ?Nat.add_0_r.
  - cbn [afterUpload Streaming.failedPhotos Streaming.totalProcessed].
    tracks_done; try (now apply named_afterUpload).
  - tracks_done; try (now elim (Hno a)).
Qed.

Lemma tracks_startZip : tracks eventDoc 0 0 Streaming.startZip.
Proof.
  unfold Streaming.startZip.
  apply (tracks_bind 0 0 0 0); [now apply tracks_emit|].
  intros _. apply tracks_modify; auto.
Qed.

(** One photo: counted once, and reported once if anything in its try block
    throws. *)
Lemma tracks_processPhoto (p : photo) :
  tracks eventDoc 1 1
    (Streaming.processPhoto w env eventDoc currentUserId eventId p).
Proof.
  unfold Streaming.processPhoto.
  apply (tracks_bind 0 1 1 0).
  { apply tracks_modify; auto. }
  intros _ v h. unfold Streaming.Stry_catch.
  match goal with
  | |- context [match ?body v h with _ => _ end] =>
      assert (Hbody : tracks eventDoc 0 0 body)
  end.
  { apply (tracks_bind 0 0 0 0); [apply tracks_get|]. intro v0.
    apply (tracks_bind 0 0 0 0).
    { destruct (_ && _).
      - apply (tracks_bind 0 0 0 0); [apply tracks_finalizeAndUploadZip|].
        intros _. apply tracks_startZip.
      - apply tracks_ret. }
    intros _. apply (tracks_bind 0 0 0 0); [now apply tracks_await|].
    intro buffer. apply (tracks_bind 0 0 0 0); [now apply tracks_archiverCall|].
    intros _. apply tracks_modify; auto. }
  destruct (Hbody v h) as (fl & Herr & Hfail & Hlen & Hcount & Hbound & Hfuel & Hnamed).
  destruct fl as [|f fl]; [|simpl in Hlen; lia].
  match goal with
  | |- context [match ?body v h with _ => _ end] =>
      destruct (body v h) as [[r v'] es] eqn:E
  end.
  cbn [fst snd map] in *. rewrite app_nil_r in Hfail.
  destruct r as [[] | message | |]; [| | |now elim Hfuel].
  - exists []. cbn [fst snd map]. rewrite app_nil_r. tracks_done.
  - unfold context_error. rewrite Sbind_emit. cbn [fst snd Streaming.modify].
    exists [failureOf p message].
    match goal with
    | |- context [Context_error [?line]] =>
        change (Context_error [line]) with (streamFailureLine (failureOf p message))
    end.
    rewrite filter_app, Herr, failureLine_kept.
    cbn [Streaming.failedPhotos Streaming.totalProcessed app].
    rewrite Hfail.
    split; [reflexivity|]. split; [reflexivity|].
    split; [simpl; lia|]. split; [intros; lia|].
    split; [lia|]. split; [discriminate|].
    intro Hn. specialize (Hnamed Hn). exact Hnamed.
  - exists []. cbn [fst snd map]. rewrite app_nil_r. tracks_done.
Qed.

(** The loop over the photos. *)
Lemma tracks_SforEach (photos : list photo) :
  tracks eventDoc (List.length photos) (List.length photos)
    (Streaming.SforEach photos
       (Streaming.processPhoto w env eventDoc currentUserId eventId)).
Proof.
  induction photos as [|p photos IH]; simpl.
  - apply tracks_ret.
  - apply (tracks_bind 1 _ 1 _); [apply tracks_processPhoto|].
    intros _. exact IH.
Qed.

Lemma tracks_archiveAll (photos : list photo) :
  tracks eventDoc (List.length photos) (List.length photos)
    (Streaming.archiveAll w env eventDoc currentUserId eventId photos).
Proof.
  unfold Streaming.archiveAll.
  apply (tracks_bind 0 _ 0 _); [apply tracks_startZip|]. intros _.
  apply tracks_then; [apply tracks_SforEach|]. intros _.
  apply (tracks_bind 0 0 0 0); [apply tracks_get|]. intro v.
  destruct (0 <? _)%nat; [apply tracks_finalizeAndUploadZip|apply tracks_ret].
Qed.

(** *** Bookkeeping of the photos *)

Ltac moves_done :=
  (split; [|split; [|split; [|split]]]);
  intros; eauto; try lia; try discriminate; try congruence.

Lemma moves_ret {A : Type} (a : A) : moves 0 (Streaming.Sret a).
Proof. intros v h. simpl. moves_done. Qed.

Lemma moves_get : moves 0 Streaming.get.
Proof. intros v h. simpl. moves_done. Qed.

Lemma moves_lift {A : Type} (m : M A) : 
  (forall h, fst (m h) <> OutOfFuel) -> moves 0 (Streaming.lift m).
Proof.
  intros Hm v h. unfold Streaming.lift. specialize (Hm h).
  destruct (m h) as [r es]. simpl in *. moves_done.
Qed.

Lemma moves_await {A : Type} (e : event) (oracle : list event -> answer A) :
  moves 0 (Streaming.lift (await e oracle)).
Proof.
  apply moves_lift. intro h. unfold await.
  destruct (oracle (h ++ [e])); discriminate.
Qed.

Lemma moves_archiverCall {A : Type} (e : event) (oracle : list event -> answer A) :
  moves 0 (Streaming.lift (Streaming.archiverCall w e oracle)).
Proof.
  apply moves_lift. intro h. unfold Streaming.archiverCall.
  destruct (oracle (h ++ [e])); [|destruct (emits_error w (h ++ [e]))|]; discriminate.
Qed.

Lemma moves_modify (f : Streaming.vars -> Streaming.vars) (d : nat) :
  (forall v, accounted (f v) = (accounted v + d)%nat) ->
  (forall v, Streaming.failedPhotos (f v) = Streaming.failedPhotos v) ->
  (forall v, Streaming.totalProcessed (f v) = Streaming.totalProcessed v) ->
  moves d (Streaming.modify f).
Proof. intros Ha Hf Hp v h. simpl. moves_done. Qed.

Lemma moves_bind {A B : Type} (d : nat) (m : Streaming.SM A)
    (k : A -> Streaming.SM B) :
  moves 0 m -> (forall a, moves d (k a)) -> moves d (Streaming.Sbind m k).
Proof.
  intros Hm Hk v h.
  destruct (Hm v h) as (Hok & Hthrow & Hfuel & Hfail & Hcount).
  destruct (m v h) as [[r v'] es] eqn:E. simpl in *.
  destruct r as [a | e | |]; [| | |now elim Hfuel].
  - rewrite (Sbind_ok _ _ _ _ _ _ _ E). simpl.
    destruct (Hk a v' (h ++ es)) as (Hok' & Hthrow' & Hfuel' & Hfail' & Hcount').
    specialize (Hok a eq_refl). rewrite Nat.add_0_r in Hok.
    moves_done.
    + rewrite (Hok' _ H); lia.
    + rewrite (Hthrow' _ H); lia.
  - rewrite (Sbind_throw _ _ _ _ _ _ _ E). simpl.
    moves_done.
  - rewrite (Sbind_pending _ _ _ _ _ _ E). simpl.
    moves_done.
Qed.

(** Cutting the archive moves the photos of the open archive into the list
    of archives made. *)
Lemma moves_cut :
  moves 0
    (Streaming.Sbind
       (Streaming.finalizeAndUploadZip w env eventDoc currentUserId eventId)
       (fun _ => Streaming.startZip)).
Proof.
  intros v h.
  destruct (finalizeAndUploadZip_outcomes v h)
    as [(dlDoc & uploadedId & zipBuffer & es & E & _ & _)
       | (r & es & E & Hno & Hfuel & _)].
  - rewrite (Sbind_ok _ _ _ _ _ _ _ E).
    unfold Streaming.startZip. rewrite Sbind_emit. simpl.
    unfold accounted. simpl. rewrite map_app, list_sum_app. simpl.
    moves_done.
  - destruct r as [a | m | |]; [now elim (Hno a)| | |now elim Hfuel].
    + rewrite (Sbind_throw _ _ _ _ _ _ _ E). simpl. moves_done.
    + rewrite (Sbind_pending _ _ _ _ _ _ E). simpl. moves_done.
Qed.

(** One photo ends in the open archive or in the failure list, unless the
    run waits for a call made for it. *)
Lemma processPhoto_balanced (p : photo) (v : Streaming.vars) (h : list event) :
  (fst (fst (Streaming.processPhoto w env eventDoc currentUserId eventId p v h)) = Ok tt
   /\ (balanced v ->
       balanced (snd (fst (Streaming.processPhoto w env eventDoc currentUserId eventId
                             p v h)))))
  \/ fst (fst (Streaming.processPhoto w env eventDoc currentUserId eventId p v h))
     = Pending.
Proof.
  unfold Streaming.processPhoto. rewrite Sbind_modify. unfold Streaming.Stry_catch.
  match goal with
  | |- context [match ?body ?v1 h with _ => _ end] =>
      assert (Hbody : moves 1 body);
      [|destruct (Hbody v1 h) as (Hok & Hthrow & Hfuel & Hfail & Hcount);
        destruct (body v1 h) as [[r v'] es] eqn:E]
  end.
  { apply moves_bind; [apply moves_get|]. intro v0.
    apply moves_bind.
    { destruct (_ && _); [apply moves_cut|apply moves_ret]. }
    intros _. apply moves_bind; [apply moves_await|].
    intro buffer. apply moves_bind; [apply moves_archiverCall|].
    intros _. apply moves_modify; auto.
    intro v1. unfold accounted. simpl. lia. }
  simpl in Hok, Hthrow, Hfuel, Hfail, Hcount.
  destruct r as [[] | message | |]; [| | |now elim Hfuel].
  - left. split; [reflexivity|].
    unfold balanced. intro Hb. cbn [fst snd].
    rewrite (Hok tt eq_refl), Hfail, Hcount. unfold accounted in *. simpl. lia.
  - left. unfold context_error. rewrite Sbind_emit. cbn [fst snd Streaming.modify].
    split; [reflexivity|].
    unfold balanced. intro Hb. unfold accounted in *. simpl.
    rewrite Hfail, Hcount, length_app. simpl.
    specialize (Hthrow message eq_refl). simpl in Hthrow. lia.
  - right. reflexivity.
Qed.

Lemma SforEach_balanced (photos : list photo) : forall v h,
  (fst (fst (Streaming.SforEach photos
               (Streaming.processPhoto w env eventDoc currentUserId eventId) v h))
   = Ok tt
   /\ (balanced v ->
       balanced (snd (fst (Streaming.SforEach photos
                             (Streaming.processPhoto w env eventDoc currentUserId eventId)
                             v h)))))
  \/ fst (fst (Streaming.SforEach photos
                 (Streaming.processPhoto w env eventDoc currentUserId eventId) v h))
     = Pending.
Proof.
  induction photos as [|p photos IH]; intros v h; cbn [Streaming.SforEach].
  - left. split; [reflexivity|auto].
  - destruct (processPhoto_balanced p v h) as [[E1 H1] | E1];
      destruct (Streaming.processPhoto w env eventDoc currentUserId eventId p v h)
        as [[r v1] es1] eqn:E; cbn [fst snd] in *; subst r.
    + rewrite (Sbind_ok _ _ _ _ _ _ _ E). cbn [fst snd].
      destruct (IH v1 (h ++ es1)) as [[E2 H2] | E2].
      * left. split; [exact E2|auto].
      * right. exact E2.
    + right. now rewrite (Sbind_pending _ _ _ _ _ _ E).
Qed.

(** When all the photos have been handled and the last archive is made, the
    archives and the failure list share out the photos. *)
Lemma archiveAll_accounts (photos : list photo) (h : list event)
    (v' : Streaming.vars) (es : list event) :
  Streaming.archiveAll w env eventDoc currentUserId eventId photos
    Streaming.vars_init h = (Ok tt, v', es) ->
  (list_sum (map Streaming.dl_photoCount (Streaming.createdDownloads v'))
   + List.length (Streaming.failedPhotos v'))%nat
  = Streaming.totalProcessed v'.
Proof.
  unfold Streaming.archiveAll, Streaming.startZip.
  rewrite Sbind_ok with (a := tt) (v' := Streaming.vars_init) (es := [Archiver_zip])
    by reflexivity.
  destruct (SforEach_balanced photos Streaming.vars_init (h ++ [Archiver_zip]))
    as [[E1 Hb] | E1];
    destruct (Streaming.SforEach photos _ Streaming.vars_init (h ++ [Archiver_zip]))
      as [[r v1] es1] eqn:E; cbn [fst snd] in *; subst r;
    [|rewrite (Sbind_pending _ _ _ _ _ _ E); discriminate].
  rewrite (Sbind_ok _ _ _ _ _ _ _ E), Sbind_get.
  assert (Hb1 : balanced v1) by (apply Hb; reflexivity).
  unfold balanced, accounted in Hb1.
  destruct (0 <? Streaming.currentZipFileCount v1)%nat eqn:Hcount.
  - destruct (finalizeAndUploadZip_outcomes v1 ((h ++ [Archiver_zip]) ++ es1))
      as [(dlDoc & uploadedId & zipBuffer & es2 & E2 & _ & _)
         | (r & es2 & E2 & Hno & _ & _)];
      rewrite E2; cbn [fst snd].
    + intros [= <- _]. simpl. rewrite map_app, list_sum_app. simpl. lia.
    + intros [= -> _]. now elim (Hno tt).
  - apply Nat.ltb_ge in Hcount. simpl. intros [= <- _]. lia.
Qed.

(** *** What a run leaves alone *)

Lemma preserves_bind {A B : Type} (I : Streaming.vars -> Prop) (f : event -> bool)
    (m : Streaming.SM A) (k : A -> Streaming.SM B) :
  preserves I f m -> (forall a, preserves I f (k a)) ->
  preserves I f (Streaming.Sbind m k).
Proof.
  intros Hm Hk v h Hv. destruct (Hm v h Hv) as [HI Hf].
  destruct (m v h) as [[[a | e | |] v'] es] eqn:E; cbn [fst snd] in HI, Hf.
  - rewrite (Sbind_ok _ _ _ _ _ _ _ E). cbn [fst snd].
    destruct (Hk a v' (h ++ es) HI) as [HI' Hf'].
    split; [exact HI'|]. now rewrite filter_app, Hf, Hf'.
  - rewrite (Sbind_throw _ _ _ _ _ _ _ E). auto.
  - rewrite (Sbind_pending _ _ _ _ _ _ E). auto.
  - unfold Streaming.Sbind. rewrite E. auto.
Qed.

Lemma preserves_lift {A : Type} (I : Streaming.vars -> Prop) (f : event -> bool)
    (m : M A) :
  (forall h, filter f (snd (m h)) = []) -> preserves I f (Streaming.lift m).
Proof.
  intros Hm v h Hv. unfold Streaming.lift. specialize (Hm h).
  destruct (m h) as [r es]. auto.
Qed.

Lemma preserves_await {A : Type} (I : Streaming.vars -> Prop) (f : event -> bool)
    (e : event) (oracle : list event -> answer A) :
  f e = false -> preserves I f (Streaming.lift (await e oracle)).
Proof.
  intro He. apply preserves_lift. intro h. unfold await.
  destruct (oracle (h ++ [e])); cbn [snd filter]; now rewrite He.
Qed.

Lemma preserves_archiverCall {A : Type} (I : Streaming.vars -> Prop) (f : event -> bool)
    (e : event) (oracle : list event -> answer A) :
  f e = false -> (forall message, f (archiveErrorLine message) = false) ->
  preserves I f (Streaming.lift (Streaming.archiverCall w e oracle)).
Proof.
  intros He Hline. apply preserves_lift. intro h. unfold Streaming.archiverCall.
  destruct (oracle (h ++ [e])) as [a | m |];
    [|destruct (emits_error w (h ++ [e]))|];
    cbn [snd filter]; rewrite He; try reflexivity.
  fold (archiveErrorLine m). now rewrite Hline.
Qed.

Lemma preserves_emit (I : Streaming.vars -> Prop) (f : event -> bool) (e : event) :
  f e = false -> preserves I f (Streaming.lift (emit e)).
Proof.
  intro He. apply preserves_lift. intro h. cbn [emit snd filter]. now rewrite He.
Qed.

Lemma preserves_modify (I : Streaming.vars -> Prop) (f : event -> bool)
    (g : Streaming.vars -> Streaming.vars) :
  (forall v, I v -> I (g v)) -> preserves I f (Streaming.modify g).
Proof. intros Hg v h Hv. split; [now apply Hg|reflexivity]. Qed.

Lemma preserves_ret {A : Type} (I : Streaming.vars -> Prop) (f : event -> bool) (a : A) :
  preserves I f (Streaming.Sret a).
Proof. intros v h Hv. auto. Qed.

Lemma preserves_get (I : Streaming.vars -> Prop) (f : event -> bool) :
  preserves I f Streaming.get.
Proof. intros v h Hv. auto. Qed.

Lemma preserves_try {A : Type} (I : Streaming.vars -> Prop) (f : event -> bool)
    (m : Streaming.SM A) (handler : string -> Streaming.SM A) :
  preserves I f m -> (forall message, preserves I f (handler message)) ->
  preserves I f (Streaming.Stry_catch m handler).
Proof.
  intros Hm Hh v h Hv. unfold Streaming.Stry_catch.
  destruct (Hm v h Hv) as [HI Hf].
  destruct (m v h) as [[[a | e | |] v'] es] eqn:E; cbn [fst snd] in HI, Hf; auto.
  destruct (Hh e v' (h ++ es) HI) as [HI' Hf'].
  destruct (handler e v' (h ++ es)) as [[r v''] es']. cbn [fst snd] in *.
  split; [exact HI'|]. now rewrite filter_app, Hf, Hf'.
Qed.

Lemma preserves_SforEach {A : Type} (I : Streaming.vars -> Prop) (f : event -> bool)
    (xs : list A) (body : A -> Streaming.SM unit) :
  (forall x, preserves I f (body x)) -> preserves I f (Streaming.SforEach xs body).
Proof.
  intro Hb. induction xs as [|x xs IH]; cbn [Streaming.SforEach].
  - apply preserves_ret.
  - apply preserves_bind; [apply Hb|]. intros _. exact IH.
Qed.

Lemma preserves_startZip (I : Streaming.vars -> Prop) (f : event -> bool) :
  f Archiver_zip = false ->
  (forall v, I v ->
     I {| Streaming.currentZipSizeMB := 0; Streaming.currentZipFileCount := 0;
          Streaming.zipIndex := Streaming.zipIndex v;
          Streaming.totalProcessed := Streaming.totalProcessed v;
          Streaming.createdDownloads := Streaming.createdDownloads v;
          Streaming.failedPhotos := Streaming.failedPhotos v |}) ->
  preserves I f Streaming.startZip.
Proof.
  intros Hz HI. unfold Streaming.startZip.
  apply preserves_bind; [now apply preserves_emit|].
  intros _. now apply preserves_modify.
Qed.

(** The handler of a failed photo writes its line and adds to the failure
    list. *)
Lemma preserves_failure (I : Streaming.vars -> Prop) (f : event -> bool) (p : photo)
    (message : string) :
  (forall e, isErrorLine e = true -> f e = false) ->
  (forall v fl, I v ->
     I {| Streaming.currentZipSizeMB := Streaming.currentZipSizeMB v;
          Streaming.currentZipFileCount := Streaming.currentZipFileCount v;
          Streaming.zipIndex := Streaming.zipIndex v;
          Streaming.totalProcessed := Streaming.totalProcessed v;
          Streaming.createdDownloads := Streaming.createdDownloads v;
          Streaming.failedPhotos := fl |}) ->
  preserves I f
    (Streaming.Sbind
       (Streaming.lift
          (context_error
             [("❌ Failed to process photo " ++ dollar_id p ++ ": " ++ message)%string]))
       (fun _ =>
          Streaming.modify (fun v =>
            {| Streaming.currentZipSizeMB := Streaming.currentZipSizeMB v;
               Streaming.currentZipFileCount := Streaming.currentZipFileCount v;
               Streaming.zipIndex := Streaming.zipIndex v;
               Streaming.totalProcessed := Streaming.totalProcessed v;
               Streaming.createdDownloads := Streaming.createdDownloads v;
               Streaming.failedPhotos :=
                 Streaming.failedPhotos v ++ [ {| Streaming.failure_id := dollar_id p;
                                                  Streaming.failure_error := message |} ]
            |}))).
Proof.
  intros Hf HI. apply preserves_bind.
  - apply preserves_emit. now apply Hf.
  - intros _. apply preserves_modify. intros v Hv. now apply HI.
Qed.

(** When the event [finish] is not heard, [finalizeAndUploadZip] never ends
    normally, and makes neither an upload nor a record. *)
Lemma finalizeAndUploadZip_unheard (v : Streaming.vars) (h : list event) :
  finishUnheard w ->
  exists r es,
    Streaming.finalizeAndUploadZip w env eventDoc currentUserId eventId v h = (r, v, es)
    /\ (forall a, r <> Ok a)
    /\ filter isDelivery es = [].
Proof.
  intro Hu.
  pose proof (finalizeAndUploadZip_cases v h) as Hc. cbv zeta in Hc.
  rewrite Hu in Hc.
  destruct (on_finalize w _) as [zipBuffer | m |]; rewrite Hc;
    do 2 eexists; (split; [reflexivity|]); (split; [discriminate|]);
    try reflexivity.
  cbn [filter isDelivery isUpload isRecord orb].
  unfold announcement. now destruct (emits_error w _).
Qed.

Lemma preserves_finalize_unheard (I : Streaming.vars -> Prop) :
  finishUnheard w ->
  preserves I isDelivery
    (Streaming.finalizeAndUploadZip w env eventDoc currentUserId eventId).
Proof.
  intros Hu v h Hv.
  destruct (finalizeAndUploadZip_unheard v h Hu) as (r & es & -> & _ & Hq).
  auto.
Qed.

(** When the event [finish] is not heard, nothing is ever uploaded or
    recorded, and the list of the archives made stays empty. *)
Lemma archiveAll_unheard (photos : list photo) :
  finishUnheard w ->
  preserves (fun v => Streaming.createdDownloads v = []) isDelivery
    (Streaming.archiveAll w env eventDoc currentUserId eventId photos).
Proof.
  intro Hu. unfold Streaming.archiveAll.
  apply preserves_bind; [now apply preserves_startZip|]. intros _.
  apply preserves_bind.
  - apply preserves_SforEach. intro p. unfold Streaming.processPhoto.
    apply preserves_bind; [now apply preserves_modify|]. intros _.
    apply preserves_try.
    + apply preserves_bind; [apply preserves_get|]. intro v0.
      apply preserves_bind.
      { destruct (_ && _); [|apply preserves_ret].
        apply preserves_bind; [now apply preserves_finalize_unheard|].
        intros _. now apply preserves_startZip. }
      intros _. apply preserves_bind; [now apply preserves_await|].
      intro buffer. apply preserves_bind; [now apply preserves_archiverCall|].
      intros _. now apply preserves_modify.
    + intro message. apply preserves_failure; [now intros []|auto].
  - intros _. apply preserves_bind; [apply preserves_get|]. intro v.
    destruct (0 <? _)%nat; [now apply preserves_finalize_unheard|apply preserves_ret].
Qed.

(** When no photo can be fetched and appended, the open archive stays empty
    and is never closed: nothing is finalized, uploaded or recorded. *)
Lemma fetch_and_append_fail (p : photo) (g : Streaming.vars -> Streaming.vars)
    (v : Streaming.vars) (h : list event) :
  noneAppended w ->
  exists r es,
    Streaming.Sbind
      (Streaming.lift (await (Storage_getFileDownload (APPWRITE_BUCKET_ID env) (file_id p))
                         (on_getFileDownload w)))
      (fun buffer =>
         Streaming.Sbind
           (Streaming.lift (Streaming.archiverCall w
                              (Archive_append buffer (Streaming.entryName p))
                              (on_append w)))
           (fun _ => Streaming.modify g)) v h
    = (r, v, es)
    /\ filter isArchiving es = [].
Proof.
  intro Hn. rewrite Sbind_await.
  destruct (on_getFileDownload w _) as [buffer | m |] eqn:Hd;
    [|do 2 eexists; split; reflexivity|do 2 eexists; split; reflexivity].
  rewrite Sbind_archiverCall.
  destruct Hn as [Hn | Hn].
  - destruct (Hn (h ++ [Storage_getFileDownload (APPWRITE_BUCKET_ID env) (file_id p)]))
      as [m Hm].
    congruence.
  - match goal with
    | |- context [on_append w ?x] => destruct (Hn x) as [m ->]
    end.
    do 2 eexists. split; [reflexivity|].
    cbn [filter isArchiving isFinalize isUpload isRecord orb].
    unfold announcement. now destruct (emits_error w _).
Qed.

Lemma archiveAll_noneAppended (photos : list photo) :
  noneAppended w ->
  preserves (fun v => Streaming.currentZipFileCount v = 0%nat
                      /\ Streaming.createdDownloads v = [])
    isArchiving
    (Streaming.archiveAll w env eventDoc currentUserId eventId photos).
Proof.
  intro Hn. unfold Streaming.archiveAll.
  apply preserves_bind; [now apply preserves_startZip|]. intros _.
  apply preserves_bind.
  - apply preserves_SforEach. intro p. unfold Streaming.processPhoto.
    apply preserves_bind; [now apply preserves_modify|]. intros _.
    apply preserves_try.
    + intros v h [Hcount Hdls]. rewrite Sbind_get, Hcount.
      cbn [Streaming.MIN_FILES_PER_ZIP Nat.leb]. rewrite andb_false_r.
      rewrite Sbind_ok with (a := tt) (v' := v) (es := []) by reflexivity.
      rewrite app_nil_r. cbn [fst snd app].
      match goal with
      | |- context [Streaming.modify ?g] =>
          destruct (fetch_and_append_fail p g v h Hn) as (r & es & -> & Hq)
      end.
      cbn [fst snd]. auto.
    + intro message. apply preserves_failure; [now intros []|auto].
  - intros _ v h [Hcount Hdls]. rewrite Sbind_get, Hcount. cbn [Nat.ltb Nat.leb].
    split; [auto|reflexivity].
Qed.

End Archives.

(** ** The photos of the open archive (streaming revision) *)

Lemma openCount_app (w : world) (es1 es2 : list event) : forall h n,
  openCount w h (es1 ++ es2) n = openCount w (h ++ es1) es2 (openCount w h es1 n).
Proof.
  induction es1 as [|e es1 IH]; intros h n; cbn [app openCount].
  - now rewrite app_nil_r.
  - rewrite IH, <- app_assoc. reflexivity.
Qed.

Lemma closesNonEmpty_app (w : world) (es1 es2 : list event) : forall h n,
  closesNonEmpty w h (es1 ++ es2) n
  <-> closesNonEmpty w h es1 n
      /\ closesNonEmpty w (h ++ es1) es2 (openCount w h es1 n).
Proof.
  induction es1 as [|e es1 IH]; intros h n; cbn [app closesNonEmpty openCount].
  - rewrite app_nil_r. tauto.
  - rewrite IH, <- app_assoc. cbn [app]. tauto.
Qed.

(** Events that are no call on an archive change nothing. *)
Lemma openCount_quiet (w : world) (g : event -> bool) (es : list event) :
  (forall e, g e = true -> isArchiveCall e = false) ->
  forallb g es = true ->
  forall h n, openCount w h es n = n /\ closesNonEmpty w h es n.
Proof.
  intros Hg. induction es as [|e es IH]; intros Hall h n; cbn [openCount closesNonEmpty].
  - auto.
  - cbn [forallb] in Hall. apply andb_prop in Hall as [He Hes].
    apply Hg in He.
    assert (Hn : countAfter w h e n = n) by (destruct e; try discriminate; reflexivity).
    rewrite Hn. destruct (IH Hes (h ++ [e]) n) as [H1 H2].
    split; [exact H1|]. split; [|exact H2].
    intros ->. discriminate.
Qed.

Lemma countsAt_quiet {A : Type} (w : world) (m : Streaming.SM A) (v : Streaming.vars)
    (h : list event) :
  Streaming.currentZipFileCount (snd (fst (m v h))) = Streaming.currentZipFileCount v ->
  forallb (fun e => negb (isArchiveCall e)) (snd (m v h)) = true ->
  countsAt w m v h.
Proof.
  intros Hv Hes.
  destruct (openCount_quiet w (fun e => negb (isArchiveCall e)) (snd (m v h))
              (fun e He => proj1 (negb_true_iff _) He) Hes h
              (Streaming.currentZipFileCount v)) as [H1 H2].
  split; [exact H2|]. now rewrite H1.
Qed.

Lemma countsAt_bind {A B : Type} (w : world) (m : Streaming.SM A)
    (k : A -> Streaming.SM B) (v : Streaming.vars) (h : list event) :
  countsAt w m v h ->
  (forall a v' es, m v h = (Ok a, v', es) -> countsAt w (k a) v' (h ++ es)) ->
  countsAt w (Streaming.Sbind m k) v h.
Proof.
  unfold countsAt, Streaming.Sbind. intros [Hc Hn] Hk.
  destruct (m v h) as [[[a | e | |] v'] es] eqn:E; cbn [fst snd] in *; auto.
  destruct (Hk a v' es eq_refl) as [Hc' Hn'].
  destruct (k a v' (h ++ es)) as [[r v''] es']. cbn [fst snd] in *.
  split.
  - apply closesNonEmpty_app. split; [exact Hc|]. now rewrite <- Hn.
  - now rewrite openCount_app, <- Hn.
Qed.

Lemma counts_bind {A B : Type} (w : world) (m : Streaming.SM A)
    (k : A -> Streaming.SM B) :
  counts w m -> (forall a, counts w (k a)) -> counts w (Streaming.Sbind m k).
Proof.
  intros Hm Hk v h. apply countsAt_bind; [apply Hm|].
  intros a v' es _. apply Hk.
Qed.

Lemma counts_try {A : Type} (w : world) (m : Streaming.SM A)
    (handler : string -> Streaming.SM A) :
  counts w m -> (forall message, counts w (handler message)) ->
  counts w (Streaming.Stry_catch m handler).
Proof.
  intros Hm Hh v h. specialize (Hm v h). revert Hm.
  unfold countsAt, Streaming.Stry_catch. intros [Hc Hn].
  destruct (m v h) as [[[a | e | |] v'] es] eqn:E; cbn [fst snd] in *; auto.
  destruct (Hh e v' (h ++ es)) as [Hc' Hn'].
  destruct (handler e v' (h ++ es)) as [[r v''] es']. cbn [fst snd] in *.
  split.
  - apply closesNonEmpty_app. split; [exact Hc|]. now rewrite <- Hn.
  - now rewrite openCount_app, <- Hn.
Qed.

Lemma counts_ret {A : Type} (w : world) (a : A) : counts w (Streaming.Sret a).
Proof. intros v h. now apply countsAt_quiet. Qed.

Lemma counts_modify (w : world) (f : Streaming.vars -> Streaming.vars) :
  (forall v, Streaming.currentZipFileCount (f v) = Streaming.currentZipFileCount v) ->
  counts w (Streaming.modify f).
Proof. intros Hf v h. apply countsAt_quiet; [apply Hf|reflexivity]. Qed.

Lemma counts_await {A : Type} (w : world) (e : event)
    (oracle : list event -> answer A) :
  isArchiveCall e = false -> counts w (Streaming.lift (await e oracle)).
Proof.
  intros He v h. unfold Streaming.lift, await.
  apply countsAt_quiet; unfold Streaming.lift;
    destruct (oracle (h ++ [e])); cbn [fst snd forallb]; rewrite ?He; reflexivity.
Qed.

Lemma counts_emit (w : world) (e : event) :
  isArchiveCall e = false -> counts w (Streaming.lift (emit e)).
Proof.
  intros He v h. apply countsAt_quiet; cbn [Streaming.lift emit fst snd forallb];
    rewrite ?He; reflexivity.
Qed.

Lemma counts_SforEach {A : Type} (w : world) (xs : list A)
    (body : A -> Streaming.SM unit) :
  (forall x, counts w (body x)) -> counts w (Streaming.SforEach xs body).
Proof.
  intro Hb. induction xs as [|x xs IH]; cbn [Streaming.SforEach].
  - apply counts_ret.
  - apply counts_bind; [apply Hb|intros _; exact IH].
Qed.

Lemma countsAt_get {B : Type} (w : world) (k : Streaming.vars -> Streaming.SM B)
    (v : Streaming.vars) (h : list event) :
  countsAt w (k v) v h -> countsAt w (Streaming.Sbind Streaming.get k) v h.
Proof. unfold countsAt. now rewrite Sbind_get. Qed.

Section OpenArchive.

Variable w : world.
Variable env : environment.
Variable eventDoc : eventDocument.
Variables currentUserId eventId : string.

Lemma counts_startZip : counts w Streaming.startZip.
Proof.
  intros v h. unfold countsAt, Streaming.startZip.
  rewrite Sbind_emit. cbn [Streaming.modify fst snd closesNonEmpty openCount countAfter
                            Streaming.currentZipFileCount].
  repeat split. discriminate.
Qed.

(** An archive that holds a photo may be closed: the calls that follow the
    finalization are no calls on the archive, and the counter is left as it
    is. *)
Lemma countsAt_finalizeAndUploadZip (v : Streaming.vars) (h : list event) :
  (1 <= Streaming.currentZipFileCount v)%nat ->
  countsAt w (Streaming.finalizeAndUploadZip w env eventDoc currentUserId eventId) v h.
Proof.
  intro Hn.
  pose proof (finalizeAndUploadZip_cases w env eventDoc currentUserId eventId v h) as H.
  cbv zeta in H. unfold countsAt.
  destruct (on_finalize w _) as [zipBuffer | m |];
    [destruct (on_finish w _);
     [destruct (on_createFile w _) as [uploadedId | m |];
      [destruct (on_createDocument w _) as [dlDoc | m |]| |]|]| |];
    rewrite H; unfold announcement, streamUpload, streamRecord, archiveErrorLine,
                 afterUpload;
    try destruct (emits_error w _);
    cbn [fst snd closesNonEmpty openCount countAfter Streaming.currentZipFileCount];
    repeat split; auto; discriminate.
Qed.

(** The cut of the loop (part_000 lines 426-429): the open archive is closed
    only when it holds [MIN_FILES_PER_ZIP] photos, that is one. *)
Lemma counts_cut {B : Type} (p : photo) (k : unit -> Streaming.SM B) :
  (forall a, counts w (k a)) ->
  counts w
    (Streaming.Sbind Streaming.get
       (fun v =>
          Streaming.Sbind
            (if cuts v p
             then Streaming.Sbind
                    (Streaming.finalizeAndUploadZip w env eventDoc currentUserId eventId)
                    (fun _ => Streaming.startZip)
             else Streaming.Sret tt)
            k)).
Proof.
  intros Hk v h. apply countsAt_get.
  apply countsAt_bind; [|intros a v' es _; apply Hk].
  destruct (cuts v p) eqn:Hcut; [|apply counts_ret].
  apply countsAt_bind; [|intros a v' es _; apply counts_startZip].
  apply countsAt_finalizeAndUploadZip.
  unfold cuts in Hcut. apply andb_prop in Hcut as [_ Hmin].
  apply Nat.leb_le in Hmin. exact Hmin.
Qed.

(** The append and the count of the appended photo (lines 443-449). *)
Lemma counts_append (buffer : Buffer) (name : string)
    (f : Streaming.vars -> Streaming.vars) :
  (forall v, Streaming.currentZipFileCount (f v)
             = S (Streaming.currentZipFileCount v)) ->
  counts w
    (Streaming.Sbind
       (Streaming.lift (Streaming.archiverCall w (Archive_append buffer name)
                          (on_append w)))
       (fun _ => Streaming.modify f)).
Proof.
  intros Hf v h. unfold countsAt. rewrite Sbind_archiverCall.
  destruct (on_append w (h ++ [Archive_append buffer name])) as [[] | m |] eqn:E;
    unfold announcement, archiveErrorLine;
    try destruct (emits_error w _);
    cbn [Streaming.modify fst snd closesNonEmpty openCount countAfter];
    rewrite E; repeat split; auto; discriminate.
Qed.

Lemma counts_processPhoto (p : photo) :
  counts w (Streaming.processPhoto w env eventDoc currentUserId eventId p).
Proof.
  unfold Streaming.processPhoto.
  apply counts_bind; [now apply counts_modify|intros _].
  apply counts_try.
  - cbv zeta. apply (counts_cut p). intros _.
    apply counts_bind; [now apply counts_await|intro buffer].
    apply counts_append. intro v. cbn [Streaming.currentZipFileCount]. lia.
  - intro message. apply counts_bind; [now apply counts_emit|intros _].
    now apply counts_modify.
Qed.

Lemma counts_archiveAll (photos : list photo) :
  counts w (Streaming.archiveAll w env eventDoc currentUserId eventId photos).
Proof.
  unfold Streaming.archiveAll.
  apply counts_bind; [apply counts_startZip|intros _].
  apply counts_bind; [apply counts_SforEach; apply counts_processPhoto|intros _].
  intros v h. apply countsAt_get.
  destruct (0 <? Streaming.currentZipFileCount v)%nat eqn:E; [|apply counts_ret].
  apply countsAt_finalizeAndUploadZip. apply Nat.ltb_lt in E. lia.
Qed.

End OpenArchive.

(** ** The final summary of the streaming revision *)

Lemma filter_none (f g : event -> bool) (es : list event) :
  forallb g es = true -> (forall e, g e = true -> f e = false) -> filter f es = [].
Proof.
  intros Hall Hf. induction es as [|e es IH]; simpl in *; auto.
  apply andb_prop in Hall as [He Hes]. now rewrite (Hf e He), IH.
Qed.

Lemma not_archiving (f : event -> bool) (e : event) :
  (forall e, f e = true -> isArchiving e = true) ->
  isArchiving e = false -> f e = false.
Proof.
  intros Hf He. destruct (f e) eqn:E; [|reflexivity].
  apply Hf in E. congruence.
Qed.

Section Summary.

Variable w : world.
Variable env : environment.

Lemma fetchAllPhotos_listings (fuel : nat) (eventId : string) :
  forall allPhotos offset h,
    forallb isListing
      (snd (Streaming.fetchAllPhotos w env fuel eventId allPhotos offset h)) = true.
Proof.
  induction fuel as [|fuel IH]; intros allPhotos offset h; simpl; [reflexivity|].
  rewrite bind_await.
  destruct (on_listDocuments w _) as [documents | m |]; [|reflexivity|reflexivity].
  destruct (nonEmpty documents); [|reflexivity].
  destruct (_ <? _)%nat; simpl; [reflexivity|apply IH].
Qed.

Lemma fetchAllPhotos_quiet (f : event -> bool) (fuel : nat) (eventId : string)
    (allPhotos : list photo) (offset : nat) (h : list event) :
  (forall e, isListing e = true -> f e = false) ->
  filter f (snd (Streaming.fetchAllPhotos w env fuel eventId allPhotos offset h)) = [].
Proof.
  intro Hf. eapply filter_none; [apply fetchAllPhotos_listings|exact Hf].
Qed.

(** What a run leaves alone when its archiving does, and where the archives
    of its success payload come from. *)
Lemma streaming_run_preserved (I : Streaming.vars -> Prop) (f : event -> bool) :
  (forall e, f e = true -> isArchiving e = true) ->
  I Streaming.vars_init ->
  (forall eventDoc currentUserId eventId photos,
     preserves I f (Streaming.archiveAll w env eventDoc currentUserId eventId photos)) ->
  forall fuel req,
    filter f (snd (run (Streaming.prepareDownload w env fuel req))) = []
    /\ forall c message sm dls fls,
         fst (run (Streaming.prepareDownload w env fuel req))
         = Ok (Streaming.json_success c message sm dls fls) ->
         exists v, I v /\ dls = Streaming.createdDownloads v.
Proof.
  intros Hf H0 Hall fuel req.
  unfold run, Streaming.prepareDownload.
  destruct (bodyRaw req) as [| m | | eventId];
    try (split; [reflexivity|discriminate]).
  destruct (falsy eventId); [split; [reflexivity|discriminate]|].
  destruct (falsy (x_appwrite_user_id req)); [split; [reflexivity|discriminate]|].
  set (eid := orElse eventId ""). set (uid := orElse (x_appwrite_user_id req) "").
  assert (Hdoc : forall a b c, f (Databases_getDocument a b c) = false).
  { intros a b c. now apply not_archiving. }
  assert (Hline : forall args, f (Context_error args) = false).
  { intro args. now apply not_archiving. }
  assert (Hp : filter f (snd (Streaming.prepare w env fuel eid uid [])) = []
               /\ forall c message sm dls fls,
                    fst (Streaming.prepare w env fuel eid uid [])
                    = Ok (Streaming.json_success c message sm dls fls) ->
                    exists v, I v /\ dls = Streaming.createdDownloads v).
  { unfold Streaming.prepare. rewrite bind_await.
    assert (Hl : forall e, isListing e = true -> f e = false).
    { intros e He. apply not_archiving; [exact Hf|]. now destruct e. }
    destruct (on_getDocument w _) as [eventDoc | m |];
      cbn [fst snd filter]; rewrite Hdoc;
      try (split; [reflexivity|discriminate]).
    destruct (negb _); [split; [reflexivity|discriminate]|].
    match goal with
    | |- context [bind (Streaming.fetchAllPhotos w env fuel eid [] 0) ?k ?h] =>
        pose proof (fetchAllPhotos_quiet f fuel eid [] 0%nat h Hl) as Hq;
        destruct (Streaming.fetchAllPhotos w env fuel eid [] 0 h)
          as [[allPhotos | m | |] es1] eqn:E1;
        [rewrite (bind_ok _ _ _ _ _ E1)
        |rewrite (bind_throw _ _ _ _ _ E1)
        |rewrite (bind_pending _ _ _ _ E1)
        |unfold bind; rewrite E1]
    end; cbn [fst snd] in *; try (split; [exact Hq|discriminate]).
    destruct (List.length allPhotos =? 0)%nat;
      [cbn [ret fst snd]; rewrite app_nil_r; split; [exact Hq|discriminate]|].
    match goal with
    | |- context [bind (Streaming.withVars ?m ?v) ?k ?h] =>
        destruct (Hall eventDoc uid eid allPhotos v h H0) as [HI Hev];
        unfold bind, Streaming.withVars;
        destruct (m v h) as [[[[] | m' | |] v'] es2] eqn:E2
    end; cbn [fst snd ret] in *; rewrite ?app_nil_r, ?filter_app, Hq, Hev;
      (split; [reflexivity|]); try discriminate.
    intros c message sm dls fls [= _ _ _ <-]. exists v'. auto. }
  destruct Hp as [Hq Hok]. unfold try_catch.
  destruct (Streaming.prepare w env fuel eid uid []) as [[r | m | |] es0];
    cbn [fst snd] in *; try (split; [exact Hq|discriminate]).
  - split; [exact Hq|exact Hok].
  - unfold context_error. rewrite bind_emit. cbn [fst snd ret].
    rewrite filter_app, Hq. cbn [app filter].
    rewrite Hline. split; [reflexivity|discriminate].
Qed.

(** No run closes an empty archive. *)
Lemma streaming_run_counts (fuel : nat) (req : request) :
  closesNonEmpty w [] (snd (run (Streaming.prepareDownload w env fuel req))) 0.
Proof.
  unfold run, Streaming.prepareDownload.
  destruct (bodyRaw req) as [| m | | eventId]; try exact I.
  destruct (falsy eventId); [exact I|].
  destruct (falsy (x_appwrite_user_id req)); [exact I|].
  set (eid := orElse eventId ""). set (uid := orElse (x_appwrite_user_id req) "").
  assert (Hp : closesNonEmpty w [] (snd (Streaming.prepare w env fuel eid uid [])) 0).
  { unfold Streaming.prepare. rewrite bind_await. cbn [app].
    assert (Hdoc : forall es,
               closesNonEmpty w
                 [Databases_getDocument (APPWRITE_DATABASE_ID env)
                    (APPWRITE_EVENT_COLLECTION_ID env) eid] es 0 ->
               closesNonEmpty w []
                 (Databases_getDocument (APPWRITE_DATABASE_ID env)
                    (APPWRITE_EVENT_COLLECTION_ID env) eid :: es) 0).
    { intros es H. cbn [closesNonEmpty countAfter app]. split; [discriminate|exact H]. }
    destruct (on_getDocument w _) as [eventDoc | m |]; cbn [fst snd];
      try (apply Hdoc; exact I).
    apply Hdoc.
    destruct (negb _); [exact I|].
    match goal with
    | |- context [bind (Streaming.fetchAllPhotos w env fuel eid [] 0) ?k ?h] =>
        pose proof (fetchAllPhotos_listings fuel eid [] 0%nat h) as Hl;
        destruct (Streaming.fetchAllPhotos w env fuel eid [] 0 h)
          as [[allPhotos | m | |] es1] eqn:E1;
        [rewrite (bind_ok _ _ _ _ _ E1)
        |rewrite (bind_throw _ _ _ _ _ E1)
        |rewrite (bind_pending _ _ _ _ E1)
        |unfold bind; rewrite E1];
        cbn [fst snd] in *;
        destruct (openCount_quiet w isListing es1
                    (fun e He => ltac:(destruct e; try discriminate He; reflexivity))
                    Hl h 0%nat) as [Hn Hq]
    end; try exact Hq.
    apply closesNonEmpty_app. split; [exact Hq|]. rewrite Hn.
    destruct (List.length allPhotos =? 0)%nat; [exact I|].
    match goal with
    | |- context [bind (Streaming.withVars ?m ?v) ?k ?h] =>
        destruct (counts_archiveAll w env eventDoc uid eid allPhotos v h) as [Hc _];
        unfold bind, Streaming.withVars;
        destruct (m v h) as [[[[] | m' | |] v'] es2]
    end; cbn [fst snd ret] in *; rewrite ?app_nil_r; exact Hc. }
  unfold try_catch.
  destruct (Streaming.prepare w env fuel eid uid []) as [[r | m | |] es0];
    cbn [fst snd] in *; try exact Hp.
  unfold context_error. rewrite bind_emit. cbn [fst snd ret].
  apply closesNonEmpty_app. split; [exact Hp|].
  cbn [closesNonEmpty]. split; [discriminate|exact I].
Qed.

(** What a success payload of the streaming revision tells about the run
    that produced it. *)
Lemma streaming_success (fuel : nat) (req : request) (c : nat) (message : string)
    (sm : Streaming.summary) (dls : list Streaming.download)
    (fls : option (list Streaming.failure)) (es : list event) :
  run (Streaming.prepareDownload w env fuel req)
  = (Ok (Streaming.json_success c message sm dls fls), es) ->
  c = 200%nat
  /\ filter isFailureLine es = map streamFailureLine (reported fls)
  /\ fls <> Some []
  /\ Streaming.failedPhotosCount sm = List.length (reported fls)
  /\ (Streaming.processedPhotos sm + Streaming.failedPhotosCount sm)%nat
     = Streaming.totalPhotos sm
  /\ Streaming.totalChunks sm = List.length dls
  /\ list_sum (map Streaming.dl_photoCount dls) = Streaming.processedPhotos sm
  /\ (0 < Streaming.totalPhotos sm)%nat
  /\ exists eventDoc,
       map Streaming.dl_filename dls
       = map (Streaming.zipFilename eventDoc) (seq 1 (List.length dls)).
Proof.
  unfold run, Streaming.prepareDownload.
  destruct (bodyRaw req) as [| m | | eventId]; try discriminate.
  destruct (falsy eventId); [discriminate|].
  destruct (falsy (x_appwrite_user_id req)); [discriminate|].
  set (eid := orElse eventId ""). set (uid := orElse (x_appwrite_user_id req) "").
  unfold try_catch.
  destruct (Streaming.prepare w env fuel eid uid []) as [[r | m | |] es0] eqn:E;
    try discriminate.
  intros [= -> ->].
  unfold Streaming.prepare in E. rewrite bind_await in E.
  destruct (on_getDocument w _) as [eventDoc | m |]; [|discriminate|discriminate].
  destruct (negb _); [discriminate|].
  match type of E with
  | context [bind (Streaming.fetchAllPhotos w env fuel eid [] 0) ?k ?h] =>
      assert (Hq : filter isFailureLine
                     (snd (Streaming.fetchAllPhotos w env fuel eid [] 0 h)) = [])
        by (apply fetchAllPhotos_quiet; now intros []);
      destruct (Streaming.fetchAllPhotos w env fuel eid [] 0 h)
        as [[allPhotos | m | |] es1] eqn:E1;
      [rewrite (bind_ok _ _ _ _ _ E1) in E
      |rewrite (bind_throw _ _ _ _ _ E1) in E; discriminate
      |rewrite (bind_pending _ _ _ _ E1) in E; discriminate
      |unfold bind in E; rewrite E1 in E; discriminate]
  end.
  cbn [snd] in Hq.
  destruct (List.length allPhotos =? 0)%nat eqn:Hlen; [discriminate|].
  apply Nat.eqb_neq in Hlen.
  match type of E with
  | context [bind (Streaming.withVars ?m ?v) ?k ?h] =>
      destruct (tracks_archiveAll w env eventDoc uid eid allPhotos v h)
        as (fl & Herr & Hfail & Hfl & Hcount & _ & _ & Hnamed);
      unfold bind, Streaming.withVars in E;
      destruct (m v h) as [[[[] | m' | |] v'] es2] eqn:E2
  end; try discriminate.
  pose proof E2 as Hacc. apply archiveAll_accounts in Hacc.
  simpl in *. unfold ret in E. simpl in E.
  injection E as <- <- <- <- <- <-.
  specialize (Hcount tt eq_refl).
  rewrite Hfail, Hcount in *. simpl.
  rewrite filter_app. cbn [filter isFailureLine]. rewrite filter_app, Hq, Herr.
  cbn [filter app]. rewrite app_nil_r.
  assert (Hrep : reported (if (0 <? List.length fl)%nat then Some fl else None) = fl).
  { destruct fl; reflexivity. }
  rewrite Hrep.
  split; [reflexivity|]. split; [reflexivity|].
  split; [destruct fl; simpl; discriminate|].
  split; [reflexivity|]. split; [lia|]. split; [reflexivity|].
  split; [lia|]. split; [lia|].
  exists eventDoc. apply Hnamed. split; reflexivity.
Qed.

End Summary.

(** ** Archive names *)













(** ** Access grants and records *)




(** ** More on the chunking block (src/main.js, lines 113-130) *)

Section Packing.

Variable budget : Q.

Lemma concat_length_nonempty {A : Type} (gs : list (list A)) :
  Forall (fun g => g <> []) gs -> (List.length gs <= List.length (List.concat gs))%nat.
Proof.
  induction 1 as [|g gs Hg _ IH]; simpl; [lia|].
  rewrite length_app. destruct g; [now elim Hg|simpl; lia].
Qed.

(** X3. There are never more groups than photos, and there is no group at
    all exactly when there is no photo. *)
Theorem chunkPhotos_count (allPhotos : list photo) :
  (List.length (Main.chunkPhotos budget allPhotos) <= List.length allPhotos)%nat
  /\ (Main.chunkPhotos budget allPhotos = [] <-> allPhotos = []).
Proof.
  split.
  - assert (Hc : List.concat (Main.chunkPhotos budget allPhotos) = allPhotos).
    { unfold Main.chunkPhotos. now rewrite chunkFlush_concat, chunkLoop_concat. }
    rewrite <- Hc at 2.
    apply concat_length_nonempty. rewrite chunkPhotos_exact.
    eapply Forall_impl; [|apply chunkPhotos_sound].
    intros g [Hg _]. exact Hg.
  - split; intro H.
    + assert (Hc : List.concat (Main.chunkPhotos budget allPhotos) = allPhotos).
      { unfold Main.chunkPhotos. now rewrite chunkFlush_concat, chunkLoop_concat. }
      rewrite <- Hc, H. reflexivity.
    + subst. reflexivity.
Qed.

End Packing.

(** ** The paging loop of src/main.js (lines 83-102) *)

Lemma firstn_plus {A : Type} (a b : nat) : forall l : list A,
  firstn (a + b) l = firstn a l ++ firstn b (skipn a l).
Proof.
  induction a as [|a IH]; intros [|x l]; simpl; auto.
  - now rewrite firstn_nil.
  - now rewrite IH.
Qed.

Lemma pageOffsets_S (offset n : nat) :
  pageOffsets offset (S n) = offset :: pageOffsets (offset + Main.batchSize) n.
Proof.
  unfold pageOffsets. change (seq 0 (S n)) with (0%nat :: seq 1 n).
  cbn [map]. rewrite Nat.mul_0_r, Nat.add_0_r. f_equal.
  rewrite <- seq_shift, map_map. apply map_ext. intro j. lia.
Qed.

Section Paging.

Variable w : world.
Variable env : environment.
Variable eventId : string.
Variable photos : list photo.
Hypothesis Hserves : servesPhotos w env eventId photos.

Lemma fetchAllPhotos_pages (k : nat) : forall fuel offset r h,
  (k < fuel)%nat ->
  (r < Main.batchSize)%nat ->
  List.length photos = (offset + Main.batchSize * k + r)%nat ->
  Main.fetchAllPhotos w env fuel eventId (firstn offset photos) offset h
  = (Ok photos, map (listingCall env eventId) (pageOffsets offset (S k))).
Proof.
  unfold Main.batchSize in *.
  induction k as [|k IH]; intros fuel offset r h Hfuel Hr Hlen;
    (destruct fuel as [|fuel]; [lia|]); cbn [Main.fetchAllPhotos];
    rewrite bind_await; fold Main.batchSize; fold (listingCall env eventId offset);
    rewrite Hserves; unfold Main.batchSize;
    assert (Hpage : List.length (firstn 100 (skipn offset photos))
                    = Nat.min 100 (List.length photos - offset))
      by (now rewrite length_firstn, length_skipn).
  - assert (Hrest : firstn 100 (skipn offset photos) = skipn offset photos).
    { apply firstn_all2. rewrite length_skipn. lia. }
    rewrite Hrest in *. rewrite length_skipn.
    replace (List.length photos - offset)%nat with r by lia.
    rewrite pageOffsets_S. cbn [pageOffsets seq map].
    destruct (r =? 0)%nat eqn:Hr0.
    + apply Nat.eqb_eq in Hr0. subst r. unfold ret. cbn [fst snd].
      rewrite firstn_all2 by lia. reflexivity.
    + apply Nat.ltb_lt in Hr. unfold Main.batchSize. rewrite Hr.
      unfold ret. cbn [fst snd]. now rewrite firstn_skipn.
  - rewrite Hpage.
    replace (Nat.min 100 (List.length photos - offset)) with 100%nat by lia.
    cbn [Nat.eqb Nat.ltb Nat.leb]. unfold Main.batchSize.
    replace (100 <? 100)%nat with false by reflexivity.
    rewrite <- firstn_plus.
    rewrite (IH fuel (offset + 100)%nat r _ ltac:(lia) Hr ltac:(lia)).
    cbn [fst snd]. now rewrite (pageOffsets_S offset (S k)).
Qed.

(** X4. Against a collection that serves its photos by offset, a page of at
    most 100 at a time, the paging loop returns exactly the photos of the
    collection, in order, after asking for the pages at offsets 0, 100, 200,
    ... : one page more than there are full pages, so also one (empty) page
    when the number of photos is a multiple of 100. *)
Theorem fetchAllPhotos_collects (fuel : nat) (h : list event) :
  (List.length photos / Main.batchSize < fuel)%nat ->
  Main.fetchAllPhotos w env fuel eventId [] 0 h
  = (Ok photos,
     map (listingCall env eventId)
       (pageOffsets 0 (S (List.length photos / Main.batchSize)))).
Proof.
  intro Hfuel.
  apply (fetchAllPhotos_pages (List.length photos / Main.batchSize) fuel 0
           (List.length photos mod Main.batchSize) h Hfuel).
  - apply Nat.mod_upper_bound. discriminate.
  - rewrite (Nat.div_mod_eq (List.length photos) Main.batchSize) at 1. lia.
Qed.

End Paging.

(** ** Requests, errors and whole runs of src/main.js *)

Section MainRuns.

Variable w : world.
Variable env : environment.

Lemma fetchAllPhotos_lists (fuel : nat) (eventId : string) :
  forall allPhotos offset h,
    forallb isListing
      (snd (Main.fetchAllPhotos w env fuel eventId allPhotos offset h)) = true.
Proof.
  induction fuel as [|fuel IH]; intros allPhotos offset h;
    cbn [Main.fetchAllPhotos]; [reflexivity|].
  rewrite bind_await.
  destruct (on_listDocuments w _) as [documents | m |]; [|reflexivity|reflexivity].
  destruct (_ =? _)%nat; [reflexivity|].
  destruct (_ <? _)%nat; [reflexivity|].
  cbn [snd forallb isListing andb]. apply IH.
Qed.

(** X5. The paging loop has no bound of its own: as long as every listing
    answers a full page of 100 it asks for the next one, so that against a
    collection that never runs dry it is still paging after any number of
    pages, each of which it has asked for. *)
Theorem fetchAllPhotos_never_ends (fuel : nat) (eventId : string) :
  everFull w ->
  forall allPhotos offset h,
    fst (Main.fetchAllPhotos w env fuel eventId allPhotos offset h) = OutOfFuel
    /\ List.length (snd (Main.fetchAllPhotos w env fuel eventId allPhotos offset h))
       = fuel.
Proof.
  intro Hfull.
  induction fuel as [|fuel IH]; intros allPhotos offset h;
    cbn [Main.fetchAllPhotos]; [split; reflexivity|].
  rewrite bind_await.
  match goal with
  | |- context [on_listDocuments w ?x] => destruct (Hfull x) as (page & -> & Hlen)
  end.
  unfold Main.batchSize in *.
  destruct (List.length page =? 0)%nat eqn:E0; [apply Nat.eqb_eq in E0; lia|].
  destruct (List.length page <? 100)%nat eqn:E1; [apply Nat.ltb_lt in E1; lia|].
  cbn [fst snd List.length].
  match goal with
  | |- context [Main.fetchAllPhotos w env fuel eventId ?a ?o ?h'] =>
      destruct (IH a o h') as [-> ->]
  end.
  split; reflexivity.
Qed.

(** X6. A request that names no event (an empty body, a body that is not
    JSON, an object without [eventId] or with an empty one) is answered 400
    after one error line, without any call to the database, the storage or
    the archiver. *)
Theorem no_event_is_bad_request (fuel : nat) (req : request) :
  namesNoEvent req ->
  exists message line,
    run (Main.prepareDownload w env fuel req)
    = (Ok (Main.json_error 400 message), [Context_error [line]]).
Proof.
  unfold namesNoEvent, run, Main.prepareDownload.
  destruct (bodyRaw req) as [| m | | eventId]; intro H.
  - do 2 eexists. reflexivity.
  - do 2 eexists. reflexivity.
  - contradiction.
  - rewrite H. do 2 eexists. reflexivity.
Qed.

(** What a run of the guarded block that returns a response has done. *)
Lemma prepare_ok_cases (fuel : nat) (eventId : string) (currentUserId : option string)
    (r : Main.response) (es : list event) :
  Main.prepare w env fuel eventId currentUserId [] = (Ok r, es) ->
  (exists line,
     r = Main.json_error 403 "Forbidden – you do not own this event"
     /\ es = [ownershipLookup env eventId; Context_error [line]])
  \/ (exists es1,
        r = Main.json_error 404 "No photos found"
        /\ es = ownershipLookup env eventId :: es1
        /\ forallb isListing es1 = true)
  \/ (exists eventDoc allPhotos es1 ids es2,
        let owner := trim (String_or_empty (user_id eventDoc)) in
        let chunks := Main.chunkPhotos Main.MAX_CHUNK_MB allPhotos in
        on_getDocument w [ownershipLookup env eventId] = Resolve eventDoc
        /\ currentUserId = Some owner
        /\ Main.fetchAllPhotos w env fuel eventId [] 0 [ownershipLookup env eventId]
           = (Ok allPhotos, es1)
        /\ allPhotos <> []
        /\ Main.processChunks w env eventDoc owner eventId (List.length chunks) 0
             chunks [] (ownershipLookup env eventId :: es1)
           = (Ok ids, es2)
        /\ r = Main.json_success 200 "Download prepared successfully"
                 (List.length chunks) ids
        /\ es = ownershipLookup env eventId :: es1 ++ es2).
Proof.
  intro E. unfold Main.prepare in E. rewrite bind_await in E.
  cbn [app] in E. fold (ownershipLookup env eventId) in E.
  destruct (on_getDocument w _) as [eventDoc | m |] eqn:Hdoc;
    [|discriminate|discriminate].
  destruct (strictNe _ _) eqn:Hne.
  { left. unfold context_error in E. rewrite bind_emit in E.
    injection E as <- <-. eexists. split; reflexivity. }
  right.
  assert (Hcu : currentUserId = Some (trim (String_or_empty (user_id eventDoc)))).
  { destruct (strictNe_true (trim (String_or_empty (user_id eventDoc))) currentUserId)
      as [_ H2].
    destruct currentUserId as [c|]; [|now rewrite H2 in Hne].
    destruct (string_dec c (trim (String_or_empty (user_id eventDoc)))) as [->|Hd];
      [reflexivity|].
    rewrite H2 in Hne; [discriminate|congruence]. }
  match type of E with
  | context [bind (Main.fetchAllPhotos w env fuel ?eid [] 0) ?k ?h] =>
      pose proof (fetchAllPhotos_lists fuel eid [] 0%nat h) as Hl;
      destruct (Main.fetchAllPhotos w env fuel eid [] 0 h)
        as [[allPhotos | m | |] es1] eqn:E1;
      [rewrite (bind_ok _ _ _ _ _ E1) in E
      |rewrite (bind_throw _ _ _ _ _ E1) in E; discriminate
      |rewrite (bind_pending _ _ _ _ E1) in E; discriminate
      |unfold bind in E; rewrite E1 in E; discriminate]
  end.
  cbn [snd] in Hl.
  destruct (List.length allPhotos =? 0)%nat eqn:E0.
  { left. exists es1. unfold ret in E. cbn [fst snd] in E.
    injection E as <- <-. rewrite app_nil_r. auto. }
  right.
  match type of E with
  | context [bind (Main.processChunks ?a ?b ?c ?d ?e ?f ?g ?cs ?cr) ?k ?h] =>
      destruct (Main.processChunks a b c d e f g cs cr h)
        as [[ids | m | |] es2] eqn:E2;
      [rewrite (bind_ok _ _ _ _ _ E2) in E
      |rewrite (bind_throw _ _ _ _ _ E2) in E; discriminate
      |rewrite (bind_pending _ _ _ _ E2) in E; discriminate
      |unfold bind in E; rewrite E2 in E; discriminate]
  end.
  unfold ret in E. cbn [fst snd] in E. injection E as <- <-.
  exists eventDoc, allPhotos, es1, ids, es2. cbv zeta.
  rewrite app_nil_r.
  repeat split; auto.
  intros ->. discriminate.
Qed.

(** What a run of the function that returns a response has done. *)
Lemma prepareDownload_ok_cases (fuel : nat) (req : request) (r : Main.response)
    (es : list event) :
  run (Main.prepareDownload w env fuel req) = (Ok r, es) ->
  (exists message line,
     r = Main.json_error 400 message /\ es = [Context_error [line]])
  \/ (exists eventId,
        bodyRaw req = Body_object (Some eventId)
        /\ (Main.prepare w env fuel eventId (x_appwrite_user_id req) [] = (Ok r, es)
            \/ exists message es0,
                 Main.prepare w env fuel eventId (x_appwrite_user_id req) []
                 = (Throw message, es0)
                 /\ r = Main.json_error 500 message
                 /\ es = es0 ++ [outerErrorLine message])).
Proof.
  unfold run, Main.prepareDownload.
  destruct (bodyRaw req) as [| m | | eventId].
  - intros [= <- <-]. left. do 2 eexists. split; reflexivity.
  - intros [= <- <-]. left. do 2 eexists. split; reflexivity.
  - discriminate.
  - destruct (falsy eventId) eqn:Hf.
    + intros [= <- <-]. left. do 2 eexists. split; reflexivity.
    + destruct eventId as [eventId|]; [|discriminate].
      cbn [orElse]. unfold try_catch.
      destruct (Main.prepare w env fuel _ _ []) as [[r0 | m | |] es0] eqn:E.
      * intros [= <- <-]. right. exists eventId. split; [reflexivity|].
        left.
        destruct eventId; [discriminate|]. exact E.
      * unfold context_error. rewrite bind_emit. unfold ret. cbn [fst snd].
        intros [= <- <-]. right. exists eventId. split; [reflexivity|].
        right. exists m, es0.
        destruct eventId; [discriminate|]. auto.
      * discriminate.
      * discriminate.
Qed.

(** X7. The function answers with one of the statuses 200, 400, 403, 404 and
    500, and unless the body is the JSON value null it never lets an error
    escape: every error thrown past the parsing of the request is caught and
    answered. *)
Theorem prepareDownload_always_answers (fuel : nat) (req : request) :
  bodyRaw req <> Body_null ->
  (forall message, fst (run (Main.prepareDownload w env fuel req)) <> Throw message)
  /\ (forall r es,
        run (Main.prepareDownload w env fuel req) = (Ok r, es) ->
        In (Main.statusCode_of r) mainStatuses).
Proof.
  intro Hbody. split.
  - intro message. unfold run, Main.prepareDownload.
    destruct (bodyRaw req) as [| m | | eventId]; try discriminate.
    + now elim Hbody.
    + destruct (falsy eventId); [discriminate|].
      unfold try_catch.
      destruct (Main.prepare w env fuel _ _ []) as [[r0 | m | |] es0]; discriminate.
  - intros r es H. unfold mainStatuses.
    destruct (prepareDownload_ok_cases fuel req r es H)
      as [(m & l & -> & _) | (eventId & _ & [E | (m & es0 & _ & -> & _)])];
      [simpl; auto | | simpl; auto 6].
    destruct (prepare_ok_cases fuel eventId _ r es E)
      as [(l & -> & _) | [(es1 & -> & _) | (d & a & e1 & ids & e2 & H')]];
      [simpl; auto | simpl; auto | ].
    cbv zeta in H'. destruct H' as (_ & _ & _ & _ & _ & -> & _). simpl. auto.
Qed.

End MainRuns.

Lemma fetchAllPhotos_served (w : world) (env : environment) (eventId : string)
    (photos : list photo) (fuel : nat) (h : list event) :
  servesPhotos w env eventId photos ->
  (List.length photos / Main.batchSize < fuel)%nat ->
  Main.fetchAllPhotos w env fuel eventId [] 0 h
  = (Ok photos, pagesOf env eventId (List.length photos)).
Proof.
  intros Hserves Hfuel.
  apply (fetchAllPhotos_pages w env eventId photos Hserves
           (List.length photos / Main.batchSize) fuel 0
           (List.length photos mod Main.batchSize) h Hfuel).
  - apply Nat.mod_upper_bound. discriminate.
  - rewrite (Nat.div_mod_eq (List.length photos) Main.batchSize) at 1. lia.
Qed.

Lemma pagesOf_listing (env : environment) (eventId : string) (n : nat) :
  forallb isListing (pagesOf env eventId n) = true.
Proof.
  unfold pagesOf. induction (pageOffsets 0 (S (n / Main.batchSize))); simpl; auto.
Qed.

Lemma chunkPhotos_flat (budget : Q) (allPhotos : list photo) :
  List.concat (Main.chunkPhotos budget allPhotos) = allPhotos.
Proof.
  unfold Main.chunkPhotos. now rewrite chunkFlush_concat, chunkLoop_concat.
Qed.

(** The first group of a list of photos: a non-empty start of the list. *)
Lemma chunkPhotos_first (budget : Q) (allPhotos : list photo) :
  allPhotos <> [] ->
  exists first groups,
    Main.chunkPhotos budget allPhotos = first :: groups
    /\ first <> []
    /\ allPhotos = first ++ List.concat groups.
Proof.
  intro Hne.
  pose proof (chunkPhotos_flat budget allPhotos) as Hflat.
  pose proof (chunkPhotos_sound exact photo parseFloat_file_size budget allPhotos) as Hs.
  rewrite <- chunkPhotos_exact in Hs.
  destruct (Main.chunkPhotos budget allPhotos) as [|first groups].
  - now elim Hne.
  - exists first, groups. split; [reflexivity|].
    inversion Hs as [|? ? [Hfirst _] _]; subst. auto.
Qed.

Section OwnedEvent.

Variable w : world.
Variable env : environment.
Variable fuel : nat.
Variable req : request.
Variable eventId : string.
Variable eventDoc : eventDocument.
Variable photos : list photo.

Hypothesis Hbody : bodyRaw req = Body_object (Some eventId).
Hypothesis Hid : eventId <> "".
Hypothesis Hdoc : on_getDocument w [ownershipLookup env eventId] = Resolve eventDoc.
Hypothesis Howner :
  x_appwrite_user_id req = Some (trim (String_or_empty (user_id eventDoc))).
Hypothesis Hserves : servesPhotos w env eventId photos.
Hypothesis Hfuel : (List.length photos / Main.batchSize < fuel)%nat.

(** The run of the guarded block up to the groups. *)
Lemma prepare_owned :
  Main.prepare w env fuel eventId (x_appwrite_user_id req) []
  = if (List.length photos =? 0)%nat
    then (Ok (Main.json_error 404 "No photos found"),
          ownershipLookup env eventId :: pagesOf env eventId (List.length photos))
    else
      let chunks := Main.chunkPhotos Main.MAX_CHUNK_MB photos in
      let pre := ownershipLookup env eventId :: pagesOf env eventId (List.length photos) in
      match Main.processChunks w env eventDoc (trim (String_or_empty (user_id eventDoc)))
              eventId (List.length chunks) 0 chunks [] pre with
      | (Ok ids, es) =>
          (Ok (Main.json_success 200 "Download prepared successfully"
                 (List.length chunks) ids), pre ++ es)
      | (Throw message, es) => (Throw message, pre ++ es)
      | (Pending, es) => (Pending, pre ++ es)
      | (OutOfFuel, es) => (OutOfFuel, pre ++ es)
      end.
Proof.
  unfold Main.prepare. rewrite bind_await. cbn [app].
  fold (ownershipLookup env eventId). rewrite Hdoc, Howner.
  assert (Hne : strictNe (trim (String_or_empty (user_id eventDoc)))
                  (Some (trim (String_or_empty (user_id eventDoc)))) = false).
  { destruct (strictNe _ _) eqn:E; [|reflexivity].
    apply strictNe_true in E. now elim E. }
  rewrite Hne.
  rewrite (bind_ok _ _ _ _ _
             (fetchAllPhotos_served w env eventId photos fuel
                [ownershipLookup env eventId] Hserves Hfuel)).
  destruct (List.length photos =? 0)%nat.
  - unfold ret. cbn [fst snd]. now rewrite app_nil_r.
  - cbv zeta. cbn [app].
    destruct (Main.processChunks _ _ _ _ _ _ _ _ _ _) as [[ids | m | |] es] eqn:E.
    + rewrite (bind_ok _ _ _ _ _ E). unfold ret. cbn [fst snd].
      now rewrite app_nil_r.
    + now rewrite (bind_throw _ _ _ _ _ E).
    + now rewrite (bind_pending _ _ _ _ E).
    + unfold bind. now rewrite E.
Qed.

Lemma prepareDownload_owned :
  run (Main.prepareDownload w env fuel req)
  = try_catch (Main.prepare w env fuel eventId (x_appwrite_user_id req))
      (fun message =>
         (context_error ["❌ Error preparing download:"; message] ;;
          ret (Main.json_error 500 message))%run) [].
Proof.
  unfold run, Main.prepareDownload. rewrite Hbody.
  destruct eventId as [|c s]; [now elim Hid|]. reflexivity.
Qed.

(** X8. When the caller owns the event and its collection holds no photo,
    the function answers 404 after the ownership lookup and one listing:
    nothing is downloaded, archived, uploaded or recorded, and no error line
    is written. *)
Theorem no_photos_is_not_found :
  photos = [] ->
  run (Main.prepareDownload w env fuel req)
  = (Ok (Main.json_error 404 "No photos found"),
     [ownershipLookup env eventId; listingCall env eventId 0]).
Proof.
  intro Hnil. rewrite prepareDownload_owned. unfold try_catch.
  rewrite prepare_owned. subst photos. reflexivity.
Qed.

(** X9. A whole run of src/main.js, with the streams timed as Node.js times
    them: the event [finish] is not heard by a listener set after
    [archive.finalize()] has settled.  When the caller owns the event, the
    collection serves its photos, the calls made for the members settle and
    the archiver finalizes, the function does not answer: after the ownership
    lookup and the listing, it asks for every photo of the first group (a
    non-empty start of the listed photos), finalizes the archive of that
    group, sets the listener of line 185 and waits there.  Nothing is
    uploaded, nothing recorded, and no later group is begun. *)
Theorem prepareDownload_waits_for_finish :
  photos <> [] ->
  finishUnheard w ->
  membersSettle w ->
  (forall h, exists zipBuffer, on_finalize w h = Resolve zipBuffer) ->
  exists first rest members,
    photos = first ++ rest
    /\ first <> []
    /\ run (Main.prepareDownload w env fuel req)
       = (Pending,
          ownershipLookup env eventId :: pagesOf env eventId (List.length photos)
          ++ Archiver_zip :: members ++ [Archive_finalize; ZipStream_on_finish])
    /\ filter isDownload members = map (downloadCall env) first
    /\ forallb isMemberEvent members = true.
Proof.
  intros Hne Hu Hs Hfin.
  destruct (chunkPhotos_first Main.MAX_CHUNK_MB photos Hne)
    as (first & groups & Hchunks & Hfirst & Hphotos).
  rewrite prepareDownload_owned. unfold try_catch. rewrite prepare_owned.
  destruct (List.length photos =? 0)%nat eqn:E0.
  { apply Nat.eqb_eq in E0. destruct photos; [now elim Hne|discriminate]. }
  cbv zeta. rewrite Hchunks. cbn [Main.processChunks].
  destruct (processChunk_cases w env eventDoc
              (trim (String_or_empty (user_id eventDoc))) eventId
              (List.length (first :: groups)) 0 first
              (ownershipLookup env eventId :: pagesOf env eventId (List.length photos)))
    as (members & Hall & [(_ & Hn & _) | (_ & Hd & Hcases)]);
    [now elim Hn|].
  cbv zeta in Hcases.
  match type of Hcases with
  | context [on_finalize w ?x] => destruct (Hfin x) as [zipBuffer E1]
  end.
  rewrite E1, Hu in Hcases.
  rewrite (bind_pending _ _ _ _ Hcases).
  exists first, (List.concat groups), members.
  split; [exact Hphotos|]. split; [exact Hfirst|].
  split; [reflexivity|]. split; [exact Hd|exact Hall].
Qed.

End OwnedEvent.

Section MainAnswers.

Variable w : world.
Variable env : environment.

(** X11. When the lookup of the event is rejected (an unknown event, say),
    the function answers 500 with the message of the rejection; the run
    consists of the lookup and the error line of the outer catch. *)
Theorem rejected_lookup_is_server_error (fuel : nat) (req : request)
    (eventId message : string) :
  bodyRaw req = Body_object (Some eventId) ->
  eventId <> "" ->
  on_getDocument w [ownershipLookup env eventId] = Reject message ->
  run (Main.prepareDownload w env fuel req)
  = (Ok (Main.json_error 500 message),
     [ownershipLookup env eventId; outerErrorLine message]).
Proof.
  intros Hbody Hid Hdoc. unfold run, Main.prepareDownload. rewrite Hbody.
  destruct eventId as [|c s]; [now elim Hid|].
  cbn [falsy orElse]. unfold try_catch, Main.prepare.
  rewrite bind_await. cbn [app].
  fold (ownershipLookup env (String c s)). rewrite Hdoc.
  reflexivity.
Qed.

(** The calls of the guarded block when the event [finish] is not heard. *)
Lemma prepare_unheard (f : event -> bool) (fuel : nat) (eventId : string)
    (currentUserId : option string) :
  finishUnheard w ->
  f = isUpload \/ f = isRecord ->
  filter f (snd (Main.prepare w env fuel eventId currentUserId [])) = []
  /\ forall r, fst (Main.prepare w env fuel eventId currentUserId []) = Ok r ->
       Main.statusCode_of r <> 200%nat.
Proof.
  intros Hu Hf.
  assert (Hl : forall e, isListing e = true -> f e = false).
  { intros e He. destruct Hf as [-> | ->]; now destruct e. }
  assert (Hdoc : forall a b c, f (Databases_getDocument a b c) = false).
  { intros a b c. now destruct Hf as [-> | ->]. }
  assert (Hline : forall args, f (Context_error args) = false).
  { intro args. now destruct Hf as [-> | ->]. }
  unfold Main.prepare. rewrite bind_await.
  destruct (on_getDocument w _) as [eventDoc | m |];
    cbn [fst snd filter]; rewrite Hdoc;
    try (split; [reflexivity|discriminate]).
  destruct (strictNe _ _).
  { unfold context_error. rewrite bind_emit. cbn [ret fst snd filter].
    rewrite Hline. split; [reflexivity|intros r [= <-]; discriminate]. }
  match goal with
  | |- context [bind (Main.fetchAllPhotos w env fuel ?eid [] 0) ?k ?h] =>
      pose proof (fetchAllPhotos_lists w env fuel eid [] 0%nat h) as Hlist;
      destruct (Main.fetchAllPhotos w env fuel eid [] 0 h)
        as [[allPhotos | m | |] es1] eqn:E1;
      [rewrite (bind_ok _ _ _ _ _ E1)
      |rewrite (bind_throw _ _ _ _ _ E1)
      |rewrite (bind_pending _ _ _ _ E1)
      |unfold bind; rewrite E1]
  end; cbn [fst snd] in *;
    pose proof (filter_none f isListing es1 Hlist Hl) as Hq;
    try (split; [exact Hq|discriminate]).
  destruct (List.length allPhotos =? 0)%nat eqn:E0.
  { cbn [ret fst snd]. rewrite app_nil_r.
    split; [exact Hq|intros r [= <-]; discriminate]. }
  assert (Hne : Main.chunkPhotos Main.MAX_CHUNK_MB allPhotos <> []).
  { intro Hnil. pose proof (chunkPhotos_flat Main.MAX_CHUNK_MB allPhotos) as Hflat.
    rewrite Hnil in Hflat. cbn in Hflat. subst allPhotos. discriminate. }
  match goal with
  | |- context [bind (Main.processChunks ?a ?b ?c ?d ?e ?t ?i ?cs ?cr) ?k ?h] =>
      destruct (processChunks_unheard a b c d e t cs i cr h Hu) as (Hno & Hup & Hrec);
      destruct (Main.processChunks a b c d e t i cs cr h) as [[ids | m | |] es2] eqn:E2;
      [now elim (Hno Hne ids)
      |rewrite (bind_throw _ _ _ _ _ E2)
      |rewrite (bind_pending _ _ _ _ E2)
      |unfold bind; rewrite E2]
  end; cbn [fst snd] in *; rewrite filter_app, Hq;
    (split; [|discriminate]);
    destruct Hf as [-> | ->]; auto.
Qed.

(** When the event [finish] is not heard, the function uploads nothing,
    records nothing and does not answer 200. *)
Lemma prepareDownload_unheard (fuel : nat) (req : request) :
  finishUnheard w ->
  filter isUpload (snd (run (Main.prepareDownload w env fuel req))) = []
  /\ filter isRecord (snd (run (Main.prepareDownload w env fuel req))) = []
  /\ forall r es,
       run (Main.prepareDownload w env fuel req) = (Ok r, es) ->
       In (Main.statusCode_of r) [400; 403; 404; 500]%nat.
Proof.
  intro Hu.
  assert (Hf : forall f, f = isUpload \/ f = isRecord ->
            filter f (snd (run (Main.prepareDownload w env fuel req))) = []).
  { intros f Hf. unfold run, Main.prepareDownload.
    assert (Hline : forall args, f (Context_error args) = false).
    { intro args. now destruct Hf as [-> | ->]. }
    destruct (bodyRaw req) as [| m | | eventId];
      try (cbn [context_error emit bind ret throw fst snd filter app];
           rewrite ?Hline; reflexivity).
    destruct (falsy eventId);
      [cbn [context_error emit bind ret fst snd filter app]; now rewrite Hline|].
    unfold try_catch.
    destruct (prepare_unheard f fuel (orElse eventId "") (x_appwrite_user_id req) Hu Hf)
      as [Hq _].
    destruct (Main.prepare w env fuel _ _ []) as [[r | m | |] es0]; cbn [snd] in *;
      try exact Hq.
    unfold context_error. rewrite bind_emit. cbn [ret fst snd].
    rewrite filter_app, Hq. cbn [app filter]. now rewrite Hline. }
  split; [apply Hf; auto|]. split; [apply Hf; auto|].
  intros r es H.
  pose proof (prepareDownload_always_answers w env fuel req) as Hall.
  destruct (prepareDownload_ok_cases w env fuel req r es H)
    as [(m & l & -> & _) | (eventId & _ & [E | (m & es0 & _ & -> & _)])];
    [simpl; auto | | simpl; auto 6].
  destruct (prepare_unheard isUpload fuel eventId (x_appwrite_user_id req) Hu
              (or_introl eq_refl)) as [_ Hno].
  rewrite E in Hno. specialize (Hno r eq_refl).
  destruct (prepare_ok_cases w env fuel eventId _ r es E)
    as [(l & -> & _) | [(es1 & -> & _) | (d & a & e1 & ids & e2 & H')]];
    [simpl; auto | simpl; auto | ].
  cbv zeta in H'. destruct H' as (_ & _ & _ & _ & _ & -> & _). now elim Hno.
Qed.

(** X12. With the streams timed as Node.js times them (the event [finish]
    is not heard by a listener set after [archive.finalize()] has settled),
    src/main.js never delivers: whatever else the world does, no run uploads
    an archive or creates a download record, and an answer, when there is
    one, is a 400, 403, 404 or 500, never the 200 of the final summary. *)
Theorem main_never_delivers (fuel : nat) (req : request) :
  finishUnheard w ->
  filter isUpload (snd (run (Main.prepareDownload w env fuel req))) = []
  /\ filter isRecord (snd (run (Main.prepareDownload w env fuel req))) = []
  /\ forall r es,
       run (Main.prepareDownload w env fuel req) = (Ok r, es) ->
       In (Main.statusCode_of r) [400; 403; 404; 500]%nat.
Proof. apply prepareDownload_unheard. Qed.

End MainAnswers.

Lemma fetchAllPhotos_collects_witness :
  Main.fetchAllPhotos (exampleWorld "alice" None threePhotos (fun _ => false))
    exampleEnv 5 "event-1" [] 0 []
  = (Ok threePhotos,
     map (listingCall exampleEnv "event-1")
       (pageOffsets 0 (S (List.length threePhotos / Main.batchSize)))).
Proof.
  apply (fetchAllPhotos_collects
           (exampleWorld "alice" None threePhotos (fun _ => false))
           exampleEnv "event-1" threePhotos).
  - intros h offset. simpl. unfold lastOffset. rewrite last_last. reflexivity.
  - simpl. lia.
Defined.

Lemma fetchAllPhotos_never_ends_witness :
  fst (Main.fetchAllPhotos endlessWorld exampleEnv 7 "event-1" [] 0 []) = OutOfFuel
  /\ List.length (snd (Main.fetchAllPhotos endlessWorld exampleEnv 7 "event-1" [] 0 []))
     = 7%nat.
Proof.
  apply (fetchAllPhotos_never_ends endlessWorld exampleEnv 7 "event-1").
  intro h. exists (repeat (ph "1" 1) 100). split; [reflexivity|].
  rewrite repeat_length. unfold Main.batchSize. lia.
Defined.

Lemma no_event_is_bad_request_witness :
  exists message line,
    run (Main.prepareDownload endlessWorld exampleEnv 5
           {| bodyRaw := Body_object (Some ""); x_appwrite_user_id := Some "alice" |})
    = (Ok (Main.json_error 400 message), [Context_error [line]]).
Proof.
  apply (no_event_is_bad_request endlessWorld exampleEnv 5
           {| bodyRaw := Body_object (Some ""); x_appwrite_user_id := Some "alice" |}).
  reflexivity.
Defined.

Lemma prepareDownload_always_answers_witness :
  (forall message,
     fst (run (Main.prepareDownload unknownEventWorld exampleEnv 5
                 (exampleRequest (Some "alice"))))
     <> Throw message)
  /\ (forall r es,
        run (Main.prepareDownload unknownEventWorld exampleEnv 5
               (exampleRequest (Some "alice")))
        = (Ok r, es) ->
        In (Main.statusCode_of r) mainStatuses).
Proof.
  apply (prepareDownload_always_answers unknownEventWorld exampleEnv 5
           (exampleRequest (Some "alice"))).
  discriminate.
Defined.

Lemma no_photos_is_not_found_witness :
  run (Main.prepareDownload (exampleWorld "alice" None [] (fun _ => false))
         exampleEnv 5 (exampleRequest (Some "alice")))
  = (Ok (Main.json_error 404 "No photos found"),
     [ownershipLookup exampleEnv "event-1"; listingCall exampleEnv "event-1" 0]).
Proof.
  apply (no_photos_is_not_found (exampleWorld "alice" None [] (fun _ => false))
           exampleEnv 5 (exampleRequest (Some "alice")) "event-1" aliceDoc []).
  - reflexivity.
  - discriminate.
  - reflexivity.
  - reflexivity.
  - intros h offset. simpl. unfold lastOffset. rewrite last_last. reflexivity.
  - simpl. lia.
  - reflexivity.
Defined.

Lemma exampleWorld_membersSettle (owner : string) (name : option string)
    (photos : list photo) (broken : string -> bool) :
  membersSettle (exampleWorld owner name photos broken).
Proof.
  intro h. unfold exampleWorld. cbn [on_getFileDownload on_append].
  split; [destruct (broken (lastFileId h))|]; discriminate.
Qed.

Lemma prepareDownload_waits_for_finish_witness :
  exists first rest members,
    threePhotos = first ++ rest
    /\ first <> []
    /\ run (Main.prepareDownload
              (exampleWorld "alice" None threePhotos (String.eqb "f_2"))
              exampleEnv 5 (exampleRequest (Some "alice")))
       = (Pending,
          ownershipLookup exampleEnv "event-1"
          :: pagesOf exampleEnv "event-1" (List.length threePhotos)
          ++ Archiver_zip :: members ++ [Archive_finalize; ZipStream_on_finish])
    /\ filter isDownload members = map (downloadCall exampleEnv) first
    /\ forallb isMemberEvent members = true.
Proof.
  apply (prepareDownload_waits_for_finish
           (exampleWorld "alice" None threePhotos (String.eqb "f_2"))
           exampleEnv 5 (exampleRequest (Some "alice")) "event-1" aliceDoc threePhotos).
  - reflexivity.
  - discriminate.
  - reflexivity.
  - reflexivity.
  - intros h offset. simpl. unfold lastOffset. rewrite last_last. reflexivity.
  - simpl. lia.
  - discriminate.
  - intro h. reflexivity.
  - apply exampleWorld_membersSettle.
  - intro h. eexists. reflexivity.
Defined.

Lemma rejected_lookup_is_server_error_witness :
  run (Main.prepareDownload unknownEventWorld exampleEnv 5 (exampleRequest (Some "alice")))
  = (Ok (Main.json_error 500 "Document with the requested ID could not be found."),
     [ownershipLookup exampleEnv "event-1";
      outerErrorLine "Document with the requested ID could not be found."]).
Proof.
  apply (rejected_lookup_is_server_error unknownEventWorld exampleEnv 5
           (exampleRequest (Some "alice")) "event-1").
  - reflexivity.
  - discriminate.
  - reflexivity.
Defined.

Lemma main_never_delivers_witness :
  filter isUpload
    (snd (run (Main.prepareDownload
                 (exampleWorld "alice" None threePhotos (fun _ => false))
                 exampleEnv 5 (exampleRequest (Some "alice"))))) = []
  /\ filter isRecord
       (snd (run (Main.prepareDownload
                    (exampleWorld "alice" None threePhotos (fun _ => false))
                    exampleEnv 5 (exampleRequest (Some "alice"))))) = []
  /\ forall r es,
       run (Main.prepareDownload
              (exampleWorld "alice" None threePhotos (fun _ => false))
              exampleEnv 5 (exampleRequest (Some "alice"))) = (Ok r, es) ->
       In (Main.statusCode_of r) [400; 403; 404; 500]%nat.
Proof.
  apply (main_never_delivers (exampleWorld "alice" None threePhotos (fun _ => false))
           exampleEnv 5 (exampleRequest (Some "alice"))).
  intro h. reflexivity.
Defined.

(** ** Groups without a fetched member *)

(** C4, as the code has it.  In src/main.js nothing counts the members that
    were appended: once the member loop of a group has ended, the archive of
    the group is finalized, whatever became of its members.  In the streaming
    revision an archive is closed only when it holds an appended photo: in
    every run, each finalization comes after an append that was resolved
    since the archive was opened.  So when no photo can be fetched and
    appended, no run finalizes, uploads or records anything, and the final
    summary, when the run reaches it, lists no archive and reports every
    photo as failed. *)
Theorem unfetched_groups (w : world) (env : environment) :
  (forall eventDoc currentUserId eventId total i chunk h members,
     forEach chunk (Main.addPhoto w env) (h ++ [Archiver_zip]) = (Ok tt, members) ->
     exists rest,
       snd (Main.processChunk w env eventDoc currentUserId eventId total i chunk h)
       = Archiver_zip :: members ++ Archive_finalize :: rest)
  /\ (forall fuel req,
        closesNonEmpty w [] (snd (run (Streaming.prepareDownload w env fuel req))) 0)
  /\ (noneAppended w ->
      forall fuel req,
        filter isArchiving (snd (run (Streaming.prepareDownload w env fuel req))) = []
        /\ forall c message sm dls fls,
             fst (run (Streaming.prepareDownload w env fuel req))
             = Ok (Streaming.json_success c message sm dls fls) ->
             dls = []
             /\ Streaming.totalChunks sm = 0%nat
             /\ Streaming.processedPhotos sm = 0%nat
             /\ exists fl,
                  fls = Some fl
                  /\ List.length fl = Streaming.totalPhotos sm).
Proof.
  split.
  - intros eventDoc currentUserId eventId total i chunk h members Hm.
    destruct (processChunk_cases w env eventDoc currentUserId eventId total i chunk h)
      as (members' & Hall & [(Hm' & _) | (Hm' & _ & Hcases)]);
      rewrite Hm in Hm'; [discriminate|].
    injection Hm' as <-. cbv zeta in Hcases.
    destruct (on_finalize w _) as [zipBuffer | m |];
      [destruct (on_finish w _);
       [destruct (on_createFile w _) as [uploadedId | m |]|]| |];
      rewrite Hcases; cbn [snd]; eexists; reflexivity.
  - split; [intros fuel req; apply streaming_run_counts|].
    intros Hn fuel req.
    destruct (streaming_run_preserved w env
                (fun v => Streaming.currentZipFileCount v = 0%nat
                          /\ Streaming.createdDownloads v = [])
                isArchiving (fun e H => H) (conj eq_refl eq_refl)
                (fun eventDoc currentUserId eventId photos =>
                   archiveAll_noneAppended w env eventDoc currentUserId eventId photos Hn)
                fuel req) as [Hq Hok].
    split; [exact Hq|].
    intros c message sm dls fls H.
    destruct (Hok c message sm dls fls H) as (v & [_ Hdls] & ->).
    destruct (run (Streaming.prepareDownload w env fuel req)) as [o es] eqn:E.
    cbn [fst] in H. subst o.
    destruct (streaming_success w env fuel req c message sm _ fls es E)
      as (_ & _ & Hsome & Hcount & Hsum & Hchunks & Hprocessed & Hpos & _).
    rewrite Hdls in *. simpl in Hprocessed, Hchunks.
    split; [reflexivity|]. split; [exact Hchunks|]. split; [now symmetry|].
    destruct fls as [fl|]; cbn [reported List.length] in Hcount; [|lia].
    exists fl. split; [reflexivity|]. lia.
Qed.

Lemma unfetched_groups_witness :
  (exists rest,
     snd (Main.processChunk
            (exampleWorld "alice" None [ph "1" 1000; ph "2" 1200] (fun _ => true))
            exampleEnv aliceDoc "alice" "event-1" 1 0 [ph "1" 1000] [])
     = Archiver_zip
       :: [downloadCall exampleEnv (ph "1" 1000);
           failureLine (ph "1" 1000) "File not found"]
       ++ Archive_finalize :: rest)
  /\ filter isArchiving
       (snd (run (Streaming.prepareDownload
                    (exampleWorld "alice" None [ph "1" 1000; ph "2" 1200] (fun _ => true))
                    exampleEnv 5 (exampleRequest (Some "alice"))))) = []
  /\ forall c message sm dls fls,
       fst (run (Streaming.prepareDownload
                   (exampleWorld "alice" None [ph "1" 1000; ph "2" 1200]
                      (fun _ => true))
                   exampleEnv 5 (exampleRequest (Some "alice"))))
       = Ok (Streaming.json_success c message sm dls fls) ->
       dls = []
       /\ Streaming.totalChunks sm = 0%nat
       /\ Streaming.processedPhotos sm = 0%nat
       /\ exists fl, fls = Some fl /\ List.length fl = Streaming.totalPhotos sm.
Proof.
  split.
  - apply (proj1 (unfetched_groups
                    (exampleWorld "alice" None [ph "1" 1000; ph "2" 1200] (fun _ => true))
                    exampleEnv)
             aliceDoc "alice" "event-1" 1%nat 0%nat [ph "1" 1000] []).
    vm_compute. reflexivity.
  - apply (proj2 (proj2 (unfetched_groups
                    (exampleWorld "alice" None [ph "1" 1000; ph "2" 1200] (fun _ => true))
                    exampleEnv))).
    left. intro h. eexists. reflexivity.
Defined.

(** The run of the witness: both photos fail, nothing is archived, and the
    summary lists both failures. *)
Example streaming_all_failed :
  run (Streaming.prepareDownload
         (exampleWorld "alice" None [ph "1" 1000; ph "2" 1200] (fun _ => true))
         exampleEnv 5 (exampleRequest (Some "alice")))
  = (Ok (Streaming.json_success 200 "Download prepared successfully (2 photos failed)"
           {| Streaming.totalPhotos := 2; Streaming.processedPhotos := 0;
              Streaming.failedPhotosCount := 2; Streaming.totalChunks := 0;
              Streaming.totalSizeMB := toFixed2 0 |}
           []
           (Some [failureOf (ph "1" 1000) "File not found";
                  failureOf (ph "2" 1200) "File not found"])),
     [ownershipLookup exampleEnv "event-1"; selectCall exampleEnv "event-1" 0;
      selectCall exampleEnv "event-1" 2;
      Archiver_zip;
      downloadCall exampleEnv (ph "1" 1000);
      streamFailureLine (failureOf (ph "1" 1000) "File not found");
      downloadCall exampleEnv (ph "2" 1200);
      streamFailureLine (failureOf (ph "2" 1200) "File not found")]).
Proof. vm_compute. reflexivity. Qed.

(** C4 as stated fails on src/main.js: with one photo whose download fails,
    the only group has no member appended; it is not skipped, its archive is
    made and finalized like any other, empty as it is, and the run does not
    go on: it waits for the event [finish] of the stream of that archive. *)
Lemma empty_group_is_archived :
  run (Main.prepareDownload (exampleWorld "alice" None [ph "1" 1000] (fun _ => true))
         exampleEnv 5 (exampleRequest (Some "alice")))
  = (Pending,
     [ownershipLookup exampleEnv "event-1"; listingCall exampleEnv "event-1" 0;
      Archiver_zip;
      downloadCall exampleEnv (ph "1" 1000);
      failureLine (ph "1" 1000) "File not found";
      Archive_finalize;
      ZipStream_on_finish])
  /\ ~ closesNonEmpty (exampleWorld "alice" None [ph "1" 1000] (fun _ => true)) []
        (snd (run (Main.prepareDownload
                     (exampleWorld "alice" None [ph "1" 1000] (fun _ => true))
                     exampleEnv 5 (exampleRequest (Some "alice")))))
        0.
Proof.
  split; [vm_compute; reflexivity|].
  intro H. vm_compute in H.
  destruct H as (_ & _ & _ & _ & _ & H & _).
  specialize (H eq_refl). inversion H.
Qed.

(** ** Failures in the final summary *)



(** ** The streaming revision: requests and paging
    (src/unnamed/part_000, second listing) *)

Section StreamingRequests.

Variable w : world.
Variable env : environment.

(** X13. The streaming revision asks for an identity before anything else:
    a request that names an event but carries no (or an empty) identity
    header is answered 401 without any call and without an error line. *)
Theorem missing_identity_is_unauthorized (fuel : nat) (req : request)
    (eventId : string) :
  bodyRaw req = Body_object (Some eventId) ->
  eventId <> "" ->
  falsy (x_appwrite_user_id req) = true ->
  run (Streaming.prepareDownload w env fuel req)
  = (Ok (Streaming.json_error 401 "Unauthorized - User not logged in"), []).
Proof.
  intros Hbody Hid Hno. unfold run, Streaming.prepareDownload.
  rewrite Hbody. destruct eventId as [|c s]; [now elim Hid|].
  cbn [falsy]. rewrite Hno. reflexivity.
Qed.

(** X14. In the streaming revision the owner is compared as [String(user_id)],
    untrimmed: when the lookup answers and that string is not the caller's
    identity, the answer is 403 and the run consists of the lookup alone (no
    error line is written). *)
Theorem streaming_mismatch_is_forbidden (fuel : nat) (req : request)
    (eventId currentUserId : string) (eventDoc : eventDocument) :
  bodyRaw req = Body_object (Some eventId) ->
  eventId <> "" ->
  x_appwrite_user_id req = Some currentUserId ->
  currentUserId <> "" ->
  on_getDocument w [ownershipLookup env eventId] = Resolve eventDoc ->
  String_of (user_id eventDoc) <> currentUserId ->
  run (Streaming.prepareDownload w env fuel req)
  = (Ok (Streaming.json_error 403 "Forbidden — you do not own this event."),
     [ownershipLookup env eventId]).
Proof.
  intros Hbody Hid Hcu Hcne Hdoc Hne. unfold run, Streaming.prepareDownload.
  rewrite Hbody, Hcu.
  destruct eventId as [|c s]; [now elim Hid|].
  destruct currentUserId as [|c' s']; [now elim Hcne|].
  cbn [falsy orElse]. unfold try_catch, Streaming.prepare.
  rewrite bind_await. cbn [app]. fold (ownershipLookup env (String c s)).
  rewrite Hdoc.
  apply String.eqb_neq in Hne. rewrite Hne. reflexivity.
Qed.

Lemma Streaming_fetch_bounded (eventId : string) (fuel : nat) :
  forall offset allPhotos h,
    (offset <= photoLimit)%nat ->
    (photoLimit < fuel + offset)%nat ->
    fst (Streaming.fetchAllPhotos w env fuel eventId allPhotos offset h) <> OutOfFuel
    /\ (List.length (snd (Streaming.fetchAllPhotos w env fuel eventId allPhotos offset h))
        + offset <= photoLimit + 1)%nat.
Proof.
  induction fuel as [|fuel IH]; intros offset allPhotos h Hoff Hfuel; [lia|].
  cbn [Streaming.fetchAllPhotos]. rewrite bind_await.
  destruct (on_listDocuments w _) as [documents | m |];
    [|cbn [fst snd List.length]; split; [discriminate|lia]
     |cbn [fst snd List.length]; split; [discriminate|lia]].
  destruct (nonEmpty documents) eqn:Hne;
    [|unfold ret; cbn [fst snd List.length]; split; [discriminate|lia]].
  apply nonEmpty_true in Hne.
  assert (Hlen : (1 <= List.length documents)%nat)
    by (destruct documents; [now elim Hne|simpl; lia]).
  fold photoLimit.
  destruct (photoLimit <? offset + List.length documents)%nat eqn:Hcap;
    [unfold ret; cbn [fst snd List.length]; split; [discriminate|lia]|].
  apply Nat.ltb_ge in Hcap.
  destruct (IH (offset + List.length documents)%nat (allPhotos ++ documents)
              (h ++ [Databases_listDocuments (APPWRITE_DATABASE_ID env)
                       (APPWRITE_PHOTO_COLLECTION_ID env)
                       [Query_equal "event_id" eventId;
                        Query_limit Streaming.BATCH_SIZE;
                        Query_offset offset;
                        Query_select ["$id"; "file_id"; "file_size";
                                      "file_type"; "file_name"]]])
              Hcap ltac:(lia)) as [H1 H2].
  cbn [fst snd List.length]. split; [exact H1|lia].
Qed.

(** X15. The paging loop of the streaming revision is bounded, whatever the
    collection answers: it ends (with the photos or with the error of a
    rejected listing) after at most 10,001 listings. *)
Theorem streaming_paging_is_bounded (eventId : string) (fuel : nat)
    (allPhotos : list photo) (h : list event) :
  (photoLimit < fuel)%nat ->
  fst (Streaming.fetchAllPhotos w env fuel eventId allPhotos 0 h) <> OutOfFuel
  /\ (List.length (snd (Streaming.fetchAllPhotos w env fuel eventId allPhotos 0 h))
      <= photoLimit + 1)%nat.
Proof.
  intro Hfuel.
  destruct (Streaming_fetch_bounded eventId fuel 0 allPhotos h) as [H1 H2];
    [lia|lia|].
  split; [exact H1|lia].
Qed.

End StreamingRequests.

Section StreamingPaging.

Variable w : world.
Variable env : environment.
Variable eventId : string.
Variable photos : list photo.
Hypothesis Hserves : servesSelected w env eventId photos.

(** Past the end of the collection the next listing is empty. *)
Lemma Streaming_fetch_end (fuel : nat) (offset : nat) (h : list event) :
  (List.length photos <= offset)%nat ->
  fst (Streaming.fetchAllPhotos w env (S fuel) eventId photos offset h) = Ok photos.
Proof.
  intro Hlen. cbn [Streaming.fetchAllPhotos]. rewrite bind_await.
  fold (selectCall env eventId offset). rewrite Hserves.
  rewrite skipn_all2 by exact Hlen. rewrite firstn_nil. reflexivity.
Qed.

Lemma Streaming_fetch_pages (fuel : nat) : forall k h,
  (k <= 100)%nat ->
  (102 <= fuel + k)%nat ->
  fst (Streaming.fetchAllPhotos w env fuel eventId (firstn (100 * k) photos) (100 * k) h)
  = Ok (firstn photoCap photos).
Proof.
  unfold photoCap, photoLimit, Streaming.BATCH_SIZE.
  induction fuel as [|fuel IH]; intros k h Hk Hfuel; [lia|].
  cbn [Streaming.fetchAllPhotos]. rewrite bind_await.
  fold (selectCall env eventId (100 * k)). rewrite Hserves.
  unfold Streaming.BATCH_SIZE.
  assert (Hpage : List.length (firstn 100 (skipn (100 * k) photos))
                  = Nat.min 100 (List.length photos - 100 * k))
    by (now rewrite length_firstn, length_skipn).
  destruct (nonEmpty (firstn 100 (skipn (100 * k) photos))) eqn:Hne.
  - apply nonEmpty_true in Hne.
    assert (Hpos : (1 <= List.length (firstn 100 (skipn (100 * k) photos)))%nat)
      by (destruct (firstn 100 (skipn (100 * k) photos)); [now elim Hne|simpl; lia]).
    rewrite <- firstn_plus.
    destruct (100 * 100 <? 100 * k + _)%nat eqn:Hcap.
    + apply Nat.ltb_lt in Hcap. unfold ret. cbn [fst].
      replace k with 100%nat by lia. reflexivity.
    + apply Nat.ltb_ge in Hcap. cbn [fst].
      destruct (Nat.eq_dec (List.length (firstn 100 (skipn (100 * k) photos))) 100)
        as [Hfull | Hshort].
      * rewrite Hfull.
        replace (100 * k + 100)%nat with (100 * S k)%nat by lia.
        apply IH; lia.
      * assert (Hn : (List.length photos
                      = 100 * k + List.length (firstn 100 (skipn (100 * k) photos)))%nat)
          by lia.
        rewrite (firstn_all2 (n := (100 * k + 100)%nat)) by lia.
        destruct fuel as [|fuel]; [lia|].
        rewrite Streaming_fetch_end by lia.
        now rewrite firstn_all2 by lia.
  - apply nonEmpty_false in Hne. unfold ret. cbn [fst].
    rewrite Hne in Hpage. cbn [List.length] in Hpage.
    rewrite !firstn_all2 by lia. reflexivity.
Qed.

(** X16. Against a collection that serves its photos by offset, at most 100
    per page, the paging loop of the streaming revision returns the first
    10,100 photos of the collection: the limit of 10,000 is tested after a
    page has been added, so a collection of up to 10,100 photos is taken
    whole and a longer one is cut there. *)
Theorem streaming_paging_collects (fuel : nat) (h : list event) :
  (101 < fuel)%nat ->
  fst (Streaming.fetchAllPhotos w env fuel eventId [] 0 h)
  = Ok (firstn photoCap photos).
Proof.
  intro Hfuel. apply (Streaming_fetch_pages fuel 0 h); lia.
Qed.

End StreamingPaging.

Section StreamingAnswers.

Variable w : world.
Variable env : environment.

(** What the guarded block of the streaming revision returns is a 403, a
    404 or the final summary, and it does not run out of fuel once the
    paging loop has enough of it. *)
Lemma Streaming_prepare_cases (fuel : nat) (eventId currentUserId : string)
    (h : list event) :
  (forall r es,
     Streaming.prepare w env fuel eventId currentUserId h = (Ok r, es) ->
     In (Streaming.statusCode_of r) [200; 403; 404]%nat)
  /\ ((photoLimit < fuel)%nat ->
      fst (Streaming.prepare w env fuel eventId currentUserId h) <> OutOfFuel).
Proof.
  unfold Streaming.prepare. rewrite bind_await.
  destruct (on_getDocument w _) as [eventDoc | m |];
    try (split; [discriminate|intros _; cbn [fst]; discriminate]).
  destruct (negb _).
  { unfold ret. cbn [fst snd]. split; [|discriminate].
    intros r es [= <- _]. simpl. auto. }
  match goal with
  | |- context [bind (Streaming.fetchAllPhotos w env fuel ?eid [] 0) ?k ?h'] =>
      pose proof (fun Hf => proj1 (streaming_paging_is_bounded w env eid fuel [] h' Hf))
        as Hb;
      destruct (Streaming.fetchAllPhotos w env fuel eid [] 0 h')
        as [[ps | m | |] es1] eqn:E1;
      [rewrite (bind_ok _ _ _ _ _ E1)
      |rewrite (bind_throw _ _ _ _ _ E1)
      |rewrite (bind_pending _ _ _ _ E1)
      |unfold bind; rewrite E1]
  end; cbn [fst snd] in *;
    try (split; [discriminate|intros _; discriminate]);
    [|split; [discriminate|intros Hf _; now elim (Hb Hf)]].
  destruct (List.length ps =? 0)%nat.
  { unfold ret. cbn [fst snd]. split; [|discriminate].
    intros r es [= <- _]. simpl. auto. }
  match goal with
  | |- context [bind (Streaming.withVars ?m ?v) ?k ?h'] =>
      destruct (tracks_archiveAll w env eventDoc currentUserId eventId ps v h')
        as (_ & _ & _ & _ & _ & _ & Hfuel' & _);
      unfold bind, Streaming.withVars;
      destruct (m v h') as [[[[] | m' | |] v'] es2] eqn:E2
  end; cbn [fst snd ret] in *;
    try (split; [discriminate|intros _; discriminate]).
  - split; [|discriminate]. intros r es [= <- _]. left. reflexivity.
  - now elim Hfuel'.
Qed.

(** X17. The streaming revision lets no error escape: unless the body is
    the JSON value null, every error thrown past the parsing of the request
    is caught and answered.  What it answers has one of the statuses 200,
    400, 401, 403, 404 and 500; and given fuel for the 10,001 listings its
    paging loop can make, a run that has not answered is waiting for a call
    or an event, not paging. *)
Theorem streaming_always_answers (fuel : nat) (req : request) :
  bodyRaw req <> Body_null ->
  (forall message,
     fst (run (Streaming.prepareDownload w env fuel req)) <> Throw message)
  /\ (forall r es,
        run (Streaming.prepareDownload w env fuel req) = (Ok r, es) ->
        In (Streaming.statusCode_of r) streamingStatuses)
  /\ ((photoLimit < fuel)%nat ->
      fst (run (Streaming.prepareDownload w env fuel req)) <> OutOfFuel).
Proof.
  intros Hbody. unfold run, Streaming.prepareDownload, streamingStatuses.
  destruct (bodyRaw req) as [| m | | eventId];
    try (split; [discriminate|split; [|discriminate]];
         intros r es [= <- _]; simpl; auto).
  - now elim Hbody.
  - destruct (falsy eventId);
      [split; [discriminate|split; [|discriminate]];
       intros r es [= <- _]; simpl; auto|].
    destruct (falsy (x_appwrite_user_id req));
      [split; [discriminate|split; [|discriminate]];
       intros r es [= <- _]; simpl; auto|].
    unfold try_catch.
    destruct (Streaming_prepare_cases fuel (orElse eventId "")
                (orElse (x_appwrite_user_id req) "") []) as [Hok Hfuel].
    destruct (Streaming.prepare w env fuel _ _ []) as [[r0 | m | |] es0];
      cbn [fst] in *.
    + split; [discriminate|split; [|discriminate]].
      intros r es [= <- _].
      destruct (Hok r0 es0 eq_refl) as [<- | [<- | [<- | []]]]; simpl; auto 7.
    + unfold context_error. rewrite bind_emit. unfold ret. cbn [fst snd].
      split; [discriminate|split; [|discriminate]].
      intros r es [= <- _]. simpl. auto 7.
    + split; [discriminate|split; [discriminate|discriminate]].
    + split; [discriminate|split; [discriminate|exact Hfuel]].
Qed.

End StreamingAnswers.

(** ** The streaming revision: cutting and whole runs *)

Section StreamingCuts.

Variable w : world.
Variable env : environment.
Variable eventDoc : eventDocument.
Variables currentUserId eventId : string.

Lemma finalizeAndUploadZip_throws (v v2 : Streaming.vars) (h es : list event)
    (message : string) :
  Streaming.finalizeAndUploadZip w env eventDoc currentUserId eventId v h
  = (Throw message, v2, es) ->
  v2 = v /\ filter isDownload es = [] /\ filter isAppend es = [].
Proof.
  pose proof (finalizeAndUploadZip_cases w env eventDoc currentUserId eventId v h) as H.
  cbv zeta in H.
  destruct (on_finalize w _) as [zipBuffer | m |];
    [destruct (on_finish w _);
     [destruct (on_createFile w _) as [uploadedId | m |];
      [destruct (on_createDocument w _) as [dlDoc | m |]| |]|]| |];
    rewrite H; intros [= <- <- <-]; repeat split;
    unfold announcement; now destruct (emits_error w _).
Qed.

(** X18. In the streaming revision a failure to close the open archive is
    booked to the photo that made it overflow: when the cut before a photo
    fails (the archiver, the upload or the record creation is rejected), the
    photo is reported as failed with the message of that error, it is neither
    downloaded nor appended, the bookkeeping of the open archive is left as
    it was, and the loop goes on with the next photo. *)
Theorem failed_cut_is_booked_to_photo (p : photo) (v v2 : Streaming.vars)
    (h es : list event) (message : string) :
  cuts v p = true ->
  Streaming.finalizeAndUploadZip w env eventDoc currentUserId eventId (counted v) h
  = (Throw message, v2, es) ->
  Streaming.processPhoto w env eventDoc currentUserId eventId p v h
  = (Ok tt, blamed (counted v) p message,
     es ++ [streamFailureLine (failureOf p message)])
  /\ filter isDownload es = []
  /\ filter isAppend es = [].
Proof.
  intros Hcut Hfin.
  destruct (finalizeAndUploadZip_throws _ _ _ _ _ Hfin) as (-> & Hd & Ha).
  split; [|split; assumption].
  unfold Streaming.processPhoto. rewrite Sbind_modify.
  change (Streaming.mkVars (Streaming.currentZipSizeMB v)
            (Streaming.currentZipFileCount v) (Streaming.zipIndex v)
            (Streaming.totalProcessed v + 1) (Streaming.createdDownloads v)
            (Streaming.failedPhotos v)) with (counted v).
  unfold Streaming.Stry_catch. rewrite Sbind_get.
  change (Streaming.currentZipSizeMB (counted v)) with (Streaming.currentZipSizeMB v).
  change (Streaming.currentZipFileCount (counted v))
    with (Streaming.currentZipFileCount v).
  fold (cuts v p). rewrite Hcut.
  rewrite (Sbind_throw _ _ _ _ _ _ _ (Sbind_throw _ _ _ _ _ _ _ Hfin)).
  unfold context_error. rewrite Sbind_emit.
  unfold Streaming.modify. cbn [fst snd]. reflexivity.
Qed.

End StreamingCuts.

Section StreamingUnheard.

Variable w : world.
Variable env : environment.

(** X19. With the streams timed as Node.js times them (the event [finish]
    is not heard by a listener set after [archive.finalize()] has settled),
    the streaming revision never delivers an archive: whatever else the
    world does, no run uploads an archive or creates a download record; and
    a run that reaches the final summary lists no archive there and reports
    every photo as failed. *)
Theorem streaming_never_delivers (fuel : nat) (req : request) :
  finishUnheard w ->
  filter isDelivery (snd (run (Streaming.prepareDownload w env fuel req))) = []
  /\ forall c message sm dls fls,
       fst (run (Streaming.prepareDownload w env fuel req))
       = Ok (Streaming.json_success c message sm dls fls) ->
       dls = []
       /\ Streaming.totalChunks sm = 0%nat
       /\ Streaming.processedPhotos sm = 0%nat
       /\ exists fl,
            fls = Some fl
            /\ List.length fl = Streaming.totalPhotos sm.
Proof.
  intro Hu.
  assert (Hd : forall e, isDelivery e = true -> isArchiving e = true).
  { intros e He. unfold isArchiving. unfold isDelivery in He.
    destruct (isFinalize e); [reflexivity|exact He]. }
  destruct (streaming_run_preserved w env
              (fun v => Streaming.createdDownloads v = [])
              isDelivery Hd eq_refl
              (fun eventDoc currentUserId eventId photos =>
                 archiveAll_unheard w env eventDoc currentUserId eventId photos Hu)
              fuel req) as [Hq Hok].
  split; [exact Hq|].
  intros c message sm dls fls H.
  destruct (Hok c message sm dls fls H) as (v & Hdls & ->).
  destruct (run (Streaming.prepareDownload w env fuel req)) as [o es] eqn:E.
  cbn [fst] in H. subst o.
  destruct (streaming_success w env fuel req c message sm _ fls es E)
    as (_ & _ & Hsome & Hcount & Hsum & Hchunks & Hprocessed & Hpos & _).
  rewrite Hdls in *. simpl in Hprocessed, Hchunks.
  split; [reflexivity|]. split; [exact Hchunks|]. split; [now symmetry|].
  destruct fls as [fl|]; cbn [reported List.length] in Hcount; [|lia].
  exists fl. split; [reflexivity|]. lia.
Qed.

End StreamingUnheard.

Lemma streaming_never_delivers_witness :
  filter isDelivery
    (snd (run (Streaming.prepareDownload
                 (exampleWorld "alice" None threePhotos (fun _ => false))
                 exampleEnv 5 (exampleRequest (Some "alice"))))) = []
  /\ forall c message sm dls fls,
       fst (run (Streaming.prepareDownload
                   (exampleWorld "alice" None threePhotos (fun _ => false))
                   exampleEnv 5 (exampleRequest (Some "alice"))))
       = Ok (Streaming.json_success c message sm dls fls) ->
       dls = []
       /\ Streaming.totalChunks sm = 0%nat
       /\ Streaming.processedPhotos sm = 0%nat
       /\ exists fl, fls = Some fl /\ List.length fl = Streaming.totalPhotos sm.
Proof.
  apply (streaming_never_delivers
           (exampleWorld "alice" None threePhotos (fun _ => false))
           exampleEnv 5 (exampleRequest (Some "alice"))).
  intro h. reflexivity.
Defined.

(** The run of the witness: the first photo is appended, the second one
    makes the archive overflow, the archive is finalized, and the run waits
    for the event [finish]. *)
Example streaming_waits_for_finish :
  run (Streaming.prepareDownload
         (exampleWorld "alice" None threePhotos (fun _ => false))
         exampleEnv 5 (exampleRequest (Some "alice")))
  = (Pending,
     [ownershipLookup exampleEnv "event-1"; selectCall exampleEnv "event-1" 0;
      selectCall exampleEnv "event-1" 3;
      Archiver_zip;
      downloadCall exampleEnv (ph "1" 1000);
      Archive_append [Byte.x01; Byte.x02; Byte.x03] "photo_1.jpg";
      Archive_finalize;
      ZipStream_on_finish]).
Proof. vm_compute. reflexivity. Qed.

(** ** The base name of the archives in the streaming revision *)

Lemma sanitize_safe (s : string) : allSafe s = true -> sanitize s = s.
Proof.
  induction s as [|c s IH]; simpl; [reflexivity|].
  intro H. apply andb_prop in H as [Hc Hs]. now rewrite Hc, IH.
Qed.

Lemma sanitize_length (s : string) : String.length (sanitize s) = String.length s.
Proof. induction s as [|c s IH]; simpl; [reflexivity|now rewrite IH]. Qed.

Lemma substring_whole (s : string) : forall n,
  (String.length s <= n)%nat -> String.substring 0 n s = s.
Proof.
  induction s as [|c s IH]; intros [|n] H; simpl in *; try reflexivity; try lia.
  rewrite IH by lia. reflexivity.
Qed.

Lemma substring_prefix_length (s : string) : forall n,
  String.length (String.substring 0 n s) = Nat.min n (String.length s).
Proof.
  induction s as [|c s IH]; intros [|n]; simpl; try reflexivity.
  now rewrite IH.
Qed.

(** X20. The base name of the archives is never empty and has the length of
    the display name ("photos" when there is none), capped at 50; a display
    name made of the characters a-z, A-Z, 0-9, _ and - and no longer than 50
    is used as it stands. *)
Theorem eventName_shape (eventDoc : eventDocument) :
  let base := orElse (event_name eventDoc) "photos" in
  String.length (Streaming.eventName eventDoc) = Nat.min 50 (String.length base)
  /\ Streaming.eventName eventDoc <> ""
  /\ (allSafe base = true -> (String.length base <= 50)%nat ->
      Streaming.eventName eventDoc = base).
Proof.
  cbv zeta. unfold Streaming.eventName.
  assert (Hlen : String.length
                   (String.substring 0 50 (sanitize (orElse (event_name eventDoc) "photos")))
                 = Nat.min 50 (String.length (orElse (event_name eventDoc) "photos")))
    by (now rewrite substring_prefix_length, sanitize_length).
  split; [exact Hlen|]. split.
  - intro H. rewrite H in Hlen. cbn [String.length] in Hlen.
    destruct (event_name eventDoc) as [[|c s]|]; cbn [orElse String.length] in Hlen; lia.
  - intros Hsafe Hshort. rewrite (sanitize_safe _ Hsafe).
    now apply substring_whole.
Qed.

Lemma eventName_shape_witness :
  Streaming.eventName {| user_id := JsNull; event_name := Some "Gala_2024" |}
  = "Gala_2024".
Proof.
  apply (proj2 (proj2 (eventName_shape
                         {| user_id := JsNull; event_name := Some "Gala_2024" |}))).
  - reflexivity.
  - simpl. lia.
Defined.

Lemma missing_identity_is_unauthorized_witness :
  run (Streaming.prepareDownload endlessWorld exampleEnv 5 (exampleRequest None))
  = (Ok (Streaming.json_error 401 "Unauthorized - User not logged in"), []).
Proof.
  apply (missing_identity_is_unauthorized endlessWorld exampleEnv 5
           (exampleRequest None) "event-1").
  - reflexivity.
  - discriminate.
  - reflexivity.
Defined.

Lemma streaming_mismatch_is_forbidden_witness :
  run (Streaming.prepareDownload (exampleWorld "alice" None threePhotos (fun _ => false))
         exampleEnv 5 (exampleRequest (Some "bob")))
  = (Ok (Streaming.json_error 403 "Forbidden — you do not own this event."),
     [ownershipLookup exampleEnv "event-1"]).
Proof.
  apply (streaming_mismatch_is_forbidden
           (exampleWorld "alice" None threePhotos (fun _ => false)) exampleEnv 5
           (exampleRequest (Some "bob")) "event-1" "bob" aliceDoc).
  - reflexivity.
  - discriminate.
  - reflexivity.
  - discriminate.
  - reflexivity.
  - discriminate.
Defined.

Lemma streaming_paging_is_bounded_witness :
  fst (Streaming.fetchAllPhotos endlessWorld exampleEnv (S photoLimit) "event-1" [] 0 [])
  <> OutOfFuel
  /\ (List.length
        (snd (Streaming.fetchAllPhotos endlessWorld exampleEnv (S photoLimit)
                "event-1" [] 0 []))
      <= photoLimit + 1)%nat.
Proof.
  apply (streaming_paging_is_bounded endlessWorld exampleEnv "event-1" (S photoLimit)).
  lia.
Defined.

Lemma streaming_paging_collects_witness :
  fst (Streaming.fetchAllPhotos (exampleWorld "alice" None threePhotos (fun _ => false))
         exampleEnv 102 "event-1" [] 0 [])
  = Ok (firstn photoCap threePhotos).
Proof.
  apply (streaming_paging_collects
           (exampleWorld "alice" None threePhotos (fun _ => false))
           exampleEnv "event-1" threePhotos).
  - intros h offset. simpl. unfold lastOffset. rewrite last_last. reflexivity.
  - lia.
Defined.

Lemma streaming_always_answers_witness :
  (forall message,
     fst (run (Streaming.prepareDownload unknownEventWorld exampleEnv (S photoLimit)
                 (exampleRequest (Some "alice"))))
     <> Throw message)
  /\ (forall r es,
        run (Streaming.prepareDownload unknownEventWorld exampleEnv (S photoLimit)
               (exampleRequest (Some "alice")))
        = (Ok r, es) ->
        In (Streaming.statusCode_of r) streamingStatuses)
  /\ ((photoLimit < S photoLimit)%nat ->
      fst (run (Streaming.prepareDownload unknownEventWorld exampleEnv (S photoLimit)
                  (exampleRequest (Some "alice"))))
      <> OutOfFuel).
Proof.
  apply (streaming_always_answers unknownEventWorld exampleEnv (S photoLimit)
           (exampleRequest (Some "alice"))).
  discriminate.
Defined.

Lemma failed_cut_is_booked_to_photo_witness :
  Streaming.processPhoto (brokenArchiverWorld "alice" threePhotos) exampleEnv aliceDoc
    "alice" "event-1" (ph "2" 1200) oneInside []
  = (Ok tt, blamed (counted oneInside) (ph "2" 1200) "queue closed",
     [Archive_finalize] ++ [streamFailureLine (failureOf (ph "2" 1200) "queue closed")])
  /\ filter isDownload [Archive_finalize] = []
  /\ filter isAppend [Archive_finalize] = [].
Proof.
  apply (failed_cut_is_booked_to_photo (brokenArchiverWorld "alice" threePhotos)
           exampleEnv aliceDoc "alice" "event-1" (ph "2" 1200) oneInside
           (counted oneInside) [] [Archive_finalize] "queue closed").
  - reflexivity.
  - reflexivity.
Defined.

(** ** The direct download (src/unnamed/part_000, first listing) *)

Lemma dl_bind_ok {A B : Type} (m : DownloadPhotos.M A) (k : A -> DownloadPhotos.M B)
    (h es : list DownloadPhotos.call) (a : A) :
  m h = (Ok a, es) ->
  DownloadPhotos.bind m k h = (fst (k a (h ++ es)), es ++ snd (k a (h ++ es))).
Proof. unfold DownloadPhotos.bind. intros ->. now destruct (k a (h ++ es)). Qed.

Lemma dl_bind_throw {A B : Type} (m : DownloadPhotos.M A) (k : A -> DownloadPhotos.M B)
    (h es : list DownloadPhotos.call) (message : string) :
  m h = (Throw message, es) -> DownloadPhotos.bind m k h = (Throw message, es).
Proof. unfold DownloadPhotos.bind. now intros ->. Qed.

Lemma dl_bind_pending {A B : Type} (m : DownloadPhotos.M A) (k : A -> DownloadPhotos.M B)
    (h es : list DownloadPhotos.call) :
  m h = (Pending, es) -> DownloadPhotos.bind m k h = (Pending, es).
Proof. unfold DownloadPhotos.bind. now intros ->. Qed.

Lemma dl_bind_emit {B : Type} (c : DownloadPhotos.call) (k : unit -> DownloadPhotos.M B)
    (h : list DownloadPhotos.call) :
  DownloadPhotos.bind (DownloadPhotos.emit c) k h
  = (fst (k tt (h ++ [c])), c :: snd (k tt (h ++ [c]))).
Proof. now rewrite (dl_bind_ok _ _ h [c] tt). Qed.

Lemma dl_bind_await {A B : Type} (c : DownloadPhotos.call)
    (oracle : list DownloadPhotos.call -> answer A) (k : A -> DownloadPhotos.M B)
    (h : list DownloadPhotos.call) :
  DownloadPhotos.bind (DownloadPhotos.await c oracle) k h
  = match oracle (h ++ [c]) with
    | Resolve a => (fst (k a (h ++ [c])), c :: snd (k a (h ++ [c])))
    | Reject message => (Throw message, [c])
    | Never => (Pending, [c])
    end.
Proof.
  unfold DownloadPhotos.bind, DownloadPhotos.await.
  destruct (oracle (h ++ [c])); [|reflexivity|reflexivity].
  now destruct (k a (h ++ [c])).
Qed.

Lemma dl_bind_archiverCall {A B : Type} (w : DownloadPhotos.world)
    (c : DownloadPhotos.call) (oracle : list DownloadPhotos.call -> answer A)
    (k : A -> DownloadPhotos.M B) (h : list DownloadPhotos.call) :
  DownloadPhotos.bind (DownloadPhotos.archiverCall w c oracle) k h
  = match oracle (h ++ [c]) with
    | Resolve a => (fst (k a (h ++ [c])), c :: snd (k a (h ++ [c])))
    | Reject message =>
        (Throw message,
         if DownloadPhotos.emits_error w (h ++ [c])
         then [c; dlArchiveErrorLine message]
         else [c])
    | Never => (Pending, [c])
    end.
Proof.
  unfold DownloadPhotos.bind, DownloadPhotos.archiverCall, dlArchiveErrorLine.
  destruct (oracle (h ++ [c])); [|now destruct (DownloadPhotos.emits_error w _)|reflexivity].
  now destruct (k a (h ++ [c])).
Qed.

Lemma batchesOf_app (es es' : list DownloadPhotos.call) :
  batchesOf (es ++ es') = batchesOf es ++ batchesOf es'.
Proof.
  induction es as [|c es IH]; simpl; [reflexivity|].
  destruct (batchOf c); simpl; now rewrite IH.
Qed.

Lemma slice_length {A : Type} (i : nat) (xs : list A) :
  (i < List.length xs)%nat ->
  (1 <= List.length (slice i (i + DownloadPhotos.batchSize) xs)
   <= DownloadPhotos.batchSize)%nat.
Proof.
  intro H. unfold slice, DownloadPhotos.batchSize.
  rewrite length_firstn, length_skipn. lia.
Qed.

Lemma slice_skipn {A : Type} (i : nat) (xs : list A) :
  slice i (i + DownloadPhotos.batchSize) xs ++ skipn (i + DownloadPhotos.batchSize) xs
  = skipn i xs.
Proof.
  unfold slice.
  replace (i + DownloadPhotos.batchSize - i)%nat with DownloadPhotos.batchSize by lia.
  rewrite (Nat.add_comm i), <- skipn_skipn. apply firstn_skipn.
Qed.

Section DirectDownload.

Variable w : DownloadPhotos.world.
Variable env : environment.

(** The loop over the batches never runs out of turns; when it ends normally
    it has asked for the ids from index [i] on, in consecutive batches of 1 to
    100 ids. *)
Lemma fetchBatches_runs (photoIds : list string) (eventId : string) (fuel : nat) :
  forall i photoDocuments h,
    (List.length photoIds <= i + fuel)%nat ->
    fst (DownloadPhotos.fetchBatches w env fuel photoIds eventId i photoDocuments h)
    <> OutOfFuel
    /\ (forall documents,
          fst (DownloadPhotos.fetchBatches w env fuel photoIds eventId i
                 photoDocuments h) = Ok documents ->
          let es := snd (DownloadPhotos.fetchBatches w env fuel photoIds eventId i
                           photoDocuments h) in
          List.concat (batchesOf es) = skipn i photoIds
          /\ Forall batchSized (batchesOf es)
          /\ (List.length photoIds - i
              <= DownloadPhotos.batchSize * List.length (batchesOf es)
              < List.length photoIds - i + DownloadPhotos.batchSize)%nat).
Proof.
  induction fuel as [|fuel IH]; intros i docs h Hfuel.
  - cbn [DownloadPhotos.fetchBatches].
    destruct (i <? List.length photoIds)%nat eqn:Hi;
      [apply Nat.ltb_lt in Hi; lia|].
    apply Nat.ltb_ge in Hi. split; [discriminate|].
    intros documents _. cbn. rewrite skipn_all2 by exact Hi.
    unfold DownloadPhotos.batchSize. repeat split; [constructor|lia|lia].
  - cbn [DownloadPhotos.fetchBatches].
    destruct (i <? List.length photoIds)%nat eqn:Hi.
    + apply Nat.ltb_lt in Hi. rewrite dl_bind_await.
      destruct (DownloadPhotos.on_listDocuments w _) as [documents | m |];
        [|split; [discriminate|intros ? [=]]|split; [discriminate|intros ? [=]]].
      cbn [fst snd].
      destruct (IH (i + DownloadPhotos.batchSize)%nat (docs ++ documents)
                  (h ++ [DownloadPhotos.Databases_listDocuments
                           (APPWRITE_DATABASE_ID env) (APPWRITE_PHOTO_COLLECTION_ID env)
                           [DownloadPhotos.Query_equalAny "$id"
                              (slice i (i + DownloadPhotos.batchSize) photoIds);
                            DownloadPhotos.Query_equalTo "event_id" eventId]]))
        as [IH1 IH2]; [unfold DownloadPhotos.batchSize; lia|].
      split; [exact IH1|].
      intros documents' Hok. destruct (IH2 documents' Hok) as (Hc & Hs & Hn).
      cbn [batchesOf batchOf List.concat List.length].
      rewrite Hc, slice_skipn.
      split; [reflexivity|]. split.
      * constructor; [apply slice_length; exact Hi|exact Hs].
      * unfold DownloadPhotos.batchSize in *. lia.
    + apply Nat.ltb_ge in Hi. split; [discriminate|].
      intros documents _. cbn. rewrite skipn_all2 by exact Hi.
      unfold DownloadPhotos.batchSize. repeat split; [constructor|lia|lia].
Qed.

Lemma fetchBatches_calls (photoIds : list string) (eventId : string) (fuel : nat) :
  forall i photoDocuments h,
    Forall (fun c => batchOf c <> None)
      (snd (DownloadPhotos.fetchBatches w env fuel photoIds eventId i photoDocuments h)).
Proof.
  induction fuel as [|fuel IH]; intros i docs h; cbn [DownloadPhotos.fetchBatches];
    destruct (i <? List.length photoIds)%nat; try constructor.
  rewrite dl_bind_await.
  destruct (DownloadPhotos.on_listDocuments w _) as [documents | m |]; cbn [snd].
  - constructor; [discriminate|apply IH].
  - constructor; [discriminate|constructor].
  - constructor; [discriminate|constructor].
Qed.

(** The loop over the batches waits for ever only on a listing that never
    settles. *)
Lemma fetchBatches_pending (photoIds : list string) (eventId : string) (fuel : nat) :
  forall i photoDocuments h,
    fst (DownloadPhotos.fetchBatches w env fuel photoIds eventId i photoDocuments h)
    = Pending ->
    ~ (forall h', DownloadPhotos.on_listDocuments w h' <> Never).
Proof.
  induction fuel as [|fuel IH]; intros i docs h; cbn [DownloadPhotos.fetchBatches];
    destruct (i <? List.length photoIds)%nat; try discriminate.
  rewrite dl_bind_await.
  destruct (DownloadPhotos.on_listDocuments w _) as [documents | m |] eqn:E; cbn [fst].
  - apply IH.
  - discriminate.
  - intros _ Hs. exact (Hs _ E).
Qed.

Lemma fetchBatches_answered (photoIds : list string) (eventId : string) (fuel : nat) :
  (forall h, exists documents, DownloadPhotos.on_listDocuments w h = Resolve documents) ->
  forall i photoDocuments h,
    match fst (DownloadPhotos.fetchBatches w env fuel photoIds eventId i photoDocuments h)
    with
    | Throw _ | Pending => False
    | _ => True
    end.
Proof.
  intro Hlist.
  induction fuel as [|fuel IH]; intros i docs h; cbn [DownloadPhotos.fetchBatches];
    destruct (i <? List.length photoIds)%nat; try exact I.
  rewrite dl_bind_await.
  destruct (Hlist (h ++ [DownloadPhotos.Databases_listDocuments
                           (APPWRITE_DATABASE_ID env) (APPWRITE_PHOTO_COLLECTION_ID env)
                           [DownloadPhotos.Query_equalAny "$id"
                              (slice i (i + DownloadPhotos.batchSize) photoIds);
                            DownloadPhotos.Query_equalTo "event_id" eventId]]))
    as [documents ->].
  cbn [fst]. apply IH.
Qed.

(** One turn of the loop over the photo documents makes shared calls only;
    it ends normally, unless the fetch of the file or the append never
    settles. *)
Lemma dl_addPhoto (p : photo) (h : list DownloadPhotos.call) :
  exists es,
    batchesOf es = []
    /\ (DownloadPhotos.addPhoto w env p h = (Ok tt, es)
        \/ DownloadPhotos.addPhoto w env p h = (Pending, es) /\ ~ dlMembersSettle w).
Proof.
  unfold DownloadPhotos.addPhoto, DownloadPhotos.try_catch.
  rewrite dl_bind_await.
  destruct (DownloadPhotos.on_getFileDownload w _) as [buffer | m |] eqn:Eg.
  - unfold DownloadPhotos.archiverCall.
    destruct (DownloadPhotos.on_append w _) as [[] | m |] eqn:Ea; cbn [fst snd].
    + eexists. split; [|left; reflexivity]. reflexivity.
    + destruct (DownloadPhotos.emits_error w _); cbn [fst snd];
        eexists; (split; [|left; reflexivity]); reflexivity.
    + eexists. split; [|right; split; [reflexivity|]]; [reflexivity|].
      intros [_ Hs]. exact (Hs _ Ea).
  - eexists. split; [|left; reflexivity]. reflexivity.
  - eexists. split; [|right; split; [reflexivity|]]; [reflexivity|].
    intros [Hs _]. exact (Hs _ Eg).
Qed.

Lemma dl_forEach_addPhoto (photoDocuments : list photo) : forall h,
  exists es,
    batchesOf es = []
    /\ (DownloadPhotos.forEach photoDocuments (DownloadPhotos.addPhoto w env) h
        = (Ok tt, es)
        \/ DownloadPhotos.forEach photoDocuments (DownloadPhotos.addPhoto w env) h
           = (Pending, es)
           /\ ~ dlMembersSettle w).
Proof.
  induction photoDocuments as [|p ps IH]; intro h; cbn [DownloadPhotos.forEach].
  - exists []. split; [reflexivity|left; reflexivity].
  - destruct (dl_addPhoto p h) as (es0 & B0 & [E0 | [E0 Hs]]).
    + destruct (IH (h ++ es0)) as (es1 & B1 & [E1 | [E1 Hs]]);
        exists (es0 ++ es1); rewrite (dl_bind_ok _ _ _ _ _ E0), E1; cbn [fst snd];
        (split; [now rewrite batchesOf_app, B0, B1|]); [left|right]; auto.
    + exists es0. split; [exact B0|right]. split; [|exact Hs].
      now rewrite (dl_bind_pending _ _ _ _ E0).
Qed.

(** What the guarded block does once the caller is known to own the event. *)
Lemma download_owned (photoIds : list string) (chunkIndex : nat) (eventId : string)
    (currentUserId : option string) (eventDoc : eventDocument) :
  DownloadPhotos.on_getDocument w [dlLookup env eventId] = Resolve eventDoc ->
  currentUserId = Some (trim (String_or_empty (user_id eventDoc))) ->
  let pre := [dlLookup env eventId; dlSend chunkIndex;
              DownloadPhotos.Shared Archiver_zip; DownloadPhotos.Archive_pipe] in
  let result :=
    DownloadPhotos.download w env photoIds chunkIndex eventId currentUserId [] in
  match DownloadPhotos.on_pipe w pre with
  | Reject m => result = (Throw m, pre)
  | Never => result = (Pending, pre)
  | Resolve _ =>
      match DownloadPhotos.fetchBatches w env (List.length photoIds) photoIds eventId 0 []
              pre with
      | (Ok documents, es1) =>
          exists es2,
            batchesOf es2 = []
            /\ (DownloadPhotos.forEach documents (DownloadPhotos.addPhoto w env)
                  (pre ++ es1) = (Pending, es2)
                /\ ~ dlMembersSettle w
                /\ result = (Pending, pre ++ es1 ++ es2)
                \/ DownloadPhotos.forEach documents (DownloadPhotos.addPhoto w env)
                     (pre ++ es1) = (Ok tt, es2)
                   /\ match DownloadPhotos.on_finalize w
                              (((pre ++ es1) ++ es2)
                               ++ [DownloadPhotos.Shared Archive_finalize])
                      with
                      | Resolve _ =>
                          result
                          = (Ok None,
                             pre ++ es1 ++ es2 ++ [DownloadPhotos.Shared Archive_finalize])
                      | Reject m =>
                          exists tail,
                            result
                            = (Throw m,
                               pre ++ es1 ++ es2
                               ++ DownloadPhotos.Shared Archive_finalize :: tail)
                      | Never =>
                          result
                          = (Pending,
                             pre ++ es1 ++ es2 ++ [DownloadPhotos.Shared Archive_finalize])
                      end)
      | (Throw m, es1) => result = (Throw m, pre ++ es1)
      | (Pending, es1) => result = (Pending, pre ++ es1)
      | (OutOfFuel, es1) => False
      end
  end.
Proof.
  intros Hdoc ->. cbv zeta. unfold DownloadPhotos.download.
  rewrite dl_bind_await. cbn [app].
  change (DownloadPhotos.Shared
            (Databases_getDocument (APPWRITE_DATABASE_ID env)
               (APPWRITE_EVENT_COLLECTION_ID env) eventId))
    with (dlLookup env eventId).
  rewrite Hdoc.
  assert (Hne : strictNe (trim (String_or_empty (user_id eventDoc)))
                  (Some (trim (String_or_empty (user_id eventDoc)))) = false).
  { destruct (strictNe _ _) eqn:E; [|reflexivity].
    apply strictNe_true in E. now elim E. }
  rewrite Hne. fold (dlSend chunkIndex).
  rewrite !dl_bind_emit, dl_bind_await. cbn [app].
  destruct (DownloadPhotos.on_pipe w _) as [[] | m |]; [|reflexivity|reflexivity].
  pose proof (fetchBatches_runs photoIds eventId (List.length photoIds) 0 []
                [dlLookup env eventId; dlSend chunkIndex;
                 DownloadPhotos.Shared Archiver_zip; DownloadPhotos.Archive_pipe]
                ltac:(lia)) as [Hfuel _].
  destruct (DownloadPhotos.fetchBatches w env (List.length photoIds) photoIds eventId 0 []
              _) as [[documents | m | |] es1] eqn:E1; [| | |now elim Hfuel].
  - rewrite (dl_bind_ok _ _ _ _ _ E1).
    destruct (dl_forEach_addPhoto documents
                ([dlLookup env eventId; dlSend chunkIndex;
                  DownloadPhotos.Shared Archiver_zip; DownloadPhotos.Archive_pipe] ++ es1))
      as (es2 & B2 & [E2 | [E2 Hs]]).
    + exists es2. split; [exact B2|]. right. split; [exact E2|].
      rewrite (dl_bind_ok _ _ _ _ _ E2), dl_bind_archiverCall.
      destruct (DownloadPhotos.on_finalize w _) as [[] | m |];
        [reflexivity| |reflexivity].
      destruct (DownloadPhotos.emits_error w _); eexists; reflexivity.
    + exists es2. split; [exact B2|]. left. split; [exact E2|]. split; [exact Hs|].
      now rewrite (dl_bind_pending _ _ _ _ E2).
  - now rewrite (dl_bind_throw _ _ _ _ _ E1).
  - now rewrite (dl_bind_pending _ _ _ _ E1).
Qed.

End DirectDownload.

Section DirectDownloadRuns.

Variable w : DownloadPhotos.world.
Variable env : environment.

(** What the guarded block can end with. *)
Lemma download_cases (photoIds : list string) (chunkIndex : nat) (eventId : string)
    (currentUserId : option string) :
  (exists line,
     DownloadPhotos.download w env photoIds chunkIndex eventId currentUserId []
     = (Ok (Some (DownloadPhotos.json_error 403 "Forbidden – you do not own this event")),
        [dlLookup env eventId; DownloadPhotos.Shared (Context_error [line])]))
  \/ (exists es,
        DownloadPhotos.download w env photoIds chunkIndex eventId currentUserId []
        = (Ok None,
           [dlLookup env eventId; dlSend chunkIndex;
            DownloadPhotos.Shared Archiver_zip; DownloadPhotos.Archive_pipe]
           ++ es ++ [DownloadPhotos.Shared Archive_finalize])
        /\ List.concat (batchesOf es) = photoIds
        /\ Forall batchSized (batchesOf es)
        /\ (List.length photoIds
            <= DownloadPhotos.batchSize * List.length (batchesOf es)
            < List.length photoIds + DownloadPhotos.batchSize)%nat)
  \/ (exists message es,
        DownloadPhotos.download w env photoIds chunkIndex eventId currentUserId []
        = (Throw message, es))
  \/ (exists es,
        DownloadPhotos.download w env photoIds chunkIndex eventId currentUserId []
        = (Pending, es)
        /\ ~ dlSettles w).
Proof.
  destruct (DownloadPhotos.on_getDocument w [dlLookup env eventId])
    as [eventDoc | m |] eqn:Hdoc.
  - destruct (strictNe (trim (String_or_empty (user_id eventDoc))) currentUserId)
      eqn:Hne.
    + left. unfold DownloadPhotos.download. rewrite dl_bind_await. cbn [app].
      change (DownloadPhotos.Shared
                (Databases_getDocument (APPWRITE_DATABASE_ID env)
                   (APPWRITE_EVENT_COLLECTION_ID env) eventId))
        with (dlLookup env eventId).
      rewrite Hdoc, Hne. unfold DownloadPhotos.context_error.
      rewrite dl_bind_emit. eexists. reflexivity.
    + right.
      assert (Hcu : currentUserId = Some (trim (String_or_empty (user_id eventDoc)))).
      { destruct (strictNe_true (trim (String_or_empty (user_id eventDoc))) currentUserId)
          as [_ H2].
        destruct currentUserId as [c|]; [|now rewrite H2 in Hne].
        destruct (string_dec c (trim (String_or_empty (user_id eventDoc)))) as [->|Hd];
          [reflexivity|].
        rewrite H2 in Hne; [discriminate|congruence]. }
      pose proof (download_owned w env photoIds chunkIndex eventId currentUserId
                    eventDoc Hdoc Hcu) as H.
      cbv zeta in H.
      destruct (DownloadPhotos.on_pipe w _) as [[] | m |] eqn:Hpipe;
        [|right; left; eauto
         |right; right; eexists; split; [exact H|];
          intros (_ & Hs & _); exact (Hs _ Hpipe)].
      pose proof (fetchBatches_runs w env photoIds eventId (List.length photoIds) 0 []
                    [dlLookup env eventId; dlSend chunkIndex;
                     DownloadPhotos.Shared Archiver_zip; DownloadPhotos.Archive_pipe]
                    ltac:(lia)) as [_ Hb].
      pose proof (fetchBatches_pending w env photoIds eventId (List.length photoIds) 0 []
                    [dlLookup env eventId; dlSend chunkIndex;
                     DownloadPhotos.Shared Archiver_zip; DownloadPhotos.Archive_pipe])
        as Hp.
      destruct (DownloadPhotos.fetchBatches w env (List.length photoIds) photoIds
                  eventId 0 [] _) as [[documents | m | |] es1];
        [|right; left; eauto
         |right; right; eexists; split; [exact H|];
          intros (_ & _ & Hs & _); exact (Hp eq_refl Hs)
         |contradiction].
      destruct H as (es2 & B2 & [(E2 & Hs & H) | (E2 & H)]).
      { right. right. eexists. split; [exact H|].
        intros (_ & _ & _ & Hm & _). exact (Hs Hm). }
      destruct (DownloadPhotos.on_finalize w _) as [[] | m |] eqn:Hfin;
        [|right; left; destruct H as [tail H]; eauto
         |right; right; eexists; split; [exact H|];
          intros (_ & _ & _ & _ & Hs); exact (Hs _ Hfin)].
      left. exists (es1 ++ es2). rewrite <- app_assoc. split; [exact H|].
      destruct (Hb documents eq_refl) as (Hc & Hs & Hn). cbn [snd] in Hc, Hs, Hn.
      rewrite batchesOf_app, B2, app_nil_r.
      rewrite Nat.sub_0_r in Hn. auto.
  - right. right. left. unfold DownloadPhotos.download. rewrite dl_bind_await. cbn [app].
    change (DownloadPhotos.Shared
              (Databases_getDocument (APPWRITE_DATABASE_ID env)
                 (APPWRITE_EVENT_COLLECTION_ID env) eventId))
      with (dlLookup env eventId).
    rewrite Hdoc. eauto.
  - right. right. right. unfold DownloadPhotos.download. rewrite dl_bind_await.
    cbn [app].
    change (DownloadPhotos.Shared
              (Databases_getDocument (APPWRITE_DATABASE_ID env)
                 (APPWRITE_EVENT_COLLECTION_ID env) eventId))
      with (dlLookup env eventId).
    rewrite Hdoc. eexists. split; [reflexivity|].
    intros (Hs & _). exact (Hs _ Hdoc).
Qed.

(** X23. The direct download asks for every requested id exactly once: in
    every run that ends without an error, the listings made have asked, in
    order, for consecutive batches of 1 to 100 of the requested ids which put
    together are the requested ids, so that there are as many listings as
    hundreds of ids, rounded up. *)
Theorem ids_are_asked_for_in_batches (req : DownloadPhotos.request)
    (photoIds : list string) (chunkIndex : option nat) (eventId : option string)
    (es : list DownloadPhotos.call) :
  DownloadPhotos.bodyRaw req = DownloadPhotos.Body_object (Some photoIds) chunkIndex eventId ->
  DownloadPhotos.run (DownloadPhotos.downloadPhotos w env req) = (Ok None, es) ->
  List.concat (batchesOf es) = photoIds
  /\ Forall batchSized (batchesOf es)
  /\ (List.length photoIds
      <= DownloadPhotos.batchSize * List.length (batchesOf es)
      < List.length photoIds + DownloadPhotos.batchSize)%nat.
Proof.
  intros Hbody. unfold DownloadPhotos.run, DownloadPhotos.downloadPhotos.
  rewrite Hbody. destruct photoIds as [|id ids]; [discriminate|].
  destruct (falsy eventId); [discriminate|].
  unfold DownloadPhotos.try_catch.
  destruct (download_cases (id :: ids)
              match chunkIndex with Some n => n | None => 0%nat end
              (orElse eventId "") (DownloadPhotos.x_appwrite_user_id req))
    as [(line & ->) | [(es' & -> & Hc & Hs & Hn) | [(m & es' & ->) | (es' & -> & _)]]];
    try discriminate.
  intros [= <-].
  cbn [app batchesOf batchOf dlLookup dlSend]. rewrite batchesOf_app.
  cbn [batchesOf batchOf]. rewrite app_nil_r. auto.
Qed.

(** X24. What a run of the direct download can end with, unless the body is
    the JSON value null.  No error escapes the function and no loop runs
    short of turns.  A run that returns, returns either nothing at all, its
    last call being the finalization of the archive, or a JSON error with the
    status 400, 403 or 500: never a response with the status 200.  A run that
    does not return waits for a call that never settles. *)
Theorem downloadPhotos_outcomes (req : DownloadPhotos.request)
    (o : outcome (option DownloadPhotos.response)) (es : list DownloadPhotos.call) :
  DownloadPhotos.bodyRaw req <> DownloadPhotos.Body_null ->
  DownloadPhotos.run (DownloadPhotos.downloadPhotos w env req) = (o, es) ->
  match o with
  | Ok None => last es DownloadPhotos.Archive_pipe = DownloadPhotos.Shared Archive_finalize
  | Ok (Some (DownloadPhotos.json_error c _)) => In c downloadStatuses
  | Pending => ~ dlSettles w
  | Throw _ | OutOfFuel => False
  end.
Proof.
  intro Hbody. unfold DownloadPhotos.run, DownloadPhotos.downloadPhotos, downloadStatuses.
  destruct (DownloadPhotos.bodyRaw req) as [| m | | photoIds chunkIndex eventId].
  - intros [= <- <-]. simpl. auto.
  - intros [= <- <-]. simpl. auto.
  - now elim Hbody.
  - destruct photoIds as [[|id ids]|];
      try (intros [= <- <-]; simpl; auto; fail).
    destruct (falsy eventId); [intros [= <- <-]; simpl; auto|].
    unfold DownloadPhotos.try_catch.
    destruct (download_cases (id :: ids)
                match chunkIndex with Some n => n | None => 0%nat end
                (orElse eventId "") (DownloadPhotos.x_appwrite_user_id req))
      as [(line & ->) | [(es' & -> & _) | [(m & es' & ->) | (es' & -> & Hs)]]].
    + intros [= <- <-]. simpl. auto.
    + intros [= <- <-]. cbn [app]. rewrite !app_comm_cons. apply last_last.
    + unfold DownloadPhotos.context_error. rewrite dl_bind_emit.
      unfold DownloadPhotos.ret. cbn [fst snd].
      intros [= <- <-]. simpl. auto.
    + intros [= <- <-]. exact Hs.
Qed.

(** X25. In the direct download the status 200 goes out before the photos
    are looked up: when the caller owns the event and the first listing of
    photo documents is rejected, the run has sent the headers of a 200 ZIP
    response (named after the chunk index plus one), built the archiver and
    piped it, and then returns a JSON error 500 with the message of the
    rejection. *)
Theorem failure_after_headers (req : DownloadPhotos.request) (photoIds : list string)
    (chunkIndex : nat) (eventId message : string) (eventDoc : eventDocument) :
  DownloadPhotos.bodyRaw req
  = DownloadPhotos.Body_object (Some photoIds) (Some chunkIndex) (Some eventId) ->
  photoIds <> [] ->
  eventId <> "" ->
  DownloadPhotos.on_getDocument w [dlLookup env eventId] = Resolve eventDoc ->
  DownloadPhotos.x_appwrite_user_id req
  = Some (trim (String_or_empty (user_id eventDoc))) ->
  let pre := [dlLookup env eventId; dlSend chunkIndex;
              DownloadPhotos.Shared Archiver_zip; DownloadPhotos.Archive_pipe] in
  let listing := dlListing env eventId (firstn DownloadPhotos.batchSize photoIds) in
  DownloadPhotos.on_pipe w pre = Resolve tt ->
  DownloadPhotos.on_listDocuments w (pre ++ [listing]) = Reject message ->
  DownloadPhotos.run (DownloadPhotos.downloadPhotos w env req)
  = (Ok (Some (DownloadPhotos.json_error 500 message)),
     pre ++ [listing; dlErrorLine message]).
Proof.
  intros Hbody Hids Hid Hdoc Hcu pre listing Hpipe Hlist.
  unfold DownloadPhotos.run, DownloadPhotos.downloadPhotos. rewrite Hbody.
  destruct photoIds as [|id ids]; [now elim Hids|].
  destruct eventId as [|c s]; [now elim Hid|].
  cbn [falsy orElse]. unfold DownloadPhotos.try_catch.
  pose proof (download_owned w env (id :: ids) chunkIndex (String c s)
                (DownloadPhotos.x_appwrite_user_id req) eventDoc Hdoc Hcu) as H.
  cbv zeta in H. fold pre in H. rewrite Hpipe in H.
  assert (E : DownloadPhotos.fetchBatches w env (List.length (id :: ids)) (id :: ids)
                (String c s) 0 [] pre = (Throw message, [listing])).
  { cbn [DownloadPhotos.fetchBatches List.length Nat.ltb Nat.leb].
    rewrite dl_bind_await.
    change (DownloadPhotos.Databases_listDocuments _ _ _) with listing.
    now rewrite Hlist. }
  rewrite E in H. rewrite H.
  unfold DownloadPhotos.context_error. rewrite dl_bind_emit.
  unfold DownloadPhotos.ret. cbn [fst snd].
  fold (dlErrorLine message). now rewrite <- app_assoc.
Qed.

(** X26. A whole run of the direct download: when the caller owns the event
    and the pipe, the listings, the storage and the archiver answer, the
    function returns no response of its own.  The run starts with the ownership lookup, the
    headers of the 200 ZIP response, the archiver and the pipe, and it ends
    with the finalization of the archive, whatever happened to the photos in
    between. *)
Theorem downloadPhotos_streams (req : DownloadPhotos.request) (photoIds : list string)
    (chunkIndex : option nat) (eventId : string) (eventDoc : eventDocument) :
  DownloadPhotos.bodyRaw req
  = DownloadPhotos.Body_object (Some photoIds) chunkIndex (Some eventId) ->
  photoIds <> [] ->
  eventId <> "" ->
  DownloadPhotos.on_getDocument w [dlLookup env eventId] = Resolve eventDoc ->
  DownloadPhotos.x_appwrite_user_id req
  = Some (trim (String_or_empty (user_id eventDoc))) ->
  dlAllAnswer w ->
  exists es,
    DownloadPhotos.run (DownloadPhotos.downloadPhotos w env req)
    = (Ok None,
       [dlLookup env eventId;
        dlSend match chunkIndex with Some n => n | None => 0%nat end;
        DownloadPhotos.Shared Archiver_zip; DownloadPhotos.Archive_pipe]
       ++ es ++ [DownloadPhotos.Shared Archive_finalize])
    /\ List.concat (batchesOf es) = photoIds.
Proof.
  intros Hbody Hids Hid Hdoc Hcu (Hpipe & Hlist & Hsettle & Hfin).
  unfold DownloadPhotos.run, DownloadPhotos.downloadPhotos. rewrite Hbody.
  destruct photoIds as [|id ids]; [now elim Hids|].
  destruct eventId as [|c s]; [now elim Hid|].
  cbn [falsy orElse]. unfold DownloadPhotos.try_catch.
  set (ci := match chunkIndex with Some n => n | None => 0%nat end).
  pose proof (download_owned w env (id :: ids) ci (String c s)
                (DownloadPhotos.x_appwrite_user_id req) eventDoc Hdoc Hcu) as H.
  cbv zeta in H. rewrite Hpipe in H.
  pose proof (fetchBatches_runs w env (id :: ids) (String c s)
                (List.length (id :: ids)) 0 []
                [dlLookup env (String c s); dlSend ci;
                 DownloadPhotos.Shared Archiver_zip; DownloadPhotos.Archive_pipe]
                ltac:(lia)) as [_ Hb].
  pose proof (fetchBatches_answered w env (id :: ids) (String c s)
                (List.length (id :: ids)) Hlist 0%nat []
                [dlLookup env (String c s); dlSend ci;
                 DownloadPhotos.Shared Archiver_zip; DownloadPhotos.Archive_pipe]) as Hok.
  destruct (DownloadPhotos.fetchBatches w env (List.length (id :: ids)) (id :: ids)
              (String c s) 0 [] _) as [[documents | m | |] es1];
    cbn [fst] in Hok; try contradiction.
  destruct H as (es2 & B2 & [(_ & Hs & _) | (E2 & H)]); [now elim Hs|].
  rewrite Hfin in H. rewrite H.
  exists (es1 ++ es2). rewrite <- app_assoc. split; [reflexivity|].
  destruct (Hb documents eq_refl) as (Hc & _). cbn [snd] in Hc.
  now rewrite batchesOf_app, B2, app_nil_r.
Qed.

End DirectDownloadRuns.

Lemma ids_are_asked_for_in_batches_witness :
  let es := snd (DownloadPhotos.run
                   (DownloadPhotos.downloadPhotos
                      (exampleDownloadWorld "alice" threePhotos false) exampleEnv
                      (exampleDownloadRequest ["1"; "2"; "3"] (Some "alice")))) in
  List.concat (batchesOf es) = ["1"; "2"; "3"]
  /\ Forall batchSized (batchesOf es)
  /\ (List.length ["1"; "2"; "3"]
      <= DownloadPhotos.batchSize * List.length (batchesOf es)
      < List.length ["1"; "2"; "3"] + DownloadPhotos.batchSize)%nat.
Proof.
  apply (ids_are_asked_for_in_batches
           (exampleDownloadWorld "alice" threePhotos false) exampleEnv
           (exampleDownloadRequest ["1"; "2"; "3"] (Some "alice"))
           ["1"; "2"; "3"] (Some 2%nat) (Some "event-1")).
  - reflexivity.
  - vm_compute. reflexivity.
Defined.

Lemma downloadPhotos_outcomes_witness :
  In 500%nat downloadStatuses.
Proof.
  apply (downloadPhotos_outcomes (exampleDownloadWorld "alice" threePhotos true)
           exampleEnv (exampleDownloadRequest ["1"; "2"; "3"] (Some "alice"))
           (Ok (Some (DownloadPhotos.json_error 500 "Server Error")))
           (snd (DownloadPhotos.run
                   (DownloadPhotos.downloadPhotos
                      (exampleDownloadWorld "alice" threePhotos true) exampleEnv
                      (exampleDownloadRequest ["1"; "2"; "3"] (Some "alice")))))).
  - discriminate.
  - vm_compute. reflexivity.
Defined.

(** A run of the direct download that is left waiting: the listing of the
    photo documents never settles, after the headers of the 200 response were
    sent. *)
Example downloadPhotos_waits :
  DownloadPhotos.run
    (DownloadPhotos.downloadPhotos silentListingWorld exampleEnv
       (exampleDownloadRequest ["1"; "2"; "3"] (Some "alice")))
  = (Pending,
     [dlLookup exampleEnv "event-1"; dlSend 2;
      DownloadPhotos.Shared Archiver_zip; DownloadPhotos.Archive_pipe;
      dlListing exampleEnv "event-1" ["1"; "2"; "3"]]).
Proof. vm_compute. reflexivity. Qed.

Lemma failure_after_headers_witness :
  DownloadPhotos.run
    (DownloadPhotos.downloadPhotos (exampleDownloadWorld "alice" threePhotos true)
       exampleEnv (exampleDownloadRequest ["1"; "2"; "3"] (Some "alice")))
  = (Ok (Some (DownloadPhotos.json_error 500 "Server Error")),
     [dlLookup exampleEnv "event-1"; dlSend 2;
      DownloadPhotos.Shared Archiver_zip; DownloadPhotos.Archive_pipe]
     ++ [dlListing exampleEnv "event-1" (firstn DownloadPhotos.batchSize ["1"; "2"; "3"]);
         dlErrorLine "Server Error"]).
Proof.
  apply (failure_after_headers (exampleDownloadWorld "alice" threePhotos true)
           exampleEnv (exampleDownloadRequest ["1"; "2"; "3"] (Some "alice"))
           ["1"; "2"; "3"] 2 "event-1" "Server Error" aliceDoc).
  - reflexivity.
  - discriminate.
  - discriminate.
  - reflexivity.
  - reflexivity.
  - reflexivity.
  - reflexivity.
Defined.

Lemma downloadPhotos_streams_witness :
  exists es,
    DownloadPhotos.run
      (DownloadPhotos.downloadPhotos (exampleDownloadWorld "alice" threePhotos false)
         exampleEnv (exampleDownloadRequest ["1"; "2"; "3"] (Some "alice")))
    = (Ok None,
       [dlLookup exampleEnv "event-1"; dlSend 2;
        DownloadPhotos.Shared Archiver_zip; DownloadPhotos.Archive_pipe]
       ++ es ++ [DownloadPhotos.Shared Archive_finalize])
    /\ List.concat (batchesOf es) = ["1"; "2"; "3"].
Proof.
  apply (downloadPhotos_streams (exampleDownloadWorld "alice" threePhotos false)
           exampleEnv (exampleDownloadRequest ["1"; "2"; "3"] (Some "alice"))
           ["1"; "2"; "3"] (Some 2%nat) "event-1" aliceDoc).
  - reflexivity.
  - discriminate.
  - discriminate.
  - reflexivity.
  - reflexivity.
  - split; [|split; [|split; [split|]]]; intro h; try reflexivity; try discriminate.
    simpl. destruct (batchOf (last h DownloadPhotos.Archive_pipe)); eexists; reflexivity.
Defined.

(** ** When the ownership check lets a request through *)

Lemma bind_prefix {A B : Type} (m : M A) (k : A -> M B) (h pre : list event) :
  (exists rest, snd (m h) = pre ++ rest) ->
  exists rest, snd (bind m k h) = pre ++ rest.
Proof.
  intros [rest H]. unfold bind.
  destruct (m h) as [[a | e | |] es]; cbn [snd] in *; subst; eauto.
  destruct (k a (h ++ pre ++ rest)) as [r es']. cbn [snd].
  exists (rest ++ es'). now rewrite app_assoc.
Qed.

Lemma try_catch_prefix {A : Type} (m : M A) (handler : string -> M A)
    (h : list event) (e1 e2 : event) :
  (exists rest, snd (m h) = e1 :: e2 :: rest) ->
  exists rest, snd (try_catch m handler h) = e1 :: e2 :: rest.
Proof.
  intros [rest H]. unfold try_catch.
  destruct (m h) as [[a | e | |] es]; cbn [snd] in *; subst; eauto.
  destruct (handler e (h ++ e1 :: e2 :: rest)) as [r es']. cbn [snd app]. eauto.
Qed.

Section OwnershipPasses.

Variable w : world.
Variable env : environment.

(** X27. The ownership check of src/main.js lets a request through when the
    identity header is the owner as the code reads it (the [user_id],
    defaulted to the empty string and trimmed): the run then goes on with the
    first listing of the photos.  In particular an event without owner is
    owned by the empty identity. *)
Theorem ownership_match_proceeds (fuel : nat) (req : request) (eventId : string)
    (eventDoc : eventDocument) :
  bodyRaw req = Body_object (Some eventId) ->
  eventId <> "" ->
  on_getDocument w [ownershipLookup env eventId] = Resolve eventDoc ->
  x_appwrite_user_id req = Some (trim (String_or_empty (user_id eventDoc))) ->
  exists rest,
    snd (run (Main.prepareDownload w env (S fuel) req))
    = ownershipLookup env eventId :: listingCall env eventId 0 :: rest.
Proof.
  intros Hbody Hid Hdoc Hcu. unfold run, Main.prepareDownload. rewrite Hbody, Hcu.
  destruct eventId as [|c s] eqn:Heid; [now elim Hid|].
  cbn [falsy orElse]. rewrite <- Heid in *. clear Heid.
  assert (Hne : strictNe (trim (String_or_empty (user_id eventDoc)))
                  (Some (trim (String_or_empty (user_id eventDoc)))) = false).
  { destruct (strictNe _ _) eqn:E; [|reflexivity].
    apply strictNe_true in E. now elim E. }
  apply try_catch_prefix. unfold Main.prepare. rewrite bind_await. cbn [app].
  fold (ownershipLookup env eventId). rewrite Hdoc, Hne. cbn [snd].
  change (ownershipLookup env eventId :: listingCall env eventId 0 :: ?r)
    with ([ownershipLookup env eventId] ++ [listingCall env eventId 0] ++ r).
  destruct (bind_prefix (Main.fetchAllPhotos w env (S fuel) eventId [] 0)
              (fun allPhotos =>
                 if (List.length allPhotos =? 0)%nat
                 then ret (Main.json_error 404 "No photos found")
                 else
                   bind (Main.processChunks w env eventDoc
                           (trim (String_or_empty (user_id eventDoc))) eventId
                           (List.length (Main.chunkPhotos Main.MAX_CHUNK_MB allPhotos)) 0
                           (Main.chunkPhotos Main.MAX_CHUNK_MB allPhotos) [])
                        (fun createdDownloads =>
                           ret (Main.json_success 200 "Download prepared successfully"
                                  (List.length
                                     (Main.chunkPhotos Main.MAX_CHUNK_MB allPhotos))
                                  createdDownloads)))
              [ownershipLookup env eventId] [listingCall env eventId 0])
    as [rest Hrest].
  { cbn [Main.fetchAllPhotos]. apply bind_prefix. unfold await.
    fold (listingCall env eventId 0).
    destruct (on_listDocuments w _); exists []; reflexivity. }
  exists rest. cbn [app] in *. now rewrite Hrest.
Qed.

(** X28. The ownership check of the streaming revision lets a request
    through when the identity header is [String(user_id)]: the run then goes
    on with the first listing of the photos.  In particular an event whose
    [user_id] is null is owned by the identity [null] written as a string. *)
Theorem streaming_match_proceeds (fuel : nat) (req : request)
    (eventId currentUserId : string) (eventDoc : eventDocument) :
  bodyRaw req = Body_object (Some eventId) ->
  eventId <> "" ->
  x_appwrite_user_id req = Some currentUserId ->
  currentUserId <> "" ->
  on_getDocument w [ownershipLookup env eventId] = Resolve eventDoc ->
  String_of (user_id eventDoc) = currentUserId ->
  exists rest,
    snd (run (Streaming.prepareDownload w env (S fuel) req))
    = ownershipLookup env eventId :: selectCall env eventId 0 :: rest.
Proof.
  intros Hbody Hid Hcu Hcne Hdoc Hown.
  unfold run, Streaming.prepareDownload. rewrite Hbody, Hcu.
  destruct eventId as [|c s] eqn:Heid; [now elim Hid|].
  destruct currentUserId as [|c' s'] eqn:Hcid; [now elim Hcne|].
  cbn [falsy orElse]. rewrite <- Heid, <- Hcid in *. clear Heid Hcid.
  apply try_catch_prefix. unfold Streaming.prepare. rewrite bind_await. cbn [app].
  fold (ownershipLookup env eventId). rewrite Hdoc, Hown, String.eqb_refl.
  cbn [negb snd].
  match goal with
  | |- context [bind (Streaming.fetchAllPhotos w env (S fuel) eventId [] 0) ?k ?h] =>
      destruct (bind_prefix (Streaming.fetchAllPhotos w env (S fuel) eventId [] 0) k h
                  [selectCall env eventId 0]) as [rest Hrest]
  end.
  { cbn [Streaming.fetchAllPhotos]. apply bind_prefix. unfold await.
    fold (selectCall env eventId 0).
    destruct (on_listDocuments w _); exists []; reflexivity. }
  exists rest. cbn [app] in *. now rewrite Hrest.
Qed.

End OwnershipPasses.

Lemma ownership_match_proceeds_witness :
  exists rest,
    snd (run (Main.prepareDownload orphanWorld exampleEnv 1
                {| bodyRaw := Body_object (Some "event-1");
                   x_appwrite_user_id := Some "" |}))
    = ownershipLookup exampleEnv "event-1" :: listingCall exampleEnv "event-1" 0 :: rest.
Proof.
  apply (ownership_match_proceeds orphanWorld exampleEnv 0
           {| bodyRaw := Body_object (Some "event-1"); x_appwrite_user_id := Some "" |}
           "event-1" {| user_id := JsNull; event_name := None |}).
  - reflexivity.
  - discriminate.
  - reflexivity.
  - reflexivity.
Defined.

Lemma streaming_match_proceeds_witness :
  exists rest,
    snd (run (Streaming.prepareDownload orphanWorld exampleEnv 1
                (exampleRequest (Some "null"))))
    = ownershipLookup exampleEnv "event-1" :: selectCall exampleEnv "event-1" 0 :: rest.
Proof.
  apply (streaming_match_proceeds orphanWorld exampleEnv 0
           (exampleRequest (Some "null")) "event-1" "null"
           {| user_id := JsNull; event_name := None |}).
  - reflexivity.
  - discriminate.
  - reflexivity.
  - discriminate.
  - reflexivity.
  - reflexivity.
Defined.
